(** * puzzle_6x6x6: the brick engine of [presentation.py]

    A shallow embedding of the rotation transform, the [Brick] value, the
    [CubeGrid] occupancy array with its placement registry and caches, and
    the JSON persistence, followed by the properties proved about them. *)

From Stdlib Require Import ZArith List Bool Lia.
From stdpp Require Import base tactics option list numbers strings.

Local Open Scope Z_scope.

(** ** Coordinates and the rotation transform *)

(** [Coord = Tuple[int, int, int]]; Python integers are unbounded. *)
Abbreviation Coord := (Z * Z * Z)%type.

Definition coord_eqb (a b : Coord) : bool :=
  let '(ax, ay, az) := a in
  let '(bx, by_, bz) := b in
  (ax =? bx) && (ay =? by_) && (az =? bz).

(** [pos[0] + cx, pos[1] + cy, pos[2] + cz] *)
Definition coord_add (pos c : Coord) : Coord :=
  let '(px, py, pz) := pos in
  let '(cx, cy, cz) := c in
  (px + cx, py + cy, pz + cz).

(** [range(n)]: empty when [n <= 0]. *)
Definition py_range (n : Z) : list Z :=
  map Z.of_nat (seq 0 (Z.to_nat n)).

(** [for i in range(n): a = body(i, a)] *)
Definition for_range {A : Type} (n : Z) (body : Z -> A -> A) (a : A) : A :=
  fold_left (fun acc i => body i acc) (py_range n) a.

(** (x, y, z) -> (x, -z, y) *)
Definition rot_x (a : Coord) : Coord :=
  let '(a0, a1, a2) := a in (a0, - a2, a1).

(** (x, y, z) -> (z, y, -x) *)
Definition rot_y (a : Coord) : Coord :=
  let '(a0, a1, a2) := a in (a2, a1, - a0).

(** (x, y, z) -> (-y, x, z) *)
Definition rot_z (a : Coord) : Coord :=
  let '(a0, a1, a2) := a in (- a1, a0, a2).

(** [rotate_point]: Python's [%] with a positive divisor is the floor
    modulus, which is [Z.modulo]. *)
Definition rotate_point (p : Coord) (rx ry rz : Z) : Coord :=
  let a := p in
  let a := for_range (rx mod 4) (fun _ a => rot_x a) a in
  let a := for_range (ry mod 4) (fun _ a => rot_y a) a in
  let a := for_range (rz mod 4) (fun _ a => rot_z a) a in
  a.

(** The rotation of section 4.1 of the specification, in its words: the
    three steps, and [k] applications of a step. *)
Module RotationSpec.
Definition X_step (p : Coord) : Coord := let '(x, y, z) := p in (x, - z, y).
Definition Y_step (p : Coord) : Coord := let '(x, y, z) := p in (z, y, - x).
Definition Z_step (p : Coord) : Coord := let '(x, y, z) := p in (- y, x, z).

Fixpoint times (k : nat) (step : Coord -> Coord) (p : Coord) : Coord :=
  match k with
  | O => p
  | S k' => times k' step (step p)
  end.

Definition rotate (p : Coord) (rx ry rz : Z) : Coord :=
  times (Z.to_nat (rz mod 4)) Z_step
    (times (Z.to_nat (ry mod 4)) Y_step
       (times (Z.to_nat (rx mod 4)) X_step p)).
End RotationSpec.

(** ** Exceptions and results *)

Inductive exn : Type := ValueError | KeyError | IndexError | AttributeError.

(** The outcome of a call: a value, or a raised exception. *)
Inductive result (A : Type) : Type :=
| Ok (a : A)
| Raise (e : exn).
Arguments Ok {A} a.
Arguments Raise {A} e.

Definition rbind {A B : Type} (r : result A) (k : A -> result B) : result B :=
  match r with
  | Ok a => k a
  | Raise e => Raise e
  end.

Notation "'let?' x := e 'in' k" := (rbind e (fun x => k))
  (at level 10, x pattern, e at level 200, k at level 200, only parsing).

(** A [for] loop whose body may raise, threading the loop's variables. *)
Fixpoint rfold {A B : Type} (l : list A) (body : A -> B -> result B) (b : B)
  : result B :=
  match l with
  | [] => Ok b
  | a :: l' => let? b' := body a b in rfold l' body b'
  end.

(** ** Brick *)

Record Brick : Type := mkBrick { cubes : list Coord; name : string }.

(** [Brick.__init__]: exactly 4 cubes; [name or "brick"]. *)
Definition Brick_init (cs : list Coord) (nm : string) : result Brick :=
  if negb (length cs =? 4)%nat then Raise ValueError
  else Ok {| cubes := cs; name := if String.eqb nm "" then "brick" else nm |}.

Definition rotated (self : Brick) (rx ry rz : Z) : result Brick :=
  Brick_init (map (fun c => rotate_point c rx ry rz) (cubes self)) (name self).

(** [min(xs)] of a non-empty sequence [x :: xs]. *)
Definition py_min (x : Z) (xs : list Z) : Z := fold_left Z.min xs x.

(** [normalized]: [zip( *self.cubes)] cannot be unpacked into three
    sequences when there is no cube. *)
Definition normalized (self : Brick) : result Brick :=
  match cubes self with
  | [] => Raise ValueError
  | (x0, y0, z0) :: rest =>
      let minx := py_min x0 (map (fun c : Coord => c.1.1) rest) in
      let miny := py_min y0 (map (fun c : Coord => c.1.2) rest) in
      let minz := py_min z0 (map (fun c : Coord => c.2) rest) in
      Brick_init
        (map (fun c : Coord => let '(x, y, z) := c in (x - minx, y - miny, z - minz))
           (cubes self))
        (name self)
  end.

(** [Brick] defines neither [__eq__] nor [__hash__]: a Python set of bricks
    compares its elements by object identity.  A reference pairs the object
    with its identity; every constructor call yields an identity that no
    live object has, modelled by a serial number. *)
Record Ref (A : Type) : Type := mkRef { ref_id : nat; deref : A }.
Arguments mkRef {A} ref_id deref.
Arguments ref_id {A} r.
Arguments deref {A} r.

(** [s.add(r)] for a set of objects hashed by identity; the list keeps the
    elements in the order they were added (the iteration order of a Python
    set is unspecified, and no result below depends on it). *)
Definition id_set_add {A : Type} (r : Ref A) (s : list (Ref A)) : list (Ref A) :=
  if existsb (fun r' => (ref_id r' =? ref_id r)%nat) s then s else s ++ [r].

(** [s.add(c)] for a set of coordinate tuples, compared by value. *)
Definition coord_set_add (c : Coord) (s : list Coord) : list Coord :=
  if existsb (coord_eqb c) s then s else s ++ [c].

(** ** Dictionaries

    A Python [dict] keeps its keys in insertion order; replacing the value
    of a key keeps its place. *)
Section PyDict.
Context {K V : Type} (eqb : K -> K -> bool).

Fixpoint dict_get (k : K) (d : list (K * V)) : option V :=
  match d with
  | [] => None
  | (k', v) :: d' => if eqb k k' then Some v else dict_get k d'
  end.

Fixpoint dict_set (k : K) (v : V) (d : list (K * V)) : list (K * V) :=
  match d with
  | [] => [(k, v)]
  | (k', v') :: d' =>
      if eqb k k' then (k', v) :: d' else (k', v') :: dict_set k v d'
  end.

Fixpoint dict_pop (k : K) (d : list (K * V)) : list (K * V) :=
  match d with
  | [] => []
  | (k', v') :: d' => if eqb k k' then d' else (k', v') :: dict_pop k d'
  end.

Definition dict_keys (d : list (K * V)) : list K := map fst d.

(** [k in d] *)
Definition dict_mem (k : K) (d : list (K * V)) : bool :=
  match dict_get k d with
  | Some _ => true
  | None => false
  end.

(** [d[k]] *)
Definition dict_getitem (k : K) (d : list (K * V)) : result V :=
  match dict_get k d with
  | Some v => Ok v
  | None => Raise KeyError
  end.

(** [d.get(k, dflt)] *)
Definition dict_get_default (k : K) (dflt : V) (d : list (K * V)) : V :=
  match dict_get k d with
  | Some v => v
  | None => dflt
  end.
End PyDict.

(** ** The occupancy array

    [np.zeros((size, size, size), dtype=int)]: a three-level array of
    integers.  An index [i] of an axis of length [n] addresses [i] when
    [0 <= i < n], wraps to [i + n] when [-n <= i < 0], and raises
    IndexError otherwise.  Cells hold placement ids, counters that start
    at 1.  A cell of the array is a signed 64-bit integer, and assigning
    an integer outside [in_int64] raises OverflowError; cells are kept
    here as unbounded integers and that exception is left out, so a
    statement that a new id is written takes the id within [in_int64]. *)
Abbreviation ndarray := (list (list (list Z))).

(** The integers a cell can hold: from -2^63 up to 2^63 - 1. *)
Definition in_int64 (v : Z) : Prop :=
  -9223372036854775808 <= v < 9223372036854775808.

(** [np.zeros((n, n, n), dtype=int)]: ValueError for a negative dimension,
    and for an array whose 8 * n^3 bytes exceed the largest size numpy
    admits, 2^63 - 1, that is from n = 2^20 = 1048576 on.  Running out of
    memory below that size is left out. *)
Definition np_zeros (n : Z) : result ndarray :=
  if (n <? 0) || (1048576 <=? n) then Raise ValueError
  else
    let k := Z.to_nat n in
    Ok (replicate k (replicate k (replicate k 0))).

Definition np_index (len : nat) (i : Z) : result nat :=
  if (0 <=? i) && (i <? Z.of_nat len) then Ok (Z.to_nat i)
  else if (- Z.of_nat len <=? i) && (i <? 0) then Ok (Z.to_nat (i + Z.of_nat len))
  else Raise IndexError.

Definition np_getitem {A : Type} (l : list A) (i : Z) : result A :=
  let? k := np_index (length l) i in
  match l !! k with
  | Some a => Ok a
  | None => Raise IndexError
  end.

Definition np_setitem {A : Type} (l : list A) (i : Z) (a : A) : result (list A) :=
  let? k := np_index (length l) i in
  Ok (<[k := a]> l).

(** [g[x, y, z]] *)
Definition grid_get (g : ndarray) (c : Coord) : result Z :=
  let '(x, y, z) := c in
  let? plane := np_getitem g x in
  let? row := np_getitem plane y in
  np_getitem row z.

(** [g[x, y, z] = v] *)
Definition grid_set (g : ndarray) (c : Coord) (v : Z) : result ndarray :=
  let '(x, y, z) := c in
  let? plane := np_getitem g x in
  let? row := np_getitem plane y in
  let? row' := np_setitem row z v in
  let? plane' := np_setitem plane y row' in
  np_setitem g x plane'.

(** [g.fill(0)] *)
Definition np_fill0 (g : ndarray) : ndarray :=
  (fun plane : list (list Z) =>
     (fun row : list Z => (fun _ : Z => 0) <$> row) <$> plane) <$> g.

(** ** CubeGrid *)

Record CubeGrid : Type := mkCubeGrid {
  size : Z;
  grid : ndarray;
  next_id : Z;
  (** id -> (placement_id, brick, position) *)
  placed : list (Z * (Z * Brick * Coord));
  bricks : list (string * Brick);
  valid_placements : list (string * list Coord);
  valid_rotations : list (string * list (Ref Brick))
}.

Definition set_size (v : Z) (s : CubeGrid) : CubeGrid :=
  mkCubeGrid v (grid s) (next_id s) (placed s) (bricks s)
    (valid_placements s) (valid_rotations s).
Definition set_grid (v : ndarray) (s : CubeGrid) : CubeGrid :=
  mkCubeGrid (size s) v (next_id s) (placed s) (bricks s)
    (valid_placements s) (valid_rotations s).
Definition set_next_id (v : Z) (s : CubeGrid) : CubeGrid :=
  mkCubeGrid (size s) (grid s) v (placed s) (bricks s)
    (valid_placements s) (valid_rotations s).
Definition set_placed (v : list (Z * (Z * Brick * Coord))) (s : CubeGrid) : CubeGrid :=
  mkCubeGrid (size s) (grid s) (next_id s) v (bricks s)
    (valid_placements s) (valid_rotations s).
Definition set_valid_placements (v : list (string * list Coord)) (s : CubeGrid)
  : CubeGrid :=
  mkCubeGrid (size s) (grid s) (next_id s) (placed s) (bricks s)
    v (valid_rotations s).
Definition set_valid_rotations (v : list (string * list (Ref Brick))) (s : CubeGrid)
  : CubeGrid :=
  mkCubeGrid (size s) (grid s) (next_id s) (placed s) (bricks s)
    (valid_placements s) v.

(** [0 <= x < size and 0 <= y < size and 0 <= z < size] *)
Definition in_bounds (n : Z) (c : Coord) : bool :=
  let '(x, y, z) := c in
  (0 <=? x) && (x <? n) && (0 <=? y) && (y <? n) && (0 <=? z) && (z <? n).

(** The loop of [can_place] over the brick's cubes. *)
Fixpoint can_place_cubes (self : CubeGrid) (pos : Coord) (cs : list Coord)
  : result bool :=
  match cs with
  | [] => Ok true
  | c :: cs' =>
      let xyz := coord_add pos c in
      if negb (in_bounds (size self) xyz) then Ok false
      else
        let? occ := grid_get (grid self) xyz in
        if negb (occ =? 0) then Ok false
        else can_place_cubes self pos cs'
  end.

Definition can_place (self : CubeGrid) (brick : Brick) (pos : Coord) : result bool :=
  can_place_cubes self pos (cubes brick).

(** The loop of [can_move]: a cell owned by [placement_id] counts as free. *)
Fixpoint can_move_cubes (self : CubeGrid) (placement_id : Z) (new_pos : Coord)
  (cs : list Coord) : result bool :=
  match cs with
  | [] => Ok true
  | c :: cs' =>
      let xyz := coord_add new_pos c in
      if negb (in_bounds (size self) xyz) then Ok false
      else
        let? occ := grid_get (grid self) xyz in
        if negb (occ =? 0) && negb (occ =? placement_id) then Ok false
        else can_move_cubes self placement_id new_pos cs'
  end.

Definition can_move (self : CubeGrid) (placement_id : Z) (new_pos : Coord)
  : result bool :=
  match dict_get Z.eqb placement_id (placed self) with
  | None => Ok false
  | Some (_, brick, _) => can_move_cubes self placement_id new_pos (cubes brick)
  end.

(** ** Methods that mutate the grid

    A method runs on the object's state and ends with a value or an
    exception; the state it leaves is returned in both cases. *)
Definition M (A : Type) : Type := CubeGrid -> result A * CubeGrid.

Definition ret {A : Type} (a : A) : M A := fun s => (Ok a, s).
Definition raise {A : Type} (e : exn) : M A := fun s => (Raise e, s).
Definition bind {A B : Type} (m : M A) (k : A -> M B) : M B :=
  fun s =>
    match m s with
    | (Ok a, s') => k a s'
    | (Raise e, s') => (Raise e, s')
    end.
Definition gets {A : Type} (f : CubeGrid -> A) : M A := fun s => (Ok (f s), s).
Definition lift {A : Type} (f : CubeGrid -> result A) : M A := fun s => (f s, s).
Definition modify (f : CubeGrid -> CubeGrid) : M unit := fun s => (Ok tt, f s).

Notation "'let*' x := e 'in' k" := (bind e (fun x => k))
  (at level 10, x pattern, e at level 200, k at level 200, only parsing).

Fixpoint for_each {A : Type} (l : list A) (body : A -> M unit) : M unit :=
  match l with
  | [] => ret tt
  | a :: l' => let* _ := body a in for_each l' body
  end.

Fixpoint for_fold {A B : Type} (l : list A) (body : A -> B -> M B) (b : B) : M B :=
  match l with
  | [] => ret b
  | a :: l' => let* b' := body a b in for_fold l' body b'
  end.

(** [self.grid[x, y, z] = v] *)
Definition grid_setitem (c : Coord) (v : Z) : M unit :=
  fun s =>
    match grid_set (grid s) c v with
    | Ok g => (Ok tt, set_grid g s)
    | Raise e => (Raise e, s)
    end.

(** [for cx, cy, cz in brick.cubes: self.grid[pos + c] = v] *)
Definition write_cubes (brick : Brick) (pos : Coord) (v : Z) : M unit :=
  for_each (cubes brick) (fun c => grid_setitem (coord_add pos c) v).

Definition clear : M unit :=
  let* _ := modify (fun self => set_grid (np_fill0 (grid self)) self) in
  let* _ := modify (set_next_id 1) in
  modify (set_placed []).

Definition place (brick : Brick) (pos : Coord) : M Z :=
  let* fits := lift (fun self => can_place self brick pos) in
  if negb fits then raise ValueError
  else
    let* pid := gets next_id in
    let* _ := write_cubes brick pos pid in
    let* _ := modify (fun self =>
                set_placed (dict_set Z.eqb pid (pid, brick, pos) (placed self)) self) in
    let* _ := modify (fun self => set_next_id (next_id self + 1) self) in
    ret pid.

Definition remove (placement_id : Z) : M unit :=
  let* known := gets (fun self => dict_mem Z.eqb placement_id (placed self)) in
  if negb known then raise KeyError
  else
    let* entry := lift (fun self => dict_getitem Z.eqb placement_id (placed self)) in
    let* _ := modify (fun self =>
                set_placed (dict_pop Z.eqb placement_id (placed self)) self) in
    let '(pid, brick, pos) := entry in
    write_cubes brick pos 0.

Definition move (placement_id : Z) (new_pos : Coord) : M unit :=
  let* known := gets (fun self => dict_mem Z.eqb placement_id (placed self)) in
  if negb known then raise KeyError
  else
    let* movable := lift (fun self => can_move self placement_id new_pos) in
    if negb movable then raise ValueError
    else
      let* entry := lift (fun self => dict_getitem Z.eqb placement_id (placed self)) in
      let '(pid, brick, old_pos) := entry in
      let* _ := write_cubes brick old_pos 0 in
      let* _ := write_cubes brick new_pos pid in
      modify (fun self =>
        set_placed
          (dict_set Z.eqb placement_id (pid, brick, new_pos) (placed self)) self).

(** [num_left]: the number of cells equal to 0. *)
Definition num_left (self : CubeGrid) : result Z :=
  let r := py_range (size self) in
  rfold r (fun x num =>
    rfold r (fun y num =>
      rfold r (fun z num =>
        let? occ := grid_get (grid self) (x, y, z) in
        Ok (if occ =? 0 then num + 1 else num)) num) num) 0.

(** ** Queries over the caches *)

(** The first loop of [validate_placements] and of
    [can_not_place_somewhere]: the cached origins whose cell is 0. *)
Definition empty_origins (self : CubeGrid) (brick : Brick) : result (list Coord) :=
  rfold (dict_get_default String.eqb (name brick) [] (valid_placements self))
    (fun place empties =>
       let? occ := grid_get (grid self) place in
       Ok (if occ =? 0 then coord_set_add place empties else empties))
    [].

(** [for b in rotations: if self.can_place(b, e): placements.append((b, e))] *)
Definition fits_at (self : CubeGrid) (e : Coord) (rotations : list (Ref Brick))
  (placements : list (Ref Brick * Coord)) : result (list (Ref Brick * Coord)) :=
  rfold rotations
    (fun b acc =>
       let? fits := can_place self (deref b) e in
       Ok (if fits then acc ++ [(b, e)] else acc))
    placements.

Definition validate_placements (self : CubeGrid) (brick : Brick)
  : result (list (Ref Brick * Coord)) :=
  let? empties := empty_origins self brick in
  match empties with
  | [] => Ok []
  | _ =>
      let rotations :=
        dict_get_default String.eqb (name brick) [] (valid_rotations self) in
      rfold empties (fun e acc => fits_at self e rotations acc) []
  end.

(** [is_ok = False; for b in rotations: is_ok = can_place(b, e); if is_ok: break] *)
Fixpoint some_rotation_fits (self : CubeGrid) (e : Coord) (rotations : list (Ref Brick))
  : result bool :=
  match rotations with
  | [] => Ok false
  | b :: rest =>
      let? is_ok := can_place self (deref b) e in
      if is_ok then Ok true else some_rotation_fits self e rest
  end.

(** [for e in empties: ...; if not is_ok: return True] and the final
    [return False].  The diagnostic [print] is left out. *)
Fixpoint some_origin_blocked (self : CubeGrid) (rotations : list (Ref Brick))
  (empties : list Coord) : result bool :=
  match empties with
  | [] => Ok false
  | e :: rest =>
      let? is_ok := some_rotation_fits self e rotations in
      if negb is_ok then Ok true else some_origin_blocked self rotations rest
  end.

Definition can_not_place_somewhere (self : CubeGrid) (brick : Brick) : result bool :=
  let? empties := empty_origins self brick in
  match empties with
  | [] => Ok false
  | _ =>
      let rotations :=
        dict_get_default String.eqb (name brick) [] (valid_rotations self) in
      some_origin_blocked self rotations empties
  end.

(** ** Construction *)

Definition template_names : list string := ["T"; "I"; "L"; "O"; "S3D"].

(** [self.bricks = {'T': Brick([...], name='T'), ...}] *)
Definition default_bricks : result (list (string * Brick)) :=
  let? t := Brick_init [(0, 0, 0); (1, 0, 0); (2, 0, 0); (1, 1, 0)] "T" in
  let? i := Brick_init [(0, 0, 0); (1, 0, 0); (2, 0, 0); (3, 0, 0)] "I" in
  let? l := Brick_init [(0, 0, 0); (1, 0, 0); (2, 0, 0); (2, 1, 0)] "L" in
  let? o := Brick_init [(0, 0, 0); (1, 0, 0); (0, 1, 0); (1, 1, 0)] "O" in
  let? s := Brick_init [(0, 0, 0); (1, 0, 0); (1, 1, 0); (1, 1, 1)] "S3D" in
  Ok [("T", t); ("I", i); ("L", l); ("O", o); ("S3D", s)].

(** The rotation loop of [__init__] for one template.  [heap] is the serial
    number of the next object: [rotated] creates one brick and [normalized]
    another, which is the one added to the set. *)
Definition all_rotations_of (brick : Brick) (heap : nat)
  : result (list (Ref Brick) * nat) :=
  rfold (py_range 4) (fun rx acc =>
    rfold (py_range 4) (fun ry acc =>
      rfold (py_range 4) (fun rz acc =>
        let '(all_rotations, h) := acc in
        let? r := rotated brick rx ry rz in
        let? b := normalized r in
        Ok (id_set_add (mkRef (S h) b) all_rotations, (h + 2)%nat))
      acc) acc) ([], heap).

(** [self.valid_placements[brick.name].add((x, y, z))] *)
Definition add_valid_placement (nm : string) (c : Coord) (self : CubeGrid)
  : result CubeGrid :=
  let? origins := dict_getitem String.eqb nm (valid_placements self) in
  Ok (set_valid_placements
        (dict_set String.eqb nm (coord_set_add c origins) (valid_placements self))
        self).

(** The origin loop of [__init__] for one template. *)
Definition valid_origins_of (brick : Brick) (all_rotations : list (Ref Brick))
  (self : CubeGrid) : result CubeGrid :=
  let r := py_range (size self) in
  rfold r (fun x self =>
    rfold r (fun y self =>
      rfold r (fun z self =>
        let? ok_place := some_rotation_fits self (x, y, z) all_rotations in
        if ok_place then add_valid_placement (name brick) (x, y, z) self
        else Ok self) self) self) self.

(** The body of [for brick in self.bricks.values()]. *)
Definition build_cache (brick : Brick) (acc : CubeGrid * nat)
  : result (CubeGrid * nat) :=
  let '(self, heap) := acc in
  let? (all_rotations, heap') := all_rotations_of brick heap in
  let self :=
    set_valid_rotations
      (dict_set String.eqb (name brick) all_rotations (valid_rotations self)) self in
  let? self := valid_origins_of brick all_rotations self in
  Ok (self, heap').

(** [CubeGrid.__init__] *)
Definition CubeGrid_init (n : Z) : result CubeGrid :=
  let? g := np_zeros n in
  let? bs := default_bricks in
  let self :=
    {| size := n; grid := g; next_id := 1; placed := []; bricks := bs;
       valid_placements := map (fun k => (k, [])) template_names;
       valid_rotations := map (fun k => (k, [])) template_names |} in
  let? (self, _) := rfold (map snd bs) build_cache (self, 0%nat) in
  Ok self.

(** ** Persistence

    The saved file is a JSON document; [json.dump] followed by [json.load]
    gives back the same integers, strings and lists.  The document is kept
    in parsed form: an object whose keys may be absent (the loader reads
    them with [get]), and records whose cubes and position are integer
    triples.  These are the documents on which every conversion [int(...)]
    of the loader returns and every record carries its id, cubes and
    position; on any other document the loader raises at the conversion
    or the lookup that fails, the first of which, that of the size, comes
    before any assignment. *)
Record Item : Type := mkItem {
  item_pid : Z;
  item_name : option string;
  item_cubes : list Coord;
  item_pos : Coord
}.

Record Snapshot : Type := mkSnapshot {
  snap_size : option Z;
  snap_next_id : option Z;
  snap_placed : option (list Item)
}.

(** The record [to_dict] writes for one registry entry. *)
Definition item_of (kv : Z * (Z * Brick * Coord)) : Item :=
  let '(pid, (pid2, brick, pos)) := kv in
  {| item_pid := pid;
     item_name := Some (name brick);
     item_cubes := cubes brick;
     item_pos := pos |}.

Definition to_dict (self : CubeGrid) : Snapshot :=
  {| snap_size := Some (size self);
     snap_next_id := Some (next_id self);
     snap_placed := Some (map item_of (placed self)) |}.

(** The body of [for item in data.get('placed', [])], threading [max_pid]. *)
Definition load_item (item : Item) (max_pid : Z) : M Z :=
  let pid := item_pid item in
  let nm := default "" (item_name item) in
  let pos := item_pos item in
  let* brick := lift (fun _ => Brick_init (item_cubes item) nm) in
  let* _ := write_cubes brick pos pid in
  let* _ := modify (fun self =>
              set_placed (dict_set Z.eqb pid (pid, brick, pos) (placed self)) self) in
  ret (if pid >? max_pid then pid else max_pid).

(** [load_from_file], from the parsed document on. *)
Definition load_from_file (data : Snapshot) : M unit :=
  let n := default 6 (snap_size data) in
  let* _ := modify (set_size n) in
  let* g := lift (fun _ => np_zeros n) in
  let* _ := modify (set_grid g) in
  let* _ := modify (set_placed []) in
  let* max_pid := for_fold (default [] (snap_placed data)) load_item 0 in
  modify (set_next_id (default (max_pid + 1) (snap_next_id data))).

(** ** The attributes of a grid object

    What a lookup [grid.<attr>] finds: the attributes set by [__init__] and
    the names bound in the class body.  Any other name raises
    AttributeError. *)
Definition CubeGrid_attributes : list string :=
  [ "size"; "grid"; "next_id"; "placed"; "bricks"; "valid_placements";
    "valid_rotations"; "__init__"; "clear"; "can_place"; "place"; "remove";
    "to_dict"; "save_to_file"; "load_from_file"; "can_move"; "move";
    "num_left"; "validate_placements"; "can_not_place_somewhere"; "show" ].

Definition CubeGrid_getattr (attr : string) : result unit :=
  if existsb (String.eqb attr) CubeGrid_attributes then Ok tt
  else Raise AttributeError.

(** [App.on_check_T_between] up to the evaluation of
    [self.grid.can_place_somewhere]: [None] when the handler returns early
    because no 'T' brick is defined. *)
Definition on_check_T_between (app_bricks : list (string * Brick))
  : result (option unit) :=
  if negb (dict_mem String.eqb "T" app_bricks) then Ok None
  else
    let? bound := CubeGrid_getattr "can_place_somewhere" in
    Ok (Some bound).

(** ** Well-formed arrays *)

(** The array has [n] planes of [n] rows of [n] cells. *)
Definition shape3 (n : nat) (g : ndarray) : Prop :=
  length g = n
  /\ Forall (fun plane : list (list Z) =>
               length plane = n /\ Forall (fun row : list Z => length row = n) plane) g.

(** The grid of a state has the shape its size announces. *)
Definition grid_ok (s : CubeGrid) : Prop :=
  0 <= size s /\ shape3 (Z.to_nat (size s)) (grid s).

(** The absolute cells of a brick put at [pos]. *)
Definition cells (brick : Brick) (pos : Coord) : list Coord :=
  map (coord_add pos) (cubes brick).

Definition coord_mem (c : Coord) (l : list Coord) : bool :=
  existsb (coord_eqb c) l.

(** No key occurs twice, as in every Python dict. *)
Fixpoint unique_keys {V : Type} (d : list (Z * V)) : Prop :=
  match d with
  | [] => True
  | (k, _) :: d' => dict_get Z.eqb k d' = None /\ unique_keys d'
  end.

(** What [Brick.__init__] guarantees of every brick object. *)
Definition Brick_ok (b : Brick) : Prop :=
  length (cubes b) = 4%nat /\ name b <> "".

(** ** The grid invariant *)

(** The working form: the registry is a dict whose entries carry their own
    key, ids are positive and below [next_id], every cube of a registered
    brick lies in range and its cell holds the brick's id, and every
    non-zero cell belongs to the registered brick of that id. *)
Record Inv (s : CubeGrid) : Prop := mkInv {
  inv_grid : grid_ok s;
  inv_next : 1 <= next_id s;
  inv_keys : unique_keys (placed s);
  inv_entry : forall k pid b pos,
    dict_get Z.eqb k (placed s) = Some (pid, b, pos) ->
    pid = k /\ 1 <= k < next_id s /\ Brick_ok b;
  inv_cells : forall k pid b pos c,
    dict_get Z.eqb k (placed s) = Some (pid, b, pos) -> In c (cubes b) ->
    in_bounds (size s) (coord_add pos c) = true
    /\ grid_get (grid s) (coord_add pos c) = Ok k;
  inv_owner : forall c v,
    in_bounds (size s) c = true -> grid_get (grid s) c = Ok v -> v <> 0 ->
    exists pid b pos off,
      dict_get Z.eqb v (placed s) = Some (pid, b, pos)
      /\ In off (cubes b) /\ c = coord_add pos off
}.

(** The invariant in the words of the data model.  A cell is a coordinate
    within the grid; 0 marks an empty cell and is no placement id. *)
Definition holds (s : CubeGrid) (c : Coord) (P : Z) : Prop :=
  in_bounds (size s) c = true /\ grid_get (grid s) c = Ok P.

Definition registered (s : CubeGrid) (P : Z) (b : Brick) (pos : Coord) : Prop :=
  exists pid, dict_get Z.eqb P (placed s) = Some (pid, b, pos).

Definition owns (s : CubeGrid) (P : Z) (c : Coord) : Prop :=
  exists b pos off, registered s P b pos /\ In off (cubes b) /\ c = coord_add pos off.

Definition grid_invariant (s : CubeGrid) : Prop :=
  (forall c P, P <> 0 -> (holds s c P <-> owns s P c))
  /\ (forall P Q c, P <> Q -> owns s P c -> owns s Q c -> False)
  /\ (forall P b pos off, registered s P b pos -> In off (cubes b) ->
        in_bounds (size s) (coord_add pos off) = true).

(** The states reachable from a freshly constructed grid by successful
    [place], [remove], [move] and [clear] calls. *)
Inductive reachable : CubeGrid -> Prop :=
| reach_init (n : Z) (s : CubeGrid) :
    CubeGrid_init n = Ok s -> reachable s
| reach_place (s s' : CubeGrid) (b : Brick) (pos : Coord) (pid : Z) :
    reachable s -> Brick_ok b -> place b pos s = (Ok pid, s') -> reachable s'
| reach_remove (s s' : CubeGrid) (pid : Z) :
    reachable s -> remove pid s = (Ok tt, s') -> reachable s'
| reach_move (s s' : CubeGrid) (pid : Z) (new_pos : Coord) :
    reachable s -> move pid new_pos s = (Ok tt, s') -> reachable s'
| reach_clear (s s' : CubeGrid) :
    reachable s -> clear s = (Ok tt, s') -> reachable s'.

(** ** The states the mutators leave *)

(** The state [place] leaves on success. *)
Definition placed_state (s : CubeGrid) (g' : ndarray) (b : Brick) (pos : Coord)
  : CubeGrid :=
  mkCubeGrid (size s) g' (next_id s + 1)
    (dict_set Z.eqb (next_id s) (next_id s, b, pos) (placed s))
    (bricks s) (valid_placements s) (valid_rotations s).

(** The state [remove] leaves on success. *)
Definition removed_state (s : CubeGrid) (g' : ndarray) (pid : Z) : CubeGrid :=
  mkCubeGrid (size s) g' (next_id s) (dict_pop Z.eqb pid (placed s))
    (bricks s) (valid_placements s) (valid_rotations s).

(** The state [move] leaves on success. *)
Definition moved_state (s : CubeGrid) (g' : ndarray) (pid pid' : Z) (b : Brick)
  (new_pos : Coord) : CubeGrid :=
  mkCubeGrid (size s) g' (next_id s)
    (dict_set Z.eqb pid (pid', b, new_pos) (placed s))
    (bricks s) (valid_placements s) (valid_rotations s).

(** ** Construction: what the cache loops leave alone *)

(** What the cache loops of [__init__] leave alone: everything but the two
    caches, whose keys stay the five template names. *)
Definition fresh_core (n : Z) (g : ndarray) (s : CubeGrid) : Prop :=
  size s = n /\ grid s = g /\ next_id s = 1 /\ placed s = []
  /\ dict_keys (valid_placements s) = template_names
  /\ dict_keys (valid_rotations s) = template_names.

(** The five templates, as [default_bricks] builds them. *)
Definition template_bricks : list (string * Brick) :=
  [ ("T", mkBrick [(0, 0, 0); (1, 0, 0); (2, 0, 0); (1, 1, 0)] "T");
    ("I", mkBrick [(0, 0, 0); (1, 0, 0); (2, 0, 0); (3, 0, 0)] "I");
    ("L", mkBrick [(0, 0, 0); (1, 0, 0); (2, 0, 0); (2, 1, 0)] "L");
    ("O", mkBrick [(0, 0, 0); (1, 0, 0); (0, 1, 0); (1, 1, 0)] "O");
    ("S3D", mkBrick [(0, 0, 0); (1, 0, 0); (1, 1, 0); (1, 1, 1)] "S3D") ].

(** ** Observations of a state and sequences of calls *)

(** [keeps f m]: whatever its outcome, the method [m] leaves the
    observation [f] of the state as it found it. *)
Definition keeps {X A : Type} (f : CubeGrid -> X) (m : M A) : Prop :=
  forall s, f (snd (m s)) = f s.

(** The two caches of a state. *)
Definition caches (s : CubeGrid)
  : list (string * list Coord) * list (string * list (Ref Brick)) :=
  (valid_placements s, valid_rotations s).




(** ** Persistence: documents and the replay of a registry *)

(** A saved document whose [next_id] key is missing. *)
Definition without_next_id (d : Snapshot) : Snapshot :=
  {| snap_size := snap_size d; snap_next_id := None; snap_placed := snap_placed d |}.

(** The largest of the ids, 0 when there is none. *)
Definition max_id (ids : list Z) : Z := fold_right Z.max 0 ids.

(** The value of a cell after the loader has replayed the entries [l] over
    a cell that held [base]: the id of the last entry covering it. *)
Definition painted (l : list (Z * (Z * Brick * Coord))) (base : result Z) (c : Coord)
  : result Z :=
  fold_left
    (fun acc (kv : Z * (Z * Brick * Coord)) =>
       let '(k, (_, b, pos)) := kv in
       if coord_mem c (cells b pos) then Ok k else acc)
    l base.

(** The running maximum of the load loop. *)
Definition running_max (m : Z) (ids : list Z) : Z :=
  fold_left (fun acc pid => if pid >? acc then pid else acc) ids m.

(** ** All states of a grid object *)

(** Every state a grid object can be in: constructed, then subjected to any
    calls of its mutating methods, whether they return or raise. *)
Inductive engine_state : CubeGrid -> Prop :=
| es_init (n : Z) (s : CubeGrid) :
    CubeGrid_init n = Ok s -> engine_state s
| es_place (s : CubeGrid) (b : Brick) (pos : Coord) :
    engine_state s -> engine_state (snd (place b pos s))
| es_remove (s : CubeGrid) (pid : Z) :
    engine_state s -> engine_state (snd (remove pid s))
| es_move (s : CubeGrid) (pid : Z) (new_pos : Coord) :
    engine_state s -> engine_state (snd (move pid new_pos s))
| es_clear (s : CubeGrid) :
    engine_state s -> engine_state (snd (clear s))
| es_load (s : CubeGrid) (data : Snapshot) :
    engine_state s -> engine_state (snd (load_from_file data s)).

(** Every cached origin lies within a grid of edge [n]. *)
Definition origins_in_range (n : Z) (s : CubeGrid) : Prop :=
  forall nm cs c,
    dict_get String.eqb nm (valid_placements s) = Some cs -> In c cs ->
    in_bounds n c = true.

(** ** Concrete bricks, grids and documents *)

(** The 'T' and 'O' templates. *)
Definition T_brick : Brick :=
  mkBrick [(0, 0, 0); (1, 0, 0); (2, 0, 0); (1, 1, 0)] "T".

Definition O_brick : Brick :=
  mkBrick [(0, 0, 0); (1, 0, 0); (0, 1, 0); (1, 1, 0)] "O".

(** Successive [place] calls of one brick at the given positions. *)
Fixpoint place_all (b : Brick) (l : list Coord) (s : CubeGrid) : result CubeGrid :=
  match l with
  | [] => Ok s
  | pos :: l' =>
      match place b pos s with
      | (Ok _, s') => place_all b l' s'
      | (Raise e, _) => Raise e
      end
  end.

(** The 54 origins at which the flat 2x2 square tiles a 6x6x6 grid. *)
Definition O_tiling : list Coord :=
  flat_map (fun i => flat_map (fun j => map (fun k => (2 * i, 2 * j, k)) (py_range 6))
                       (py_range 3)) (py_range 3).

(** A saved document of an empty grid of edge 3. *)
Definition empty_doc3 : Snapshot :=
  {| snap_size := Some 3; snap_next_id := Some 1; snap_placed := Some [] |}.

(** What is observed of a cached orientation: its identity and its cubes. *)
Definition seen (r : Ref Brick) : nat * list Coord := (ref_id r, cubes (deref r)).

(** The squared distance of a point from the origin. *)
Definition norm2 (p : Coord) : Z :=
  let '(x, y, z) := p in x * x + y * y + z * z.

(** The three coordinates of a cube. *)
Definition cx (c : Coord) : Z := c.1.1.

Definition cy (c : Coord) : Z := c.1.2.

Definition cz (c : Coord) : Z := c.2.

(** The cube [c] seen from [t]: [c - t] on each axis. *)
Definition coord_sub (c t : Coord) : Coord :=
  (cx c - cx t, cy c - cy t, cz c - cz t).

(** A brick whose least coordinate on each axis is 0. *)
Definition at_origin (b : Brick) : Prop :=
  (forall c, In c (cubes b) -> 0 <= cx c /\ 0 <= cy c /\ 0 <= cz c)
  /\ (exists c, In c (cubes b) /\ cx c = 0)
  /\ (exists c, In c (cubes b) /\ cy c = 0)
  /\ (exists c, In c (cubes b) /\ cz c = 0).

(** [App._move_selected] from the selected id on: read the brick's
    position from the registry, add [delta], call [move].  The handler
    shows any exception in a message box; the state is the one the call
    leaves. *)
Definition move_selected (pid : Z) (delta : Coord) : M unit :=
  let* entry := lift (fun self => dict_getitem Z.eqb pid (placed self)) in
  let '(_, brick, pos) := entry in
  let new_pos := coord_add pos delta in
  move pid new_pos.

(** [-delta] *)
Definition coord_neg (c : Coord) : Coord :=
  let '(x, y, z) := c in (- x, - y, - z).

(** The coordinates of a grid of edge [n], in the order [num_left] visits
    them. *)
Definition all_cells (n : Z) : list Coord :=
  flat_map (fun x => flat_map (fun y => map (fun z => (x, y, z)) (py_range n))
                       (py_range n)) (py_range n).

(** The cell at [c] can be read and holds 0. *)
Definition cell_is_empty (s : CubeGrid) (c : Coord) : bool :=
  match grid_get (grid s) c with
  | Ok occ => occ =? 0
  | Raise _ => false
  end.

(** The number of elements of [l] that satisfy [p]. *)
Definition count_of {A : Type} (p : A -> bool) (l : list A) : Z :=
  Z.of_nat (length (List.filter p l)).

(** The cached origins and orientations under a brick's name, as the
    queries read them: [self.valid_placements.get(brick.name, set())]. *)
Definition cached_origins (s : CubeGrid) (nm : string) : list Coord :=
  dict_get_default String.eqb nm [] (valid_placements s).

Definition cached_rotations (s : CubeGrid) (nm : string) : list (Ref Brick) :=
  dict_get_default String.eqb nm [] (valid_rotations s).

(** [brick.rotated(rx, ry, rz).normalized()] *)
Definition oriented (brick : Brick) (rx ry rz : Z) : result Brick :=
  let? r := rotated brick rx ry rz in normalized r.

(** What the caches of a template hold when they are exact: 64 orientation
    objects whose values are the normalized rotations of the template by
    the triples of [range(4)], and the origins in range at which one of
    them passes [can_place]. *)
Definition cache_exact (s : CubeGrid) (b : Brick) : Prop :=
  length (cached_rotations s (name b)) = 64%nat
  /\ (forall o, In o (map deref (cached_rotations s (name b))) <->
        exists rx ry rz,
          (0 <= rx < 4 /\ 0 <= ry < 4 /\ 0 <= rz < 4) /\ oriented b rx ry rz = Ok o)
  /\ (forall c, In c (cached_origins s (name b)) <->
        in_bounds (size s) c = true
        /\ exists r, In r (cached_rotations s (name b))
                     /\ can_place s (deref r) c = Ok true).

(** The attributes the cache loops never assign. *)
Definition engine_part (s : CubeGrid)
  : Z * ndarray * Z * list (Z * (Z * Brick * Coord)) * list (string * Brick) :=
  (size s, grid s, next_id s, placed s, bricks s).

(** The state of the constructor between two rounds of the loop over the
    templates: [pending] are the templates still to come. *)
Definition caches_built (n : Z) (pending : list Brick) (s : CubeGrid) : Prop :=
  engine_part s
  = (n, replicate (Z.to_nat n) (replicate (Z.to_nat n) (replicate (Z.to_nat n) 0)),
     1, [], template_bricks)
  /\ dict_keys (valid_placements s) = template_names
  /\ dict_keys (valid_rotations s) = template_names
  /\ (forall b, In b pending ->
        dict_get String.eqb (name b) (valid_placements s) = Some [])
  /\ (forall b, In b (map snd template_bricks) ->
        ~ In (name b) (map name pending) -> cache_exact s b).

(** Python's order on tuples of three integers. *)
Definition coord_leb (a b : Coord) : bool :=
  (cx a <? cx b)
  || ((cx a =? cx b) && ((cy a <? cy b) || ((cy a =? cy b) && (cz a <=? cz b)))).

Fixpoint insert_sorted (c : Coord) (l : list Coord) : list Coord :=
  match l with
  | [] => [c]
  | d :: l' => if coord_leb c d then c :: l else d :: insert_sorted c l'
  end.

(** [tuple(sorted(l))] for a sequence of coordinate tuples. *)
Definition py_sorted (l : list Coord) : list Coord := fold_right insert_sorted [] l.

(** Equality of two tuples of coordinates. *)
Fixpoint tuple_eqb (a b : list Coord) : bool :=
  match a, b with
  | [], [] => true
  | c :: a', d :: b' => coord_eqb c d && tuple_eqb a' b'
  | _, _ => false
  end.

Definition neighbour_offsets : list Coord :=
  [(1, 0, 0); (-1, 0, 0); (0, 1, 0); (0, -1, 0); (0, 0, 1); (0, 0, -1)].

(** [for dx, dy, dz in (...): if <in range>: if self.grid.grid[sx, sy, sz] != 0:
    touches = True; break] for the cell [n]. *)
Fixpoint touches_cell (self : CubeGrid) (n : Coord) (ds : list Coord) : result bool :=
  match ds with
  | [] => Ok false
  | d :: ds' =>
      let sxyz := coord_add n d in
      if in_bounds (size self) sxyz then
        let? occ := grid_get (grid self) sxyz in
        if negb (occ =? 0) then Ok true else touches_cell self n ds'
      else touches_cell self n ds'
  end.

(** [for cx, cy, cz in b.cubes: ...; if touches: break] *)
Fixpoint touches (self : CubeGrid) (pos : Coord) (cs : list Coord) : result bool :=
  match cs with
  | [] => Ok false
  | c :: cs' =>
      let? t := touches_cell self (coord_add pos c) neighbour_offsets in
      if t then Ok true else touches self pos cs'
  end.

(** The body of the innermost loop of [App._find_placements] for the
    orientation [b] of the rotation [rot] and the origin [pos].  An entry
    [(x, y, z, rx, ry, rz)] of [found] is the pair of [pos] and [rot];
    [seen] is the set of tuples of occupied cells. *)
Definition find_step (self : CubeGrid) (only_adjacent : bool) (b : Brick)
  (rot pos : Coord) (acc : list (Coord * Coord) * list (list Coord))
  : result (list (Coord * Coord) * list (list Coord)) :=
  let '(found, seen) := acc in
  let? fits := can_place self b pos in
  if fits then
    let occ := py_sorted (map (coord_add pos) (cubes b)) in
    if existsb (tuple_eqb occ) seen then Ok (found, seen)
    else
      let seen := seen ++ [occ] in
      if only_adjacent then
        let? t := touches self pos (cubes b) in
        if negb t then Ok (found, seen) else Ok (found ++ [(pos, rot)], seen)
      else Ok (found ++ [(pos, rot)], seen)
  else Ok (found, seen).

(** [App._find_placements] *)
Definition find_placements (app_bricks : list (string * Brick)) (bid : string)
  (only_adjacent : bool) (self : CubeGrid) : result (list (Coord * Coord)) :=
  match dict_get String.eqb bid app_bricks with
  | None => Ok []
  | Some b0 =>
      let n := py_range (size self) in
      let? (found, _) :=
        rfold (py_range 4) (fun rx acc =>
          rfold (py_range 4) (fun ry acc =>
            rfold (py_range 4) (fun rz acc =>
              let? r := rotated b0 rx ry rz in
              let? b := normalized r in
              rfold n (fun x acc =>
                rfold n (fun y acc =>
                  rfold n (fun z acc =>
                    find_step self only_adjacent b (rx, ry, rz) (x, y, z) acc)
                  acc) acc) acc)
            acc) acc) ([], []) in
      Ok found
  end.

(** The orientation of an entry's rotation, and the cells the entry
    occupies. *)
Definition oriented_at (b0 : Brick) (rot : Coord) : result Brick :=
  oriented b0 (cx rot) (cy rot) (cz rot).

Definition placement_cells (b0 : Brick) (p : Coord * Coord) : list Coord :=
  match oriented_at b0 (snd p) with
  | Ok b => cells b (fst p)
  | Raise _ => []
  end.

(** Some cell of [cs] has a face neighbour in range that is occupied. *)
Definition touching (s : CubeGrid) (cs : list Coord) : Prop :=
  exists c d,
    In c cs /\ In d neighbour_offsets
    /\ in_bounds (size s) (coord_add c d) = true
    /\ grid_get (grid s) (coord_add c d) <> Ok 0.

(** What holds of [found] and [seen] between two rounds of the loops of
    [_find_placements]. *)
Definition find_inv (s : CubeGrid) (b0 : Brick) (only_adjacent : bool)
  (acc : list (Coord * Coord) * list (list Coord)) : Prop :=
  (forall p, In p (fst acc) ->
     in_bounds 4 (snd p) = true /\ in_bounds (size s) (fst p) = true
     /\ exists b, oriented_at b0 (snd p) = Ok b
                  /\ can_place s b (fst p) = Ok true
                  /\ (only_adjacent = true -> touching s (cells b (fst p))))
  /\ (forall p, In p (fst acc) -> In (py_sorted (placement_cells b0 p)) (snd acc))
  /\ List.NoDup (map (fun p => py_sorted (placement_cells b0 p)) (fst acc))
  /\ (forall o, In o (snd acc) -> (only_adjacent = true -> touching s o) ->
        exists p, In p (fst acc) /\ py_sorted (placement_cells b0 p) = o).

(** What [App._update_indicator] writes on the label: no 'T' defined,
    'Complete !!!', or the number of empty cells and of valid placements
    followed by YES or NO. *)
Inductive Indicator : Type :=
| NoTDefined
| Complete
| TYes (num : Z) (valids : nat)
| TNo (num : Z) (valids : nat).

(** [App._update_indicator] *)
Definition update_indicator (app_bricks : list (string * Brick)) (self : CubeGrid)
  : result Indicator :=
  match dict_get String.eqb "T" app_bricks with
  | None => Ok NoTDefined
  | Some t =>
      let? num := num_left self in
      if num =? 0 then Ok Complete
      else
        let? valids := validate_placements self t in
        let? blocked := can_not_place_somewhere self t in
        let possible := negb blocked in
        if possible then Ok (TYes num (length valids))
        else Ok (TNo num (length valids))
  end.

(** [sorted(self.grid.placed.items())]: the entries in the order of their
    ids.  The keys of a dict are distinct, so the order is decided by the
    ids alone. *)
Fixpoint insert_by_id (kv : Z * (Z * Brick * Coord))
  (l : list (Z * (Z * Brick * Coord))) : list (Z * (Z * Brick * Coord)) :=
  match l with
  | [] => [kv]
  | kv' :: l' => if fst kv <=? fst kv' then kv :: l else kv' :: insert_by_id kv l'
  end.

(** [App._refresh_places_list]: the lines of the list box, one per entry,
    [f"{pid}: {brick.name} at {pos}"], kept as the three values. *)
Definition refresh_places_list (self : CubeGrid) : list (Z * string * Coord) :=
  map (fun kv : Z * (Z * Brick * Coord) => (fst kv, name (snd kv).1.2, (snd kv).2))
    (fold_right insert_by_id [] (placed self)).

(** [(self.grid.grid != 0).any()] *)
Definition np_any_nonzero (g : ndarray) : bool :=
  existsb (existsb (existsb (fun v : Z => negb (v =? 0)))) g.

(** [App._draw], as far as it reads the grid: when some cell of the array
    is occupied the cells of range(size) cubed are read, and the occupied
    ones are coloured by their id.  The result is the list of coloured
    cells; the calls into the plotting library are left out. *)
Definition draw (self : CubeGrid) : result (list (Coord * Z)) :=
  if np_any_nonzero (grid self) then
    let r := py_range (size self) in
    rfold r (fun x acc =>
      rfold r (fun y acc =>
        rfold r (fun z acc =>
          let? pid := grid_get (grid self) (x, y, z) in
          Ok (if negb (pid =? 0) then acc ++ [((x, y, z), pid)] else acc))
        acc) acc) []
  else Ok [].

(** The three ways [App.on_place] ends once its inputs are parsed: the
    warning 'Cannot place', a placement, or the error box that shows the
    exception raised inside the handler's [try]. *)
Inductive PlaceOutcome : Type :=
| CannotPlace
| Placed (pid : Z)
| ErrorShown (e : exn).

(** [App.on_place], from the parsed inputs on.  The [try] holds the call of
    [place] and the three updates of the window after it; whatever one of
    them raises is shown in the error box. *)
Definition on_place (app_bricks : list (string * Brick)) (bid : string)
  (pos rot : Coord) : M PlaceOutcome :=
  let* b0 := lift (fun _ => dict_getitem String.eqb bid app_bricks) in
  let* b := lift (fun _ => oriented b0 (cx rot) (cy rot) (cz rot)) in
  let* fits := lift (fun self => can_place self b pos) in
  if negb fits then ret CannotPlace
  else
    fun self =>
      match (let* pid := place b pos in
             let* _ := gets refresh_places_list in
             let* _ := lift draw in
             let* _ := lift (update_indicator app_bricks) in
             ret pid) self with
      | (Ok pid, self') => (Ok (Placed pid), self')
      | (Raise e, self') => (Ok (ErrorShown e), self')
      end.

(** The brick the loader builds from a record: [Brick(cubes, name=name)]
    with [name = item.get('name', '')]. *)
Definition item_brick (it : Item) : Brick :=
  let nm := default "" (item_name it) in
  {| cubes := item_cubes it; name := if String.eqb nm "" then "brick" else nm |}.

(** The cells a record covers. *)
Definition item_cells (it : Item) : list Coord := cells (item_brick it) (item_pos it).

(** The value of a cell after the loader has replayed the records [items]
    over a cell that held [base]: the id of the last record covering it. *)
Definition painted_items (items : list Item) (base : result Z) (c : Coord) : result Z :=
  fold_left
    (fun acc it => if coord_mem c (item_cells it) then Ok (item_pid it) else acc)
    items base.

(** The registry after the loader has replayed the records over [d]. *)
Definition loaded_registry (items : list Item) (d : list (Z * (Z * Brick * Coord)))
  : list (Z * (Z * Brick * Coord)) :=
  fold_left
    (fun d it => dict_set Z.eqb (item_pid it) (item_pid it, item_brick it, item_pos it) d)
    items d.

(** ** Proofs: rotation *)

Lemma for_range_times (k : Z) (step : Coord -> Coord) (p : Coord) :
  for_range k (fun _ a => step a) p = RotationSpec.times (Z.to_nat k) step p.
Proof.
  unfold for_range, py_range.
  generalize 0%nat as start. revert p.
  induction (Z.to_nat k) as [|n IH]; intros p start; simpl; [reflexivity|].
  apply IH.
Qed.

Lemma step_count_range (r : Z) : 0 <= r mod 4 < 4.
Proof. apply Z.mod_pos_bound. lia. Qed.

(** C8: for every integer point and all integers rx, ry, rz (negative ones
    included), [rotate_point] is rx mod 4 X-steps, then ry mod 4 Y-steps,
    then rz mod 4 Z-steps, in exact integer arithmetic; each count lies in
    0..3. *)
Theorem rotate_point_is_steps (p : Coord) (rx ry rz : Z) :
  rotate_point p rx ry rz = RotationSpec.rotate p rx ry rz
  /\ (Z.to_nat (rx mod 4) < 4)%nat
  /\ (Z.to_nat (ry mod 4) < 4)%nat
  /\ (Z.to_nat (rz mod 4) < 4)%nat.
Proof.
  split.
  - unfold rotate_point, RotationSpec.rotate.
    rewrite !for_range_times.
    assert (Hx : forall q, rot_x q = RotationSpec.X_step q) by (intros [[? ?] ?]; reflexivity).
    assert (Hy : forall q, rot_y q = RotationSpec.Y_step q) by (intros [[? ?] ?]; reflexivity).
    assert (Hz : forall q, rot_z q = RotationSpec.Z_step q) by (intros [[? ?] ?]; reflexivity).
    assert (Hext : forall k f g q, (forall a, f a = g a) ->
              RotationSpec.times k f q = RotationSpec.times k g q).
    { induction k as [|k IH]; intros f g q Hfg; simpl; [reflexivity|].
      rewrite Hfg. apply IH, Hfg. }
    rewrite (Hext _ _ _ _ Hx), (Hext _ _ _ _ Hy), (Hext _ _ _ _ Hz).
    reflexivity.
  - pose proof (step_count_range rx). pose proof (step_count_range ry).
    pose proof (step_count_range rz). lia.
Qed.

Example rotate_point_negative :
  rotate_point (1, 2, 3) (-1) 0 0 = (1, 3, -2)
  /\ rotate_point (1, 2, 3) 3 0 0 = (1, 3, -2)
  /\ rotate_point (1, 2, 3) 1 1 0 = (2, -3, -1)
  /\ rotate_point (1, 2, 3) 0 1 1 = (-2, 3, -1).
Proof. repeat split; reflexivity. Qed.

(** ** Proofs: the occupancy array *)

Lemma in_bounds_spec (n : Z) (x y z : Z) :
  in_bounds n (x, y, z) = true <-> (0 <= x < n /\ 0 <= y < n /\ 0 <= z < n).
Proof. unfold in_bounds. rewrite !andb_true_iff. lia. Qed.

Lemma coord_eqb_spec (a b : Coord) : coord_eqb a b = true <-> a = b.
Proof.
  destruct a as [[ax ay] az], b as [[bx by_] bz]. unfold coord_eqb.
  rewrite !andb_true_iff, !Z.eqb_eq. split.
  - intros [[-> ->] ->]. reflexivity.
  - intros H. injection H as -> -> ->. auto.
Qed.

Lemma coord_eqb_refl (a : Coord) : coord_eqb a a = true.
Proof. apply coord_eqb_spec. reflexivity. Qed.

Lemma coord_eqb_neq (a b : Coord) : a <> b -> coord_eqb a b = false.
Proof.
  intros H. destruct (coord_eqb a b) eqn:E; [|reflexivity].
  apply coord_eqb_spec in E. contradiction.
Qed.

Lemma np_index_inb (len : nat) (i : Z) :
  0 <= i < Z.of_nat len -> np_index len i = Ok (Z.to_nat i).
Proof.
  intros H. unfold np_index.
  replace ((0 <=? i) && (i <? Z.of_nat len)) with true; [reflexivity|].
  symmetry. apply andb_true_iff. lia.
Qed.

Lemma np_getitem_inb {A : Type} (l : list A) (i : Z) :
  0 <= i < Z.of_nat (length l) ->
  exists a, l !! Z.to_nat i = Some a /\ np_getitem l i = Ok a.
Proof.
  intros H. unfold np_getitem. rewrite np_index_inb by exact H. simpl.
  destruct (lookup_lt_is_Some_2 l (Z.to_nat i)) as [a Ha]; [lia|].
  exists a. rewrite Ha. auto.
Qed.

Lemma np_setitem_inb {A : Type} (l : list A) (i : Z) (a : A) :
  0 <= i < Z.of_nat (length l) ->
  np_setitem l i a = Ok (<[Z.to_nat i := a]> l).
Proof.
  intros H. unfold np_setitem. rewrite np_index_inb by exact H. reflexivity.
Qed.

Lemma shape3_plane (n : nat) (g : ndarray) (i : nat) (plane : list (list Z)) :
  shape3 n g -> g !! i = Some plane ->
  length plane = n /\ Forall (fun row : list Z => length row = n) plane.
Proof.
  intros [_ HF] Hi. rewrite Forall_forall in HF. apply HF.
  eapply list_elem_of_lookup_2. exact Hi.
Qed.

Lemma shape3_row (n : nat) (g : ndarray) (i j : nat) plane (row : list Z) :
  shape3 n g -> g !! i = Some plane -> plane !! j = Some row -> length row = n.
Proof.
  intros Hs Hi Hj. destruct (shape3_plane _ _ _ _ Hs Hi) as [_ HF].
  rewrite Forall_forall in HF. apply HF.
  eapply list_elem_of_lookup_2. exact Hj.
Qed.

(** Reading an in-range cell of a well-formed array: the three lookups. *)
Lemma grid_get_inb (n : nat) (g : ndarray) (x y z : Z) :
  shape3 n g -> in_bounds (Z.of_nat n) (x, y, z) = true ->
  exists plane row v,
    g !! Z.to_nat x = Some plane /\ plane !! Z.to_nat y = Some row
    /\ row !! Z.to_nat z = Some v /\ grid_get g (x, y, z) = Ok v.
Proof.
  intros Hs Hb. apply in_bounds_spec in Hb. destruct Hb as (Hx & Hy & Hz).
  pose proof Hs as [Hlen _].
  destruct (np_getitem_inb g x) as (plane & Hp & Hgp); [lia|].
  destruct (shape3_plane _ _ _ _ Hs Hp) as [Hlp _].
  destruct (np_getitem_inb plane y) as (row & Hr & Hgr); [lia|].
  pose proof (shape3_row _ _ _ _ _ _ Hs Hp Hr) as Hlr.
  destruct (np_getitem_inb row z) as (v & Hv & Hgv); [lia|].
  exists plane, row, v. repeat split; try assumption.
  unfold grid_get. rewrite Hgp. simpl. rewrite Hgr. simpl. exact Hgv.
Qed.

Lemma grid_get_total (n : nat) (g : ndarray) (c : Coord) :
  shape3 n g -> in_bounds (Z.of_nat n) c = true -> exists v, grid_get g c = Ok v.
Proof.
  destruct c as [[x y] z]. intros Hs Hb.
  destruct (grid_get_inb _ _ _ _ _ Hs Hb) as (? & ? & v & _ & _ & _ & H).
  eauto.
Qed.

Lemma Forall_insert_keep {A : Type} (P : A -> Prop) (l : list A) (i : nat) (a : A) :
  Forall P l -> P a -> Forall P (<[i := a]> l).
Proof.
  intros Hl Ha. revert i. induction Hl as [|b l Hb Hl IH]; intros i; simpl.
  - constructor.
  - destruct i; simpl; constructor; auto.
Qed.

(** Writing an in-range cell: the write succeeds, keeps the shape, and
    changes that cell only. *)
Lemma grid_set_inb (n : nat) (g : ndarray) (c : Coord) (v : Z) :
  shape3 n g -> in_bounds (Z.of_nat n) c = true ->
  exists g', grid_set g c v = Ok g' /\ shape3 n g'
    /\ forall c', in_bounds (Z.of_nat n) c' = true ->
         grid_get g' c' = if coord_eqb c' c then Ok v else grid_get g c'.
Proof.
  destruct c as [[x y] z]. intros Hs Hb.
  destruct (grid_get_inb _ _ _ _ _ Hs Hb) as (plane & row & v0 & Hp & Hr & Hv & _).
  pose proof Hb as Hb'. apply in_bounds_spec in Hb'. destruct Hb' as (Hx & Hy & Hz).
  pose proof Hs as [Hlen HF].
  destruct (shape3_plane _ _ _ _ Hs Hp) as [Hlp HFp].
  pose proof (shape3_row _ _ _ _ _ _ Hs Hp Hr) as Hlr.
  set (row' := <[Z.to_nat z := v]> row).
  set (plane' := <[Z.to_nat y := row']> plane).
  set (g' := <[Z.to_nat x := plane']> g).
  assert (Hset : grid_set g (x, y, z) v = Ok g').
  { unfold grid_set.
    destruct (np_getitem_inb g x) as (p1 & Hp1 & ->); [lia|]. simpl.
    rewrite Hp in Hp1. injection Hp1 as <-.
    destruct (np_getitem_inb plane y) as (r1 & Hr1 & ->); [lia|]. simpl.
    rewrite Hr in Hr1. injection Hr1 as <-.
    rewrite np_setitem_inb by lia. simpl.
    rewrite np_setitem_inb by lia. simpl.
    rewrite np_setitem_inb by lia. reflexivity. }
  assert (Hs' : shape3 n g').
  { split.
    - unfold g'. rewrite length_insert. exact Hlen.
    - unfold g'. apply Forall_insert_keep; [exact HF|]. split.
      + unfold plane'. rewrite length_insert. exact Hlp.
      + unfold plane'. apply Forall_insert_keep; [exact HFp|].
        unfold row'. rewrite length_insert. exact Hlr. }
  exists g'. split; [exact Hset|]. split; [exact Hs'|].
  intros [[x' y'] z'] Hb'.
  destruct (grid_get_inb _ _ _ _ _ Hs' Hb') as (p2 & r2 & v2 & Hp2 & Hr2 & Hv2 & ->).
  destruct (grid_get_inb _ _ _ _ _ Hs Hb') as (p3 & r3 & v3 & Hp3 & Hr3 & Hv3 & ->).
  apply in_bounds_spec in Hb'. destruct Hb' as (Hx' & Hy' & Hz').
  unfold g' in Hp2.
  destruct (decide (x' = x)) as [->|Hnx].
  - rewrite list_lookup_insert_eq in Hp2 by lia. injection Hp2 as <-.
    rewrite Hp in Hp3. injection Hp3 as <-.
    unfold plane' in Hr2.
    destruct (decide (y' = y)) as [->|Hny].
    + rewrite list_lookup_insert_eq in Hr2 by lia. injection Hr2 as <-.
      rewrite Hr in Hr3. injection Hr3 as <-.
      unfold row' in Hv2.
      destruct (decide (z' = z)) as [->|Hnz].
      * rewrite list_lookup_insert_eq in Hv2 by lia. injection Hv2 as <-.
        rewrite coord_eqb_refl. reflexivity.
      * rewrite list_lookup_insert_ne in Hv2 by lia.
        rewrite coord_eqb_neq by congruence. congruence.
    + rewrite list_lookup_insert_ne in Hr2 by lia.
      rewrite coord_eqb_neq by congruence. congruence.
  - rewrite list_lookup_insert_ne in Hp2 by lia.
    rewrite coord_eqb_neq by congruence. congruence.
Qed.

(** Two well-formed arrays with the same cells are the same array. *)
Lemma grid_ext (n : nat) (g g' : ndarray) :
  shape3 n g -> shape3 n g' ->
  (forall c, in_bounds (Z.of_nat n) c = true -> grid_get g c = grid_get g' c) ->
  g = g'.
Proof.
  intros Hs Hs' Hc.
  apply list_eq_same_length with (n := n); try apply Hs; try apply Hs'.
  intros i p p' Hi Hp Hp'.
  destruct (shape3_plane _ _ _ _ Hs Hp) as [Hlp _].
  destruct (shape3_plane _ _ _ _ Hs' Hp') as [Hlp' _].
  apply list_eq_same_length with (n := n); try assumption.
  intros j r r' Hj Hr Hr'.
  pose proof (shape3_row _ _ _ _ _ _ Hs Hp Hr) as Hlr.
  pose proof (shape3_row _ _ _ _ _ _ Hs' Hp' Hr') as Hlr'.
  apply list_eq_same_length with (n := n); try assumption.
  intros k v v' Hk Hv Hv'.
  assert (Hb : in_bounds (Z.of_nat n) (Z.of_nat i, Z.of_nat j, Z.of_nat k) = true)
    by (apply in_bounds_spec; lia).
  specialize (Hc _ Hb).
  destruct (grid_get_inb _ _ _ _ _ Hs Hb) as (p1 & r1 & v1 & Hp1 & Hr1 & Hv1 & E1).
  destruct (grid_get_inb _ _ _ _ _ Hs' Hb) as (p2 & r2 & v2 & Hp2 & Hr2 & Hv2 & E2).
  rewrite !Nat2Z.id in *.
  congruence.
Qed.

Lemma shape3_zeros (k : nat) : shape3 k (replicate k (replicate k (replicate k 0))).
Proof.
  split; [apply length_replicate|].
  apply Forall_replicate. split; [apply length_replicate|].
  apply Forall_replicate. apply length_replicate.
Qed.

Lemma grid_get_zeros (k : nat) (c : Coord) :
  in_bounds (Z.of_nat k) c = true ->
  grid_get (replicate k (replicate k (replicate k 0))) c = Ok 0.
Proof.
  destruct c as [[x y] z]. intros Hb.
  destruct (grid_get_inb _ _ _ _ _ (shape3_zeros k) Hb)
    as (p & r & v & Hp & Hr & Hv & ->).
  apply lookup_replicate in Hp as [-> _].
  apply lookup_replicate in Hr as [-> _].
  apply lookup_replicate in Hv as [-> _].
  reflexivity.
Qed.

Lemma np_zeros_ok (n : Z) :
  0 <= n < 1048576 ->
  np_zeros n = Ok (replicate (Z.to_nat n)
                     (replicate (Z.to_nat n) (replicate (Z.to_nat n) 0))).
Proof.
  intros H. unfold np_zeros.
  destruct ((n <? 0) || (1048576 <=? n)) eqn:E; [|reflexivity].
  apply orb_true_iff in E. lia.
Qed.

Lemma np_zeros_inv (n : Z) (g : ndarray) :
  np_zeros n = Ok g ->
  0 <= n /\ g = replicate (Z.to_nat n)
                  (replicate (Z.to_nat n) (replicate (Z.to_nat n) 0)).
Proof.
  unfold np_zeros. destruct ((n <? 0) || (1048576 <=? n)) eqn:E; [discriminate|].
  apply orb_false_iff in E.
  intros H. injection H as <-. split; [lia|reflexivity].
Qed.

Lemma np_zeros_bound (n : Z) (g : ndarray) : np_zeros n = Ok g -> 0 <= n < 1048576.
Proof.
  unfold np_zeros. destruct ((n <? 0) || (1048576 <=? n)) eqn:E; [discriminate|].
  apply orb_false_iff in E. lia.
Qed.

Lemma np_zeros_raises (n : Z) :
  n < 0 \/ 1048576 <= n -> np_zeros n = Raise ValueError.
Proof.
  intros H. unfold np_zeros.
  destruct ((n <? 0) || (1048576 <=? n)) eqn:E; [reflexivity|].
  apply orb_false_iff in E. lia.
Qed.

(** [fill(0)] gives the array of zeros of the same shape. *)
Lemma np_fill0_zeros (k : nat) (g : ndarray) :
  shape3 k g -> np_fill0 g = replicate k (replicate k (replicate k 0)).
Proof.
  intros Hs.
  assert (Hs' : shape3 k (np_fill0 g)).
  { destruct Hs as [Hl HF]. split.
    - unfold np_fill0. rewrite length_fmap. exact Hl.
    - unfold np_fill0. apply Forall_fmap. eapply Forall_impl; [exact HF|].
      intros p [Hlp HFp]. simpl. split.
      + rewrite length_fmap. exact Hlp.
      + apply Forall_fmap. eapply Forall_impl; [exact HFp|].
        intros r Hr. simpl. rewrite length_fmap. exact Hr. }
  apply (grid_ext k); [exact Hs'|apply shape3_zeros|].
  intros [[x y] z] Hb. rewrite grid_get_zeros by exact Hb.
  destruct (grid_get_inb _ _ _ _ _ Hs' Hb) as (p & r & v & Hp & Hr & Hv & ->).
  unfold np_fill0 in Hp.
  rewrite list_lookup_fmap in Hp.
  destruct (g !! Z.to_nat x) as [p0|]; [|discriminate]. simpl in Hp.
  injection Hp as <-. rewrite list_lookup_fmap in Hr.
  destruct (p0 !! Z.to_nat y) as [r0|]; [|discriminate]. simpl in Hr.
  injection Hr as <-. rewrite list_lookup_fmap in Hv.
  destruct (r0 !! Z.to_nat z) as [v0|]; [|discriminate]. simpl in Hv.
  injection Hv as <-. reflexivity.
Qed.

(** ** Proofs: reading and writing the grid of a state *)

Lemma in_bounds_size (s : CubeGrid) (c : Coord) :
  grid_ok s -> in_bounds (Z.of_nat (Z.to_nat (size s))) c = in_bounds (size s) c.
Proof. intros [H _]. rewrite Z2Nat.id by exact H. reflexivity. Qed.

Lemma cell_total (s : CubeGrid) (c : Coord) :
  grid_ok s -> in_bounds (size s) c = true -> exists v, grid_get (grid s) c = Ok v.
Proof.
  intros Hok Hb. apply (grid_get_total (Z.to_nat (size s))); [apply Hok|].
  rewrite in_bounds_size by exact Hok. exact Hb.
Qed.

Lemma set_grid_same (s : CubeGrid) : set_grid (grid s) s = s.
Proof. destruct s. reflexivity. Qed.

Lemma coord_mem_In (c : Coord) (l : list Coord) : coord_mem c l = true <-> In c l.
Proof.
  unfold coord_mem. rewrite existsb_exists. split.
  - intros (c' & Hin & E). apply coord_eqb_spec in E. subst. exact Hin.
  - intros Hin. exists c. split; [exact Hin|apply coord_eqb_refl].
Qed.

Lemma coord_mem_false (c : Coord) (l : list Coord) :
  coord_mem c l = false <-> ~ In c l.
Proof.
  rewrite <- coord_mem_In. destruct (coord_mem c l); split; congruence.
Qed.

(** The write loop over the cubes of a brick whose cells all lie in range:
    it ends normally, touches the grid only, and sets exactly the brick's
    cells. *)
Lemma write_loop_ok (pos : Coord) (v : Z) (cs : list Coord) (s : CubeGrid) :
  grid_ok s ->
  (forall c, In c cs -> in_bounds (size s) (coord_add pos c) = true) ->
  exists g',
    for_each cs (fun c => grid_setitem (coord_add pos c) v) s = (Ok tt, set_grid g' s)
    /\ shape3 (Z.to_nat (size s)) g'
    /\ forall c', in_bounds (size s) c' = true ->
         grid_get g' c' =
           if coord_mem c' (map (coord_add pos) cs) then Ok v
           else grid_get (grid s) c'.
Proof.
  revert s. induction cs as [|c cs IH]; intros s Hok Hin.
  - exists (grid s). simpl. unfold ret. rewrite set_grid_same.
    split; [reflexivity|]. split; [apply Hok|]. intros; reflexivity.
  - assert (Hc : in_bounds (size s) (coord_add pos c) = true)
      by (apply Hin; left; reflexivity).
    destruct (grid_set_inb (Z.to_nat (size s)) (grid s) (coord_add pos c) v)
      as (g1 & Hset & Hs1 & Hget1).
    { apply Hok. } { rewrite in_bounds_size by exact Hok. exact Hc. }
    assert (Hok1 : grid_ok (set_grid g1 s)) by (split; [apply Hok|exact Hs1]).
    destruct (IH (set_grid g1 s) Hok1) as (g' & Hrun & Hs' & Hget').
    { intros c0 Hc0. apply Hin. right. exact Hc0. }
    exists g'. split; [|split; [exact Hs'|]].
    + simpl. unfold bind at 1. unfold grid_setitem at 1. rewrite Hset.
      rewrite Hrun. reflexivity.
    + intros c' Hb'. simpl in Hget'. rewrite (Hget' c' Hb'). simpl.
      fold (coord_mem c' (map (coord_add pos) cs)).
      destruct (coord_mem c' (map (coord_add pos) cs)) eqn:Em.
      * rewrite orb_true_r. reflexivity.
      * rewrite orb_false_r. apply Hget1.
        rewrite in_bounds_size by exact Hok. exact Hb'.
Qed.

Lemma write_cubes_ok (b : Brick) (pos : Coord) (v : Z) (s : CubeGrid) :
  grid_ok s ->
  (forall c, In c (cubes b) -> in_bounds (size s) (coord_add pos c) = true) ->
  exists g',
    write_cubes b pos v s = (Ok tt, set_grid g' s)
    /\ shape3 (Z.to_nat (size s)) g'
    /\ forall c', in_bounds (size s) c' = true ->
         grid_get g' c' =
           if coord_mem c' (cells b pos) then Ok v else grid_get (grid s) c'.
Proof. intros Hok Hin. apply write_loop_ok; assumption. Qed.

(** ** Proofs: the placement predicates *)

Lemma can_place_cubes_spec (s : CubeGrid) (pos : Coord) (cs : list Coord) :
  grid_ok s ->
  exists r, can_place_cubes s pos cs = Ok r
    /\ (r = true <->
        forall c, In c cs ->
          in_bounds (size s) (coord_add pos c) = true
          /\ grid_get (grid s) (coord_add pos c) = Ok 0).
Proof.
  intros Hok. induction cs as [|c cs (r & Hr & Hiff)].
  - exists true. split; [reflexivity|]. split; [intros _ c []|reflexivity].
  - simpl. destruct (in_bounds (size s) (coord_add pos c)) eqn:Eb; simpl.
    + destruct (cell_total s _ Hok Eb) as (v & Hv). rewrite Hv. simpl.
      destruct (v =? 0) eqn:Ev; simpl.
      * apply Z.eqb_eq in Ev. subst v. exists r. split; [exact Hr|].
        rewrite Hiff. split.
        -- intros H c0 [<-|Hc0]; [split; assumption|apply H, Hc0].
        -- intros H c0 Hc0. apply H. right. exact Hc0.
      * exists false. split; [reflexivity|]. split; [discriminate|].
        intros H. destruct (H c (or_introl eq_refl)) as [_ H0].
        rewrite Hv in H0. injection H0 as ->. discriminate.
    + exists false. split; [reflexivity|]. split; [discriminate|].
      intros H. destruct (H c (or_introl eq_refl)) as [H0 _]. congruence.
Qed.

Lemma can_move_cubes_spec (s : CubeGrid) (pid : Z) (pos : Coord) (cs : list Coord) :
  grid_ok s ->
  exists r, can_move_cubes s pid pos cs = Ok r
    /\ (r = true <->
        forall c, In c cs ->
          in_bounds (size s) (coord_add pos c) = true
          /\ (grid_get (grid s) (coord_add pos c) = Ok 0
              \/ grid_get (grid s) (coord_add pos c) = Ok pid)).
Proof.
  intros Hok. induction cs as [|c cs (r & Hr & Hiff)].
  - exists true. split; [reflexivity|]. split; [intros _ c []|reflexivity].
  - simpl. destruct (in_bounds (size s) (coord_add pos c)) eqn:Eb; simpl.
    + destruct (cell_total s _ Hok Eb) as (v & Hv). rewrite Hv. simpl.
      destruct (negb (v =? 0) && negb (v =? pid)) eqn:Ev.
      * exists false. split; [reflexivity|]. split; [discriminate|].
        intros H. destruct (H c (or_introl eq_refl)) as [_ [H0|H0]];
          rewrite Hv in H0; injection H0 as ->.
        -- rewrite Z.eqb_refl in Ev. discriminate.
        -- rewrite Z.eqb_refl, andb_false_r in Ev. discriminate.
      * exists r. split; [exact Hr|]. rewrite Hiff.
        assert (Hv' : v = 0 \/ v = pid).
        { apply andb_false_iff in Ev as [Ev|Ev]; apply negb_false_iff, Z.eqb_eq in Ev; auto. }
        split.
        -- intros H c0 [<-|Hc0]; [|apply H, Hc0].
           split; [exact Eb|]. rewrite Hv. destruct Hv' as [->| ->]; auto.
        -- intros H c0 Hc0. apply H. right. exact Hc0.
    + exists false. split; [reflexivity|]. split; [discriminate|].
      intros H. destruct (H c (or_introl eq_refl)) as [H0 _]. congruence.
Qed.

(** ** Proofs: dictionaries *)

Section PyDictFacts.
Context {K V : Type} (eqb : K -> K -> bool).
Hypothesis eqb_eq : forall a b, eqb a b = true <-> a = b.

Lemma eqb_same (a : K) : eqb a a = true.
Proof. apply eqb_eq. reflexivity. Qed.

Lemma dict_get_set (k k' : K) (v : V) (d : list (K * V)) :
  dict_get eqb k' (dict_set eqb k v d) =
    if eqb k' k then Some v else dict_get eqb k' d.
Proof.
  induction d as [|[k0 v0] d IH]; simpl.
  - reflexivity.
  - destruct (eqb k k0) eqn:E; simpl.
    + apply eqb_eq in E. subst k0.
      destruct (eqb k' k); reflexivity.
    + rewrite IH. destruct (eqb k' k0) eqn:E0; [|reflexivity].
      apply eqb_eq in E0. subst k0.
      destruct (eqb k' k) eqn:E1; [|reflexivity].
      apply eqb_eq in E1. subst k'. rewrite eqb_same in E. discriminate.
Qed.

Lemma dict_set_fresh (k : K) (v : V) (d : list (K * V)) :
  dict_get eqb k d = None -> dict_set eqb k v d = d ++ [(k, v)].
Proof.
  induction d as [|[k0 v0] d IH]; simpl; [reflexivity|].
  destruct (eqb k k0); [discriminate|]. intros H. rewrite IH by exact H.
  reflexivity.
Qed.

Lemma dict_keys_set (k : K) (v : V) (d : list (K * V)) :
  dict_mem eqb k d = true -> dict_keys (dict_set eqb k v d) = dict_keys d.
Proof.
  unfold dict_mem, dict_keys.
  induction d as [|[k0 v0] d IH]; simpl; [discriminate|].
  destruct (eqb k k0); simpl; [reflexivity|].
  intros H. rewrite IH by exact H. reflexivity.
Qed.

Lemma dict_get_In (k : K) (v : V) (d : list (K * V)) :
  dict_get eqb k d = Some v -> In (k, v) d.
Proof.
  induction d as [|[k0 v0] d IH]; simpl; [discriminate|].
  destruct (eqb k k0) eqn:E.
  - apply eqb_eq in E. subst k0. intros H. injection H as ->. left. reflexivity.
  - intros H. right. apply IH, H.
Qed.

Lemma dict_mem_keys (k : K) (d : list (K * V)) :
  dict_mem eqb k d = true <-> In k (dict_keys d).
Proof.
  unfold dict_mem, dict_keys.
  induction d as [|[k0 v0] d IH]; simpl; [split; [discriminate|intros []]|].
  destruct (eqb k k0) eqn:E.
  - apply eqb_eq in E. subst k0. split; auto.
  - rewrite IH. split; [auto|]. intros [H|H]; [|exact H].
    subst k0. rewrite eqb_same in E. discriminate.
Qed.
End PyDictFacts.

Lemma Z_eqb_iff (a b : Z) : (a =? b) = true <-> a = b.
Proof. apply Z.eqb_eq. Qed.

Lemma string_eqb_iff (a b : string) : String.eqb a b = true <-> a = b.
Proof. apply String.eqb_eq. Qed.

Lemma unique_keys_set {V : Type} (k : Z) (v : V) (d : list (Z * V)) :
  unique_keys d -> unique_keys (dict_set Z.eqb k v d).
Proof.
  induction d as [|[k0 v0] d IH]; simpl.
  - auto.
  - intros [Hk Hd]. destruct (k =? k0) eqn:E; simpl.
    + auto.
    + split; [|apply IH, Hd].
      rewrite (dict_get_set Z.eqb Z_eqb_iff). rewrite Z.eqb_sym, E. exact Hk.
Qed.

Lemma dict_get_pop_other {V : Type} (k k' : Z) (d : list (Z * V)) :
  k' <> k -> dict_get Z.eqb k' (dict_pop Z.eqb k d) = dict_get Z.eqb k' d.
Proof.
  intros Hne. induction d as [|[k0 v0] d IH]; simpl; [reflexivity|].
  destruct (k =? k0) eqn:E; simpl.
  - apply Z.eqb_eq in E. subst k0.
    destruct (k' =? k) eqn:E'; [apply Z.eqb_eq in E'; contradiction|reflexivity].
  - rewrite IH. reflexivity.
Qed.

Lemma dict_get_pop_same {V : Type} (k : Z) (d : list (Z * V)) :
  unique_keys d -> dict_get Z.eqb k (dict_pop Z.eqb k d) = None.
Proof.
  induction d as [|[k0 v0] d IH]; simpl; [reflexivity|].
  intros [Hk Hd]. destruct (k =? k0) eqn:E; simpl.
  - apply Z.eqb_eq in E. subst k0. exact Hk.
  - rewrite E. apply IH, Hd.
Qed.

Lemma unique_keys_pop {V : Type} (k : Z) (d : list (Z * V)) :
  unique_keys d -> unique_keys (dict_pop Z.eqb k d).
Proof.
  induction d as [|[k0 v0] d IH]; simpl; [auto|].
  intros [Hk Hd]. destruct (k =? k0) eqn:E; simpl; [exact Hd|].
  split; [|apply IH, Hd].
  rewrite dict_get_pop_other; [exact Hk|].
  apply Z.eqb_neq in E. congruence.
Qed.

(** ** Proofs: what each mutator does *)

Lemma place_rejects (s : CubeGrid) (b : Brick) (pos : Coord) :
  can_place s b pos = Ok false -> place b pos s = (Raise ValueError, s).
Proof.
  intros H. unfold place, bind, lift. rewrite H. reflexivity.
Qed.

Lemma place_accepts (s : CubeGrid) (b : Brick) (pos : Coord) :
  grid_ok s -> can_place s b pos = Ok true ->
  exists g',
    place b pos s = (Ok (next_id s), placed_state s g' b pos)
    /\ shape3 (Z.to_nat (size s)) g'
    /\ forall c, in_bounds (size s) c = true ->
         grid_get g' c =
           if coord_mem c (cells b pos) then Ok (next_id s) else grid_get (grid s) c.
Proof.
  intros Hok Hfit.
  destruct (can_place_cubes_spec s pos (cubes b) Hok) as (r & Hr & Hiff).
  unfold can_place in Hfit. rewrite Hfit in Hr. injection Hr as <-.
  destruct (write_cubes_ok b pos (next_id s) s Hok) as (g' & Hw & Hs' & Hget).
  { intros c Hc. apply Hiff; [reflexivity|exact Hc]. }
  exists g'. split; [|split; assumption].
  unfold place, bind, lift, gets, modify, ret, can_place.
  rewrite Hfit. simpl. rewrite Hw. reflexivity.
Qed.

Lemma remove_unknown (s : CubeGrid) (pid : Z) :
  dict_get Z.eqb pid (placed s) = None -> remove pid s = (Raise KeyError, s).
Proof.
  intros H. unfold remove, bind, gets, dict_mem. rewrite H. reflexivity.
Qed.

Lemma remove_known (s : CubeGrid) (pid pid' : Z) (b : Brick) (pos : Coord) :
  grid_ok s ->
  dict_get Z.eqb pid (placed s) = Some (pid', b, pos) ->
  (forall c, In c (cubes b) -> in_bounds (size s) (coord_add pos c) = true) ->
  exists g',
    remove pid s = (Ok tt, removed_state s g' pid)
    /\ shape3 (Z.to_nat (size s)) g'
    /\ forall c, in_bounds (size s) c = true ->
         grid_get g' c = if coord_mem c (cells b pos) then Ok 0 else grid_get (grid s) c.
Proof.
  intros Hok Hget Hin.
  set (s1 := set_placed (dict_pop Z.eqb pid (placed s)) s).
  destruct (write_cubes_ok b pos 0 s1) as (g' & Hw & Hs' & Hg).
  { exact Hok. } { exact Hin. }
  exists g'. split; [|split; assumption].
  unfold remove, bind, gets, lift, modify, dict_mem, dict_getitem.
  cbn beta. rewrite !Hget. cbn [negb]. cbn beta iota. rewrite !Hget.
  cbn beta iota. fold s1. rewrite Hw. reflexivity.
Qed.

Lemma move_unknown (s : CubeGrid) (pid : Z) (new_pos : Coord) :
  dict_get Z.eqb pid (placed s) = None -> move pid new_pos s = (Raise KeyError, s).
Proof.
  intros H. unfold move, bind, gets, dict_mem. rewrite H. reflexivity.
Qed.

Lemma move_rejects (s : CubeGrid) (pid : Z) (new_pos : Coord) :
  dict_mem Z.eqb pid (placed s) = true ->
  can_move s pid new_pos = Ok false ->
  move pid new_pos s = (Raise ValueError, s).
Proof.
  intros Hm H. unfold move, bind, gets, lift. rewrite Hm. simpl. rewrite H.
  reflexivity.
Qed.

Lemma move_accepts (s : CubeGrid) (pid pid' : Z) (b : Brick) (old_pos new_pos : Coord) :
  grid_ok s ->
  dict_get Z.eqb pid (placed s) = Some (pid', b, old_pos) ->
  (forall c, In c (cubes b) -> in_bounds (size s) (coord_add old_pos c) = true) ->
  can_move s pid new_pos = Ok true ->
  exists g',
    move pid new_pos s = (Ok tt, moved_state s g' pid pid' b new_pos)
    /\ shape3 (Z.to_nat (size s)) g'
    /\ forall c, in_bounds (size s) c = true ->
         grid_get g' c =
           if coord_mem c (cells b new_pos) then Ok pid'
           else if coord_mem c (cells b old_pos) then Ok 0
           else grid_get (grid s) c.
Proof.
  intros Hok Hget Hold Hmv.
  destruct (can_move_cubes_spec s pid new_pos (cubes b) Hok) as (r & Hr & Hiff).
  pose proof Hmv as Hmv'. unfold can_move in Hmv'. rewrite Hget in Hmv'.
  rewrite Hmv' in Hr. injection Hr as <-.
  destruct (write_cubes_ok b old_pos 0 s Hok Hold) as (g1 & Hw1 & Hs1 & Hg1).
  assert (Hok1 : grid_ok (set_grid g1 s)) by (split; [apply Hok|exact Hs1]).
  destruct (write_cubes_ok b new_pos pid' (set_grid g1 s) Hok1) as (g2 & Hw2 & Hs2 & Hg2).
  { intros c Hc. apply Hiff; [reflexivity|exact Hc]. }
  exists g2. split; [|split; [exact Hs2|]].
  - unfold move, bind, gets, lift, modify, dict_mem, dict_getitem.
    cbn beta. rewrite !Hget. cbn [negb]. cbn beta iota. rewrite Hmv.
    cbn [negb]. cbn beta iota. rewrite !Hget. cbn beta iota.
    rewrite Hw1, Hw2. reflexivity.
  - intros c Hc. simpl in Hg2. rewrite (Hg2 c Hc).
    destruct (coord_mem c (cells b new_pos)); [reflexivity|].
    apply Hg1, Hc.
Qed.

Lemma clear_runs (s : CubeGrid) :
  clear s = (Ok tt,
             mkCubeGrid (size s) (np_fill0 (grid s)) 1 []
               (bricks s) (valid_placements s) (valid_rotations s)).
Proof. reflexivity. Qed.

(** ** Proofs: the invariant is kept *)

Lemma In_cells (b : Brick) (pos c : Coord) :
  In c (cells b pos) <-> exists off, In off (cubes b) /\ c = coord_add pos off.
Proof.
  unfold cells. rewrite in_map_iff. split; intros (off & H1 & H2); exists off.
  - split; [exact H2|symmetry; exact H1].
  - split; [symmetry; exact H2|exact H1].
Qed.

Lemma can_place_total (s : CubeGrid) (b : Brick) (pos : Coord) :
  grid_ok s ->
  can_place s b pos = Ok false
  \/ (can_place s b pos = Ok true
      /\ forall c, In c (cubes b) ->
           in_bounds (size s) (coord_add pos c) = true
           /\ grid_get (grid s) (coord_add pos c) = Ok 0).
Proof.
  intros Hok. unfold can_place.
  destruct (can_place_cubes_spec s pos (cubes b) Hok) as ([|] & Hr & Hiff).
  - right. split; [exact Hr|]. apply Hiff. reflexivity.
  - left. exact Hr.
Qed.

Lemma can_move_total (s : CubeGrid) (pid pid' : Z) (b : Brick) (old_pos new_pos : Coord) :
  grid_ok s ->
  dict_get Z.eqb pid (placed s) = Some (pid', b, old_pos) ->
  can_move s pid new_pos = Ok false
  \/ (can_move s pid new_pos = Ok true
      /\ forall c, In c (cubes b) ->
           in_bounds (size s) (coord_add new_pos c) = true
           /\ (grid_get (grid s) (coord_add new_pos c) = Ok 0
               \/ grid_get (grid s) (coord_add new_pos c) = Ok pid)).
Proof.
  intros Hok Hget. unfold can_move. rewrite Hget.
  destruct (can_move_cubes_spec s pid new_pos (cubes b) Hok) as ([|] & Hr & Hiff).
  - right. split; [exact Hr|]. apply Hiff. reflexivity.
  - left. exact Hr.
Qed.

Lemma Inv_placed_state (s : CubeGrid) (g' : ndarray) (b : Brick) (pos : Coord) :
  Inv s -> Brick_ok b ->
  (forall c, In c (cubes b) ->
     in_bounds (size s) (coord_add pos c) = true
     /\ grid_get (grid s) (coord_add pos c) = Ok 0) ->
  shape3 (Z.to_nat (size s)) g' ->
  (forall c, in_bounds (size s) c = true ->
     grid_get g' c =
       if coord_mem c (cells b pos) then Ok (next_id s) else grid_get (grid s) c) ->
  Inv (placed_state s g' b pos).
Proof.
  intros HI Hb Hfree Hs' Hg'. destruct HI as [Hok Hnext Hkeys Hentry Hcells Howner].
  assert (Hset : forall k, dict_get Z.eqb k (placed (placed_state s g' b pos)) =
            if k =? next_id s then Some (next_id s, b, pos)
            else dict_get Z.eqb k (placed s)).
  { intros k. simpl. apply (dict_get_set Z.eqb Z_eqb_iff). }
  constructor.
  - split; [apply Hok|exact Hs'].
  - simpl. lia.
  - simpl. apply unique_keys_set, Hkeys.
  - intros k pid b0 pos0 H. rewrite Hset in H. simpl.
    destruct (k =? next_id s) eqn:E.
    + apply Z.eqb_eq in E. injection H as <- <- <-. subst k.
      split; [reflexivity|]. split; [lia|exact Hb].
    + destruct (Hentry _ _ _ _ H) as (H1 & H2 & H3).
      split; [exact H1|]. split; [lia|exact H3].
  - intros k pid b0 pos0 c H Hc. rewrite Hset in H. simpl.
    destruct (k =? next_id s) eqn:E.
    + apply Z.eqb_eq in E. injection H as <- <- <-. subst k.
      destruct (Hfree c Hc) as [Hin _]. split; [exact Hin|].
      rewrite Hg' by exact Hin.
      replace (coord_mem (coord_add pos c) (cells b pos)) with true; [reflexivity|].
      symmetry. apply coord_mem_In, In_cells. exists c. auto.
    + destruct (Hcells _ _ _ _ _ H Hc) as [Hin Hval]. split; [exact Hin|].
      rewrite Hg' by exact Hin.
      destruct (coord_mem (coord_add pos0 c) (cells b pos)) eqn:Em; [|exact Hval].
      apply coord_mem_In, In_cells in Em. destruct Em as (off & Hoff & Heq).
      destruct (Hfree off Hoff) as [_ H0]. rewrite <- Heq, Hval in H0.
      injection H0 as ->. destruct (Hentry _ _ _ _ H) as (_ & ? & _). lia.
  - intros c v Hin Hv Hnz. simpl in Hin, Hv. rewrite Hg' in Hv by exact Hin.
    destruct (coord_mem c (cells b pos)) eqn:Em.
    + injection Hv as <-. apply coord_mem_In, In_cells in Em.
      destruct Em as (off & Hoff & Heq).
      exists (next_id s), b, pos, off. rewrite Hset, Z.eqb_refl. auto.
    + destruct (Howner c v Hin Hv Hnz) as (pid & b0 & pos0 & off & H1 & H2 & H3).
      exists pid, b0, pos0, off. rewrite Hset.
      destruct (Hentry _ _ _ _ H1) as (_ & Hlt & _).
      replace (v =? next_id s) with false; [auto|].
      symmetry. apply Z.eqb_neq. lia.
Qed.

Lemma Inv_removed_state (s : CubeGrid) (g' : ndarray) (pid pid' : Z) (b : Brick)
  (pos : Coord) :
  Inv s ->
  dict_get Z.eqb pid (placed s) = Some (pid', b, pos) ->
  shape3 (Z.to_nat (size s)) g' ->
  (forall c, in_bounds (size s) c = true ->
     grid_get g' c = if coord_mem c (cells b pos) then Ok 0 else grid_get (grid s) c) ->
  Inv (removed_state s g' pid).
Proof.
  intros HI Hget Hs' Hg'. destruct HI as [Hok Hnext Hkeys Hentry Hcells Howner].
  assert (Hpop : forall k, k <> pid ->
            dict_get Z.eqb k (placed (removed_state s g' pid)) =
              dict_get Z.eqb k (placed s)).
  { intros k Hk. simpl. apply dict_get_pop_other, Hk. }
  assert (Hgone : dict_get Z.eqb pid (placed (removed_state s g' pid)) = None).
  { simpl. apply dict_get_pop_same, Hkeys. }
  constructor.
  - split; [apply Hok|exact Hs'].
  - exact Hnext.
  - simpl. apply unique_keys_pop, Hkeys.
  - intros k p0 b0 pos0 H. destruct (decide (k = pid)) as [->|Hne].
    + rewrite Hgone in H. discriminate.
    + rewrite Hpop in H by exact Hne. apply (Hentry _ _ _ _ H).
  - intros k p0 b0 pos0 c H Hc. destruct (decide (k = pid)) as [->|Hne].
    + rewrite Hgone in H. discriminate.
    + rewrite Hpop in H by exact Hne.
      destruct (Hcells _ _ _ _ _ H Hc) as [Hin Hval]. split; [exact Hin|].
      simpl. rewrite Hg' by exact Hin.
      destruct (coord_mem (coord_add pos0 c) (cells b pos)) eqn:Em; [|exact Hval].
      apply coord_mem_In, In_cells in Em. destruct Em as (off & Hoff & Heq).
      destruct (Hcells _ _ _ _ _ Hget Hoff) as [_ H0].
      rewrite <- Heq, Hval in H0. injection H0 as ->. contradiction.
  - intros c v Hin Hv Hnz. simpl in Hin, Hv. rewrite Hg' in Hv by exact Hin.
    destruct (coord_mem c (cells b pos)) eqn:Em.
    + injection Hv as <-. contradiction.
    + destruct (Howner c v Hin Hv Hnz) as (p0 & b0 & pos0 & off & H1 & H2 & H3).
      exists p0, b0, pos0, off. split; [|auto].
      rewrite Hpop; [exact H1|]. intros ->.
      rewrite Hget in H1. injection H1 as <- <- <-.
      apply coord_mem_false in Em. apply Em, In_cells. exists off. auto.
Qed.

Lemma Inv_moved_state (s : CubeGrid) (g' : ndarray) (pid pid' : Z) (b : Brick)
  (old_pos new_pos : Coord) :
  Inv s ->
  dict_get Z.eqb pid (placed s) = Some (pid', b, old_pos) ->
  (forall c, In c (cubes b) ->
     in_bounds (size s) (coord_add new_pos c) = true
     /\ (grid_get (grid s) (coord_add new_pos c) = Ok 0
         \/ grid_get (grid s) (coord_add new_pos c) = Ok pid)) ->
  shape3 (Z.to_nat (size s)) g' ->
  (forall c, in_bounds (size s) c = true ->
     grid_get g' c =
       if coord_mem c (cells b new_pos) then Ok pid'
       else if coord_mem c (cells b old_pos) then Ok 0
       else grid_get (grid s) c) ->
  Inv (moved_state s g' pid pid' b new_pos).
Proof.
  intros HI Hget Hfree Hs' Hg'. destruct HI as [Hok Hnext Hkeys Hentry Hcells Howner].
  destruct (Hentry _ _ _ _ Hget) as (-> & Hrange & Hbok).
  assert (Hset : forall k, dict_get Z.eqb k (placed (moved_state s g' pid pid b new_pos)) =
            if k =? pid then Some (pid, b, new_pos) else dict_get Z.eqb k (placed s)).
  { intros k. simpl. apply (dict_get_set Z.eqb Z_eqb_iff). }
  constructor.
  - split; [apply Hok|exact Hs'].
  - exact Hnext.
  - simpl. apply unique_keys_set, Hkeys.
  - intros k p0 b0 pos0 H. rewrite Hset in H. simpl.
    destruct (k =? pid) eqn:E.
    + apply Z.eqb_eq in E. injection H as <- <- <-. subst k. auto.
    + apply (Hentry _ _ _ _ H).
  - intros k p0 b0 pos0 c H Hc. rewrite Hset in H. simpl.
    destruct (k =? pid) eqn:E.
    + apply Z.eqb_eq in E. injection H as <- <- <-. subst k.
      destruct (Hfree c Hc) as [Hin _]. split; [exact Hin|].
      rewrite Hg' by exact Hin.
      replace (coord_mem (coord_add new_pos c) (cells b new_pos)) with true;
        [reflexivity|].
      symmetry. apply coord_mem_In, In_cells. exists c. auto.
    + apply Z.eqb_neq in E.
      destruct (Hcells _ _ _ _ _ H Hc) as [Hin Hval]. split; [exact Hin|].
      rewrite Hg' by exact Hin.
      destruct (Hentry _ _ _ _ H) as (_ & Hk & _).
      destruct (coord_mem (coord_add pos0 c) (cells b new_pos)) eqn:Em.
      { apply coord_mem_In, In_cells in Em. destruct Em as (off & Hoff & Heq).
        destruct (Hfree off Hoff) as [_ [H0|H0]];
          rewrite <- Heq, Hval in H0; injection H0 as ->; [lia|contradiction]. }
      destruct (coord_mem (coord_add pos0 c) (cells b old_pos)) eqn:Em'; [|exact Hval].
      apply coord_mem_In, In_cells in Em'. destruct Em' as (off & Hoff & Heq).
      destruct (Hcells _ _ _ _ _ Hget Hoff) as [_ H0].
      rewrite <- Heq, Hval in H0. injection H0 as ->. contradiction.
  - intros c v Hin Hv Hnz. simpl in Hin, Hv. rewrite Hg' in Hv by exact Hin.
    destruct (coord_mem c (cells b new_pos)) eqn:Em.
    + injection Hv as <-. apply coord_mem_In, In_cells in Em.
      destruct Em as (off & Hoff & Heq).
      exists pid, b, new_pos, off. rewrite Hset, Z.eqb_refl. auto.
    + destruct (coord_mem c (cells b old_pos)) eqn:Em'.
      { injection Hv as <-. contradiction. }
      destruct (Howner c v Hin Hv Hnz) as (p0 & b0 & pos0 & off & H1 & H2 & H3).
      exists p0, b0, pos0, off. split; [|auto]. rewrite Hset.
      destruct (v =? pid) eqn:E; [|exact H1].
      apply Z.eqb_eq in E. subst v. rewrite Hget in H1. injection H1 as <- <- <-.
      apply coord_mem_false in Em'. exfalso. apply Em', In_cells. exists off. auto.
Qed.

Lemma Inv_cleared (s : CubeGrid) :
  grid_ok s ->
  Inv (mkCubeGrid (size s) (np_fill0 (grid s)) 1 []
         (bricks s) (valid_placements s) (valid_rotations s)).
Proof.
  intros Hok. pose proof Hok as [Hn Hs].
  rewrite (np_fill0_zeros _ _ Hs).
  constructor; simpl.
  - split; [exact Hn|apply shape3_zeros].
  - lia.
  - exact I.
  - discriminate.
  - discriminate.
  - intros c v Hin Hv Hnz. rewrite grid_get_zeros in Hv.
    + injection Hv as <-. contradiction.
    + rewrite Z2Nat.id by exact Hn. exact Hin.
Qed.

(** Each of the four successful calls keeps the invariant. *)
Lemma Inv_place (s s' : CubeGrid) (b : Brick) (pos : Coord) (pid : Z) :
  Inv s -> Brick_ok b -> place b pos s = (Ok pid, s') -> Inv s'.
Proof.
  intros HI Hb Hrun.
  destruct (can_place_total s b pos (inv_grid _ HI)) as [Hno|[Hyes Hfree]].
  - rewrite (place_rejects _ _ _ Hno) in Hrun. discriminate.
  - destruct (place_accepts _ _ _ (inv_grid _ HI) Hyes) as (g' & Hp & Hs' & Hg').
    rewrite Hp in Hrun. injection Hrun as _ <-.
    apply Inv_placed_state; assumption.
Qed.

Lemma Inv_remove (s s' : CubeGrid) (pid : Z) :
  Inv s -> remove pid s = (Ok tt, s') -> Inv s'.
Proof.
  intros HI Hrun.
  destruct (dict_get Z.eqb pid (placed s)) as [[[pid' b] pos]|] eqn:Hget.
  - destruct (remove_known s pid pid' b pos (inv_grid _ HI) Hget) as (g' & Hr & Hs' & Hg').
    { intros c Hc. apply (inv_cells _ HI _ _ _ _ _ Hget Hc). }
    rewrite Hr in Hrun. injection Hrun as <-.
    eapply Inv_removed_state; eassumption.
  - rewrite (remove_unknown _ _ Hget) in Hrun. discriminate.
Qed.

Lemma Inv_move (s s' : CubeGrid) (pid : Z) (new_pos : Coord) :
  Inv s -> move pid new_pos s = (Ok tt, s') -> Inv s'.
Proof.
  intros HI Hrun.
  destruct (dict_get Z.eqb pid (placed s)) as [[[pid' b] old_pos]|] eqn:Hget.
  - destruct (can_move_total s pid pid' b old_pos new_pos (inv_grid _ HI) Hget)
      as [Hno|[Hyes Hfree]].
    + rewrite move_rejects in Hrun; [discriminate| |exact Hno].
      unfold dict_mem. rewrite Hget. reflexivity.
    + destruct (move_accepts s pid pid' b old_pos new_pos (inv_grid _ HI) Hget)
        as (g' & Hm & Hs' & Hg').
      { intros c Hc. apply (inv_cells _ HI _ _ _ _ _ Hget Hc). }
      { exact Hyes. }
      rewrite Hm in Hrun. injection Hrun as <-.
      eapply Inv_moved_state; eassumption.
  - rewrite (move_unknown _ _ _ Hget) in Hrun. discriminate.
Qed.

Lemma Inv_clear (s s' : CubeGrid) : Inv s -> clear s = (Ok tt, s') -> Inv s'.
Proof.
  intros HI Hrun. rewrite clear_runs in Hrun. injection Hrun as <-.
  apply Inv_cleared, HI.
Qed.

(** ** Proofs: construction *)

Lemma rfold_inv {A B : Type} (P : B -> Prop) (l : list A)
  (body : A -> B -> result B) (b b' : B) :
  P b ->
  (forall a x x', In a l -> P x -> body a x = Ok x' -> P x') ->
  rfold l body b = Ok b' -> P b'.
Proof.
  revert b. induction l as [|a l IH]; intros b Hb Hstep Hrun; simpl in Hrun.
  - injection Hrun as <-. exact Hb.
  - destruct (body a b) as [x|e] eqn:E; simpl in Hrun; [|discriminate].
    apply (IH x).
    + apply (Hstep a b x); [left; reflexivity|exact Hb|exact E].
    + intros a0 y y' Ha0. apply Hstep. right. exact Ha0.
    + exact Hrun.
Qed.

Lemma add_valid_placement_core (n : Z) (g : ndarray) (nm : string) (c : Coord)
  (s s' : CubeGrid) :
  fresh_core n g s -> add_valid_placement nm c s = Ok s' -> fresh_core n g s'.
Proof.
  intros (H1 & H2 & H3 & H4 & H5 & H6). unfold add_valid_placement, dict_getitem.
  destruct (dict_get String.eqb nm (valid_placements s)) as [origins|] eqn:E;
    simpl; [|discriminate].
  intros H. injection H as <-. unfold fresh_core. simpl.
  rewrite (dict_keys_set String.eqb); [auto 10|].
  unfold dict_mem. rewrite E. reflexivity.
Qed.

Lemma valid_origins_of_core (n : Z) (g : ndarray) (brick : Brick)
  (rots : list (Ref Brick)) (s s' : CubeGrid) :
  fresh_core n g s -> valid_origins_of brick rots s = Ok s' -> fresh_core n g s'.
Proof.
  intros Hs. unfold valid_origins_of.
  apply rfold_inv; [exact Hs|]. intros x s1 s1' _ Hs1.
  apply rfold_inv; [exact Hs1|]. intros y s2 s2' _ Hs2.
  apply rfold_inv; [exact Hs2|]. intros z s3 s3' _ Hs3.
  destruct (some_rotation_fits s3 (x, y, z) rots) as [[|]|e]; simpl.
  - apply add_valid_placement_core, Hs3.
  - intros H. injection H as <-. exact Hs3.
  - discriminate.
Qed.

Lemma build_cache_core (n : Z) (g : ndarray) (brick : Brick) (s s' : CubeGrid)
  (h h' : nat) :
  In (name brick) template_names ->
  fresh_core n g s -> build_cache brick (s, h) = Ok (s', h') -> fresh_core n g s'.
Proof.
  intros Hname Hs. unfold build_cache.
  destruct (all_rotations_of brick h) as [[rots h1]|e]; simpl; [|discriminate].
  destruct (valid_origins_of brick rots _) as [s1|e] eqn:E; simpl; [|discriminate].
  intros H. injection H as <- <-.
  eapply valid_origins_of_core; [|exact E].
  destruct Hs as (H1 & H2 & H3 & H4 & H5 & H6).
  unfold fresh_core. simpl. rewrite (dict_keys_set String.eqb); [auto 10|].
  apply (dict_mem_keys String.eqb string_eqb_iff). rewrite H6. exact Hname.
Qed.

Lemma default_bricks_eq : default_bricks = Ok template_bricks.
Proof. reflexivity. Qed.

Lemma template_brick_names (b : Brick) :
  In b (map snd template_bricks) -> In (name b) template_names.
Proof.
  intros Hb. simpl in Hb.
  destruct Hb as [<-|[<-|[<-|[<-|[<-|[]]]]]]; simpl; auto 10.
Qed.

Lemma CubeGrid_init_core (n : Z) (s : CubeGrid) :
  CubeGrid_init n = Ok s ->
  0 <= n
  /\ fresh_core n (replicate (Z.to_nat n)
                     (replicate (Z.to_nat n) (replicate (Z.to_nat n) 0))) s.
Proof.
  unfold CubeGrid_init.
  destruct (np_zeros n) as [g|e] eqn:Ez; [|discriminate].
  apply np_zeros_inv in Ez. destruct Ez as [Hn ->].
  rewrite default_bricks_eq. cbn [rbind].
  match goal with
  | |- context [rfold ?l build_cache ?acc] =>
      destruct (rfold l build_cache acc) as [[s1 h1]|e] eqn:E
  end; [|discriminate].
  intros H. injection H as <-. split; [exact Hn|].
  revert E.
  apply (rfold_inv (fun acc : CubeGrid * nat => fresh_core n _ (fst acc))).
  - unfold fresh_core. simpl. auto 10.
  - intros b [s2 h2] [s3 h3] Hb Hs2 Hrun.
    eapply build_cache_core; [|exact Hs2|exact Hrun].
    apply template_brick_names, Hb.
Qed.

Lemma Inv_init (n : Z) (s : CubeGrid) : CubeGrid_init n = Ok s -> Inv s.
Proof.
  intros H. apply CubeGrid_init_core in H.
  destruct H as (Hn & Hsz & Hg & Hid & Hpl & _).
  constructor.
  - split; [lia|]. rewrite Hg, Hsz. apply shape3_zeros.
  - lia.
  - rewrite Hpl. exact I.
  - rewrite Hpl. discriminate.
  - rewrite Hpl. discriminate.
  - intros c v Hin Hv Hnz. rewrite Hg, grid_get_zeros in Hv.
    + injection Hv as <-. contradiction.
    + rewrite Z2Nat.id by exact Hn. rewrite <- Hsz. exact Hin.
Qed.

(** ** Proofs: reachable states *)

Lemma reachable_Inv (s : CubeGrid) : reachable s -> Inv s.
Proof.
  induction 1 as [n s Hinit|s s' b pos pid _ IH Hb Hrun|s s' pid _ IH Hrun
                 |s s' pid new_pos _ IH Hrun|s s' _ IH Hrun].
  - eapply Inv_init, Hinit.
  - eapply Inv_place; eassumption.
  - eapply Inv_remove; eassumption.
  - eapply Inv_move; eassumption.
  - eapply Inv_clear; eassumption.
Qed.

Lemma Inv_grid_invariant (s : CubeGrid) : Inv s -> grid_invariant s.
Proof.
  intros [Hok Hnext Hkeys Hentry Hcells Howner].
  assert (Hown : forall P c, owns s P c -> holds s c P).
  { intros P c (b & pos & off & [pid Hreg] & Hoff & ->).
    apply (Hcells _ _ _ _ _ Hreg Hoff). }
  split; [|split].
  - intros c P HP. split; [|apply Hown].
    intros [Hin Hv].
    destruct (Howner c P Hin Hv HP) as (pid & b & pos & off & H1 & H2 & H3).
    exists b, pos, off. split; [exists pid; exact H1|auto].
  - intros P Q c Hne HP HQ.
    apply Hown in HP, HQ. destruct HP as [_ HP], HQ as [_ HQ].
    rewrite HP in HQ. injection HQ as ->. contradiction.
  - intros P b pos off [pid Hreg] Hoff. apply (Hcells _ _ _ _ _ Hreg Hoff).
Qed.

(** C9: every state reachable from a freshly constructed grid by successful
    place, remove, move and clear calls satisfies the grid invariant: a cell
    holds id P iff P is registered and the cell is the registered position
    plus a cube offset of its brick; distinct placements occupy disjoint
    cells; every placed cube lies within the grid. *)
Theorem reachable_grid_invariant (s : CubeGrid) :
  reachable s -> grid_invariant s.
Proof.
  intros Hr. apply Inv_grid_invariant. apply reachable_Inv. exact Hr.
Qed.

(** ** Proofs: move *)

Lemma move_outcome (s : CubeGrid) (pid : Z) (new_pos : Coord) :
  Inv s ->
  match dict_get Z.eqb pid (placed s) with
  | None => move pid new_pos s = (Raise KeyError, s)
  | Some (_, b, old_pos) =>
      (can_move s pid new_pos = Ok false
       /\ move pid new_pos s = (Raise ValueError, s))
      \/ (can_move s pid new_pos = Ok true
          /\ exists g',
               move pid new_pos s = (Ok tt, moved_state s g' pid pid b new_pos)
               /\ forall c, in_bounds (size s) c = true ->
                    grid_get g' c =
                      if coord_mem c (cells b new_pos) then Ok pid
                      else if coord_mem c (cells b old_pos) then Ok 0
                      else grid_get (grid s) c)
  end.
Proof.
  intros HI.
  destruct (dict_get Z.eqb pid (placed s)) as [[[pid' b] old_pos]|] eqn:Hget.
  - destruct (inv_entry _ HI _ _ _ _ Hget) as (-> & _).
    destruct (can_move_total s pid pid b old_pos new_pos (inv_grid _ HI) Hget)
      as [Hno|[Hyes Hfree]].
    + left. split; [exact Hno|]. apply move_rejects; [|exact Hno].
      unfold dict_mem. rewrite Hget. reflexivity.
    + right. split; [exact Hyes|].
      destruct (move_accepts s pid pid b old_pos new_pos (inv_grid _ HI) Hget)
        as (g' & Hm & Hs' & Hg').
      { intros c Hc. apply (inv_cells _ HI _ _ _ _ _ Hget Hc). }
      { exact Hyes. }
      exists g'. split; assumption.
  - apply move_unknown, Hget.
Qed.

(** C5: on a reachable state, [move] raises KeyError for an id that is not
    registered and ValueError for a registered id whose [can_move] is
    false; every failure leaves the whole state, grid and registry
    included, as it was; on success the old cells that are not new cells
    are cleared, the new cells hold the id, every other cell is untouched,
    and the registry differs only in the position of that entry. *)
Theorem move_all_or_nothing (s : CubeGrid) (pid : Z) (new_pos : Coord) :
  reachable s ->
  (dict_mem Z.eqb pid (placed s) = false ->
     move pid new_pos s = (Raise KeyError, s))
  /\ (dict_mem Z.eqb pid (placed s) = true ->
      can_move s pid new_pos = Ok false ->
        move pid new_pos s = (Raise ValueError, s))
  /\ (forall e s', move pid new_pos s = (Raise e, s') ->
        s' = s /\ (e = KeyError \/ e = ValueError))
  /\ (forall s', move pid new_pos s = (Ok tt, s') ->
        exists b old_pos,
          dict_get Z.eqb pid (placed s) = Some (pid, b, old_pos)
          /\ can_move s pid new_pos = Ok true
          /\ (forall c, in_bounds (size s) c = true ->
                grid_get (grid s') c =
                  if coord_mem c (cells b new_pos) then Ok pid
                  else if coord_mem c (cells b old_pos) then Ok 0
                  else grid_get (grid s) c)
          /\ dict_get Z.eqb pid (placed s') = Some (pid, b, new_pos)
          /\ (forall k, k <> pid ->
                dict_get Z.eqb k (placed s') = dict_get Z.eqb k (placed s))
          /\ dict_keys (placed s') = dict_keys (placed s)
          /\ size s' = size s /\ next_id s' = next_id s)
  /\ (dict_mem Z.eqb pid (placed s) = true ->
      can_move s pid new_pos = Ok true ->
        exists s', move pid new_pos s = (Ok tt, s')).
Proof.
  intros Hr. pose proof (reachable_Inv _ Hr) as HI.
  pose proof (move_outcome s pid new_pos HI) as Hout.
  unfold dict_mem.
  destruct (dict_get Z.eqb pid (placed s)) as [[[pid' b] old_pos]|] eqn:Hget.
  - destruct (inv_entry _ HI _ _ _ _ Hget) as (-> & _).
    split; [discriminate|].
    destruct Hout as [[Hcm Hmv]|[Hcm (g' & Hmv & Hg')]].
    + split; [intros _ _; exact Hmv|].
      split; [intros e s' H; rewrite Hmv in H; injection H as <- <-; auto|].
      split; [intros s' H; rewrite Hmv in H; discriminate|].
      intros _ H. rewrite Hcm in H. discriminate.
    + split; [intros _ H; rewrite Hcm in H; discriminate|].
      split; [intros e s' H; rewrite Hmv in H; discriminate|].
      split; [|intros _ _; eexists; exact Hmv].
      intros s' H. rewrite Hmv in H. injection H as <-.
      exists b, old_pos. split; [reflexivity|]. split; [exact Hcm|].
      split; [exact Hg'|]. simpl.
      split; [rewrite (dict_get_set Z.eqb Z_eqb_iff), Z.eqb_refl; reflexivity|].
      split.
      { intros k Hk. rewrite (dict_get_set Z.eqb Z_eqb_iff).
        apply Z.eqb_neq in Hk. rewrite Hk. reflexivity. }
      split; [|auto].
      apply (dict_keys_set Z.eqb). unfold dict_mem. rewrite Hget. reflexivity.
  - split; [intros _; exact Hout|].
    split; [discriminate|].
    split; [intros e s' H; rewrite Hout in H; injection H as <- <-; auto|].
    split; [intros s' H; rewrite Hout in H; discriminate|discriminate].
Qed.

(** ** Proofs: what a method leaves alone *)

Section Frame.
Context {X : Type} (f : CubeGrid -> X).

Lemma keeps_ret {A : Type} (a : A) : keeps f (ret a).
Proof. intros s. reflexivity. Qed.

Lemma keeps_raise {A : Type} (e : exn) : keeps f (@raise A e).
Proof. intros s. reflexivity. Qed.

Lemma keeps_gets {A : Type} (g : CubeGrid -> A) : keeps f (gets g).
Proof. intros s. reflexivity. Qed.

Lemma keeps_lift {A : Type} (g : CubeGrid -> result A) : keeps f (lift g).
Proof. intros s. reflexivity. Qed.

Lemma keeps_modify (g : CubeGrid -> CubeGrid) :
  (forall s, f (g s) = f s) -> keeps f (modify g).
Proof. intros H s. apply H. Qed.

Lemma keeps_bind {A B : Type} (m : M A) (k : A -> M B) :
  keeps f m -> (forall a, keeps f (k a)) -> keeps f (bind m k).
Proof.
  intros Hm Hk s. unfold bind. specialize (Hm s).
  destruct (m s) as [[a|e] s1]; simpl in *.
  - rewrite Hk. exact Hm.
  - exact Hm.
Qed.

Lemma keeps_for_each {A : Type} (l : list A) (body : A -> M unit) :
  (forall a, keeps f (body a)) -> keeps f (for_each l body).
Proof.
  intros Hb. induction l as [|a l IH]; simpl.
  - apply keeps_ret.
  - apply keeps_bind; [apply Hb|intros _; exact IH].
Qed.

Lemma keeps_for_fold {A B : Type} (l : list A) (body : A -> B -> M B) (b : B) :
  (forall a x, keeps f (body a x)) -> keeps f (for_fold l body b).
Proof.
  intros Hb. revert b. induction l as [|a l IH]; intros b; simpl.
  - apply keeps_ret.
  - apply keeps_bind; [apply Hb|intros x; apply IH].
Qed.

Lemma keeps_grid_setitem (c : Coord) (v : Z) :
  (forall g s, f (set_grid g s) = f s) -> keeps f (grid_setitem c v).
Proof.
  intros H s. unfold grid_setitem.
  destruct (grid_set (grid s) c v); simpl; [apply H|reflexivity].
Qed.

Lemma keeps_write_cubes (b : Brick) (pos : Coord) (v : Z) :
  (forall g s, f (set_grid g s) = f s) -> keeps f (write_cubes b pos v).
Proof.
  intros H. apply keeps_for_each. intros c. apply keeps_grid_setitem, H.
Qed.
End Frame.

Ltac frame :=
  repeat first
    [ apply keeps_bind; [|intro]
    | apply keeps_ret | apply keeps_raise | apply keeps_gets | apply keeps_lift
    | apply keeps_write_cubes; intros; reflexivity
    | apply keeps_modify; intros; reflexivity
    | apply keeps_for_fold; intros
    | match goal with |- keeps _ (match ?e with _ => _ end) => destruct e end ].

Lemma place_keeps_caches (b : Brick) (pos : Coord) : keeps caches (place b pos).
Proof. unfold place. frame. Qed.

Lemma remove_keeps_caches (pid : Z) : keeps caches (remove pid).
Proof. unfold remove. frame. Qed.

Lemma move_keeps_caches (pid : Z) (new_pos : Coord) : keeps caches (move pid new_pos).
Proof. unfold move. frame. Qed.

Lemma load_keeps_caches (data : Snapshot) : keeps caches (load_from_file data).
Proof. unfold load_from_file. frame. Qed.



(** [place] hands out [next_id] and advances it by one; a failed [place]
    leaves the counter alone. *)
Lemma place_next_id (b : Brick) (pos : Coord) (s : CubeGrid) :
  match place b pos s with
  | (Ok pid, s') => pid = next_id s /\ next_id s' = next_id s + 1
  | (Raise _, s') => next_id s' = next_id s
  end.
Proof.
  unfold place, bind, lift, gets, modify, ret, raise.
  destruct (can_place s b pos) as [[|]|e]; simpl; try reflexivity.
  pose proof (keeps_write_cubes next_id b pos (next_id s) (fun _ _ => eq_refl) s) as Hk.
  destruct (write_cubes b pos (next_id s) s) as [[[]|e] s1]; simpl in *.
  - split; [reflexivity|]. rewrite Hk. reflexivity.
  - exact Hk.
Qed.

(** ** Proofs: placement ids *)




(** ** Proofs: persistence *)

Lemma Brick_init_same (b : Brick) : Brick_ok b -> Brick_init (cubes b) (name b) = Ok b.
Proof.
  intros [Hlen Hname]. unfold Brick_init. rewrite Hlen. simpl.
  destruct (String.eqb (name b) "") eqn:E.
  - apply String.eqb_eq in E. contradiction.
  - destruct b. reflexivity.
Qed.

Lemma running_max_max (ids : list Z) (m : Z) :
  0 <= m -> running_max m ids = Z.max m (max_id ids).
Proof.
  revert m. induction ids as [|k ids IH]; intros m Hm; simpl.
  - lia.
  - unfold running_max in *. simpl.
    destruct (k >? m) eqn:E; rewrite IH by lia; unfold max_id; simpl; lia.
Qed.

Lemma running_max_0 (ids : list Z) : running_max 0 ids = max_id ids.
Proof.
  rewrite running_max_max by lia.
  assert (0 <= max_id ids) by (induction ids; simpl; lia). lia.
Qed.

Lemma unique_keys_app_fresh {V : Type} (l1 l2 : list (Z * V)) (k : Z) (v : V) :
  unique_keys (l1 ++ (k, v) :: l2) -> dict_get Z.eqb k l1 = None.
Proof.
  induction l1 as [|[k1 v1] l1 IH]; simpl; [reflexivity|].
  intros [Hk Hu]. destruct (k =? k1) eqn:E; [|apply IH, Hu].
  apply Z.eqb_eq in E. subst k1. exfalso. clear IH Hu.
  induction l1 as [|[k2 v2] l1 IH]; simpl in Hk.
  - rewrite Z.eqb_refl in Hk. discriminate.
  - destruct (k =? k2); [discriminate|auto].
Qed.

Lemma In_dict_get {V : Type} (l : list (Z * V)) (k : Z) (v : V) :
  unique_keys l -> In (k, v) l -> dict_get Z.eqb k l = Some v.
Proof.
  induction l as [|[k1 v1] l IH]; simpl; [intros _ []|].
  intros [Hk Hu] [H|H].
  - injection H as -> ->. rewrite Z.eqb_refl. reflexivity.
  - destruct (k =? k1) eqn:E; [|apply IH; assumption].
    apply Z.eqb_eq in E. subst k1. rewrite (IH Hu H) in Hk. discriminate.
Qed.

(** The value returned by the load loop is the running maximum, whatever
    the state it runs on. *)
Lemma load_loop_value (items : list Item) (m m' : Z) (t t' : CubeGrid) :
  for_fold items load_item m t = (Ok m', t') ->
  m' = running_max m (map item_pid items).
Proof.
  revert m t. induction items as [|it items IH]; intros m t; simpl.
  - unfold ret. intros H. injection H as <- _. reflexivity.
  - unfold bind at 1.
    destruct (load_item it m t) as [[m1|e] t1] eqn:E; [|discriminate].
    intros H. apply IH in H. subst m'.
    unfold running_max. simpl. f_equal.
    revert E. unfold load_item, bind, lift, modify, ret.
    destruct (Brick_init _ _) as [b|e]; [|discriminate].
    destruct (write_cubes b (item_pos it) (item_pid it) t) as [[[]|e] t2];
      [|discriminate].
    intros H. injection H as <- _. reflexivity.
Qed.

(** The load loop over the records of registry entries whose cubes all lie
    within the grid: it ends normally, appends the entries to the registry
    and paints their cells. *)
Lemma load_loop_run (l : list (Z * (Z * Brick * Coord))) :
  forall (done : list (Z * (Z * Brick * Coord))) (t : CubeGrid) (m : Z),
  grid_ok t -> placed t = done -> unique_keys (done ++ l) ->
  (forall k pid b pos, In (k, (pid, b, pos)) l ->
     pid = k /\ Brick_ok b
     /\ forall c, In c (cubes b) -> in_bounds (size t) (coord_add pos c) = true) ->
  exists g' m',
    for_fold (map item_of l) load_item m t
      = (Ok m', set_placed (done ++ l) (set_grid g' t))
    /\ shape3 (Z.to_nat (size t)) g'
    /\ forall c, in_bounds (size t) c = true ->
         grid_get g' c = painted l (grid_get (grid t) c) c.
Proof.
  induction l as [|[k [[pid b] pos]] l IH]; intros done t m Hok Hpl Huniq Hent.
  - exists (grid t), m. simpl. unfold ret. rewrite app_nil_r, set_grid_same.
    split; [|split; [apply Hok|reflexivity]].
    rewrite <- Hpl. destruct t. reflexivity.
  - destruct (Hent k pid b pos (or_introl eq_refl)) as (-> & Hb & Hin).
    destruct (write_cubes_ok b pos k t Hok Hin) as (g1 & Hw & Hs1 & Hg1).
    set (t1 := set_placed (done ++ [(k, (k, b, pos))]) (set_grid g1 t)).
    assert (Hok1 : grid_ok t1) by (split; [apply Hok|exact Hs1]).
    destruct (IH (done ++ [(k, (k, b, pos))]) t1
                (if k >? m then k else m) Hok1 eq_refl) as (g' & m' & Hrun & Hs' & Hg').
    { rewrite <- app_assoc. exact Huniq. }
    { intros k0 p0 b0 pos0 H0. apply (Hent k0 p0 b0 pos0). right. exact H0. }
    exists g', m'. split; [|split; [exact Hs'|]].
    + simpl. unfold bind at 1. unfold load_item at 1.
      unfold bind, lift, modify, ret. simpl.
      rewrite (Brick_init_same b Hb). rewrite Hw. simpl.
      rewrite Hpl. rewrite (dict_set_fresh Z.eqb)
        by (eapply unique_keys_app_fresh; exact Huniq).
      fold t1. rewrite Hrun. rewrite <- app_assoc. reflexivity.
    + intros c Hc. rewrite (Hg' c Hc). simpl. rewrite (Hg1 c Hc). reflexivity.
Qed.

Lemma painted_same (l : list (Z * (Z * Brick * Coord))) (base : result Z) (c : Coord)
  (v : Z) :
  (forall k pid b pos, In (k, (pid, b, pos)) l -> In c (cells b pos) -> k = v) ->
  painted l base c = Ok v
  \/ (painted l base c = base
      /\ forall k pid b pos, In (k, (pid, b, pos)) l -> ~ In c (cells b pos)).
Proof.
  revert base. induction l as [|[k [[pid b] pos]] l IH]; intros base Hall.
  - right. split; [reflexivity|]. intros ? ? ? ? [].
  - unfold painted. simpl. fold (painted l).
    assert (Hall' : forall k0 pid0 b0 pos0,
              In (k0, (pid0, b0, pos0)) l -> In c (cells b0 pos0) -> k0 = v).
    { intros k0 p0 b0 pos0 H0. apply (Hall k0 p0 b0 pos0). right. exact H0. }
    destruct (coord_mem c (cells b pos)) eqn:Em.
    + left. apply coord_mem_In in Em.
      rewrite (Hall k pid b pos (or_introl eq_refl) Em).
      destruct (IH (Ok v) Hall') as [H|[H _]]; exact H.
    + destruct (IH base Hall') as [H|[H Hnone]]; [left; exact H|].
      right. split; [exact H|]. intros k0 p0 b0 pos0 [H0|H0].
      * injection H0 as <- <- <- <-. apply coord_mem_false, Em.
      * apply (Hnone k0 p0 b0 pos0 H0).
Qed.

(** Replaying the registry of a state that satisfies the invariant over
    an empty grid paints the grid of that state. *)
Lemma painted_registry (s : CubeGrid) (c : Coord) :
  Inv s -> in_bounds (size s) c = true ->
  painted (placed s) (Ok 0) c = grid_get (grid s) c.
Proof.
  intros HI Hc. destruct (cell_total s c (inv_grid _ HI) Hc) as (v & Hv).
  rewrite Hv.
  destruct (painted_same (placed s) (Ok 0) c v) as [H|[H Hnone]].
  - intros k pid b pos Hin Hcell. apply In_cells in Hcell.
    destruct Hcell as (off & Hoff & ->).
    apply (In_dict_get _ _ _ (inv_keys _ HI)) in Hin.
    destruct (inv_cells _ HI _ _ _ _ _ Hin Hoff) as [_ Hk].
    rewrite Hk in Hv. injection Hv as ->. reflexivity.
  - exact H.
  - rewrite H. destruct (decide (v = 0)) as [->|Hnz]; [reflexivity|].
    destruct (inv_owner _ HI c v Hc Hv Hnz) as (pid & b & pos & off & Hget & Hoff & ->).
    apply (dict_get_In Z.eqb Z_eqb_iff) in Hget.
    exfalso. apply (Hnone _ _ _ _ Hget). apply In_cells. exists off. auto.
Qed.

(** Loading the document saved from a state [s] that satisfies the
    invariant, into any grid object [t]. *)
Lemma CubeGrid_init_size (n : Z) (s : CubeGrid) :
  CubeGrid_init n = Ok s -> size s = n /\ 0 <= n < 1048576.
Proof.
  intros H. pose proof (CubeGrid_init_core _ _ H) as (_ & Hsz & _).
  split; [exact Hsz|]. revert H. unfold CubeGrid_init.
  destruct (np_zeros n) as [g|e] eqn:Ez; [|discriminate].
  intros _. apply (np_zeros_bound n g Ez).
Qed.

(** The size of a reachable state is one [np.zeros] accepts. *)
Lemma reachable_size_bound (s : CubeGrid) : reachable s -> 0 <= size s < 1048576.
Proof.
  induction 1 as [n s Hinit|s s' b pos pid _ IH Hb Hrun|s s' pid _ IH Hrun
                 |s s' pid new_pos _ IH Hrun|s s' _ IH Hrun].
  - destruct (CubeGrid_init_size _ _ Hinit) as [-> H]. exact H.
  - assert (Hk : keeps size (place b pos)) by (unfold place; frame).
    specialize (Hk s). rewrite Hrun in Hk. simpl in Hk. rewrite Hk. exact IH.
  - assert (Hk : keeps size (remove pid)) by (unfold remove; frame).
    specialize (Hk s). rewrite Hrun in Hk. simpl in Hk. rewrite Hk. exact IH.
  - assert (Hk : keeps size (move pid new_pos)) by (unfold move; frame).
    specialize (Hk s). rewrite Hrun in Hk. simpl in Hk. rewrite Hk. exact IH.
  - rewrite clear_runs in Hrun. injection Hrun as <-. exact IH.
Qed.

Lemma load_saved (s t : CubeGrid) (next : option Z) :
  Inv s -> size s < 1048576 ->
  load_from_file
    {| snap_size := Some (size s); snap_next_id := next;
       snap_placed := Some (map item_of (placed s)) |} t
  = (Ok tt,
     mkCubeGrid (size s) (grid s)
       (default (max_id (dict_keys (placed s)) + 1) next) (placed s)
       (bricks t) (valid_placements t) (valid_rotations t)).
Proof.
  intros HI Hlt. pose proof (inv_grid _ HI) as [Hn Hs].
  unfold load_from_file. cbn [snap_size snap_placed snap_next_id default from_option].
  unfold bind, modify, lift, id. cbn beta iota. rewrite (np_zeros_ok _ (conj Hn Hlt)).
  set (z := replicate (Z.to_nat (size s))
              (replicate (Z.to_nat (size s)) (replicate (Z.to_nat (size s)) 0))).
  set (t0 := set_placed [] (set_grid z (set_size (size s) t))).
  assert (Hok0 : grid_ok t0) by (split; [exact Hn|apply shape3_zeros]).
  destruct (load_loop_run (placed s) [] t0 0 Hok0 eq_refl) as (g' & m' & Hrun & Hs' & Hg').
  { exact (inv_keys _ HI). }
  { intros k pid b pos Hin.
    apply (In_dict_get _ _ _ (inv_keys _ HI)) in Hin.
    destruct (inv_entry _ HI _ _ _ _ Hin) as (-> & _ & Hb).
    split; [reflexivity|]. split; [exact Hb|].
    intros c Hc. apply (inv_cells _ HI _ _ _ _ _ Hin Hc). }
  rewrite Hrun.
  apply load_loop_value in Hrun. rewrite Hrun.
  assert (Hg : g' = grid s).
  { apply (grid_ext (Z.to_nat (size s))); [exact Hs'|exact Hs|].
    intros c Hc. rewrite Z2Nat.id in Hc by exact Hn.
    rewrite (Hg' c Hc). simpl.
    unfold z. rewrite grid_get_zeros by (rewrite Z2Nat.id by exact Hn; exact Hc).
    apply painted_registry; assumption. }
  rewrite Hg. f_equal. unfold set_next_id. simpl. f_equal.
  rewrite map_map.
  replace (map (fun x => item_pid (item_of x)) (placed s)) with (dict_keys (placed s)).
  - rewrite running_max_0. reflexivity.
  - unfold dict_keys. apply map_ext. intros [k [[pid b] pos]]. reflexivity.
Qed.

(** When the document has no [next_id], a load that ends normally sets the
    counter one past the largest loaded id. *)
Lemma load_fallback_next_id (data : Snapshot) (u u' : CubeGrid) :
  snap_next_id data = None ->
  load_from_file data u = (Ok tt, u') ->
  next_id u' = max_id (map item_pid (default [] (snap_placed data))) + 1.
Proof.
  intros Hnone. unfold load_from_file. rewrite Hnone.
  unfold bind, modify, lift. cbn beta iota.
  destruct (np_zeros _) as [g|e]; [|discriminate].
  match goal with
  | |- context [for_fold ?l load_item 0 ?st] =>
      destruct (for_fold l load_item 0 st) as [[m|e] st'] eqn:E
  end; [|discriminate].
  intros H. injection H as <-. apply load_loop_value in E. subst m.
  simpl. rewrite running_max_0. reflexivity.
Qed.

(** C6: for every reachable state [s], loading the document that [to_dict]
    produces from it, into any grid object [t], ends normally and gives the
    size, the occupancy array, the registry and [next_id] of [s]; loaded
    back into [s] itself it gives [s].  When the document lacks [next_id],
    the load gives the same array and registry and sets [next_id] to the
    largest loaded id plus 1. *)
Theorem save_load_roundtrip (s t : CubeGrid) :
  reachable s ->
  load_from_file (to_dict s) t
    = (Ok tt,
       mkCubeGrid (size s) (grid s) (next_id s) (placed s)
         (bricks t) (valid_placements t) (valid_rotations t))
  /\ load_from_file (to_dict s) s = (Ok tt, s)
  /\ load_from_file (without_next_id (to_dict s)) t
       = (Ok tt,
          mkCubeGrid (size s) (grid s) (max_id (dict_keys (placed s)) + 1) (placed s)
            (bricks t) (valid_placements t) (valid_rotations t))
  /\ (forall data u u',
        snap_next_id data = None -> load_from_file data u = (Ok tt, u') ->
        next_id u' = max_id (map item_pid (default [] (snap_placed data))) + 1).
Proof.
  intros Hr. pose proof (reachable_Inv _ Hr) as HI.
  pose proof (proj2 (reachable_size_bound _ Hr)) as Hlt.
  split; [|split; [|split]].
  - apply (load_saved s t (Some (next_id s)) HI Hlt).
  - pose proof (load_saved s s (Some (next_id s)) HI Hlt) as H.
    destruct s. exact H.
  - apply (load_saved s t None HI Hlt).
  - apply load_fallback_next_id.
Qed.

(** ** Proofs: queries for a name without a cache entry *)

Lemma engine_state_cache_keys (s : CubeGrid) :
  engine_state s ->
  dict_keys (valid_placements s) = template_names
  /\ dict_keys (valid_rotations s) = template_names.
Proof.
  induction 1 as [n s Hinit|s b pos _ IH|s pid _ IH|s pid new_pos _ IH|s _ IH
                 |s data _ IH].
  - apply CubeGrid_init_core in Hinit. destruct Hinit as (_ & _ & _ & _ & _ & H).
    exact H.
  - pose proof (place_keeps_caches b pos s) as E. unfold caches in E.
    injection E as -> ->. exact IH.
  - pose proof (remove_keeps_caches pid s) as E. unfold caches in E.
    injection E as -> ->. exact IH.
  - pose proof (move_keeps_caches pid new_pos s) as E. unfold caches in E.
    injection E as -> ->. exact IH.
  - exact IH.
  - pose proof (load_keeps_caches data s) as E. unfold caches in E.
    injection E as -> ->. exact IH.
Qed.

Lemma dict_get_absent {V : Type} (k : string) (d : list (string * V)) :
  ~ In k (dict_keys d) -> dict_get String.eqb k d = None.
Proof.
  intros H. destruct (dict_get String.eqb k d) eqn:E; [|reflexivity].
  exfalso. apply H. apply (dict_mem_keys String.eqb string_eqb_iff).
  unfold dict_mem. rewrite E. reflexivity.
Qed.

(** C10: in every state of a grid object, for every brick whose name is
    none of the five template names, [validate_placements] returns the
    empty list and [can_not_place_somewhere] returns false; neither
    raises. *)
Theorem unknown_name_queries (s : CubeGrid) (brick : Brick) :
  engine_state s -> ~ In (name brick) template_names ->
  validate_placements s brick = Ok []
  /\ can_not_place_somewhere s brick = Ok false.
Proof.
  intros Hs Hname. destruct (engine_state_cache_keys s Hs) as [Hk _].
  assert (He : empty_origins s brick = Ok []).
  { unfold empty_origins, dict_get_default.
    rewrite dict_get_absent by (rewrite Hk; exact Hname). reflexivity. }
  unfold validate_placements, can_not_place_somewhere. rewrite He. split; reflexivity.
Qed.

(** ** Proofs: the cached origins *)

Lemma In_py_range (n x : Z) : In x (py_range n) <-> 0 <= x < n.
Proof.
  unfold py_range. rewrite in_map_iff. split.
  - intros (k & <- & Hk). apply in_seq in Hk. lia.
  - intros H. exists (Z.to_nat x). split; [lia|]. apply in_seq. lia.
Qed.

Lemma In_coord_set_add (c c' : Coord) (l : list Coord) :
  In c' (coord_set_add c l) <-> c' = c \/ In c' l.
Proof.
  unfold coord_set_add. destruct (existsb (coord_eqb c) l) eqn:E.
  - split; [auto|]. intros [->|H]; [|exact H].
    apply existsb_exists in E. destruct E as (x & Hx & Ex).
    apply coord_eqb_spec in Ex. subst x. exact Hx.
  - rewrite in_app_iff. simpl. split.
    + intros [H|[H|[]]]; auto.
    + intros [H|H]; auto.
Qed.

Lemma add_valid_placement_range (n : Z) (nm : string) (c : Coord) (s s' : CubeGrid) :
  in_bounds n c = true -> size s = n /\ origins_in_range n s ->
  add_valid_placement nm c s = Ok s' -> size s' = n /\ origins_in_range n s'.
Proof.
  intros Hc [Hsz Hs]. unfold add_valid_placement, dict_getitem.
  destruct (dict_get String.eqb nm (valid_placements s)) as [origins|] eqn:E;
    simpl; [|discriminate].
  intros H. injection H as <-. split; [exact Hsz|].
  intros nm' cs c' Hget Hin. simpl in Hget.
  rewrite (dict_get_set String.eqb string_eqb_iff) in Hget.
  destruct (String.eqb nm' nm) eqn:En.
  - injection Hget as <-. apply In_coord_set_add in Hin. destruct Hin as [->|Hin].
    + exact Hc.
    + apply (Hs nm origins c' E Hin).
  - apply (Hs nm' cs c' Hget Hin).
Qed.

Lemma valid_origins_of_range (n : Z) (brick : Brick) (rots : list (Ref Brick))
  (s s' : CubeGrid) :
  size s = n /\ origins_in_range n s ->
  valid_origins_of brick rots s = Ok s' -> size s' = n /\ origins_in_range n s'.
Proof.
  intros Hs. unfold valid_origins_of. destruct Hs as [Hsz Hs]. rewrite Hsz.
  apply (rfold_inv (fun st => size st = n /\ origins_in_range n st)); [auto|].
  intros x s1 s1' Hx Hs1.
  apply (rfold_inv (fun st => size st = n /\ origins_in_range n st)); [auto|].
  intros y s2 s2' Hy Hs2.
  apply (rfold_inv (fun st => size st = n /\ origins_in_range n st)); [auto|].
  intros z s3 s3' Hz Hs3.
  destruct (some_rotation_fits s3 (x, y, z) rots) as [[|]|e]; simpl.
  - apply add_valid_placement_range; [|exact Hs3].
    apply In_py_range in Hx, Hy, Hz. apply in_bounds_spec. lia.
  - intros H. injection H as <-. exact Hs3.
  - discriminate.
Qed.

Lemma build_cache_range (n : Z) (brick : Brick) (s s' : CubeGrid) (h h' : nat) :
  size s = n /\ origins_in_range n s ->
  build_cache brick (s, h) = Ok (s', h') -> size s' = n /\ origins_in_range n s'.
Proof.
  intros Hs. unfold build_cache.
  destruct (all_rotations_of brick h) as [[rots h1]|e]; simpl; [|discriminate].
  destruct (valid_origins_of brick rots _) as [s1|e] eqn:E; simpl; [|discriminate].
  intros H. injection H as <- <-.
  eapply valid_origins_of_range; [|exact E]. exact Hs.
Qed.

Lemma CubeGrid_init_range (n : Z) (s : CubeGrid) :
  CubeGrid_init n = Ok s -> origins_in_range n s.
Proof.
  unfold CubeGrid_init.
  destruct (np_zeros n) as [g|e] eqn:Ez; [|discriminate].
  rewrite default_bricks_eq. cbn [rbind].
  match goal with
  | |- context [rfold ?l build_cache ?acc] =>
      destruct (rfold l build_cache acc) as [[s1 h1]|e] eqn:E
  end; [|discriminate].
  intros H. injection H as <-.
  revert E.
  apply (rfold_inv (fun acc : CubeGrid * nat =>
           size (fst acc) = n /\ origins_in_range n (fst acc))).
  - simpl. split; [reflexivity|]. intros nm cs c Hget Hin. simpl in Hget.
    repeat match type of Hget with
    | (if ?b then _ else _) = _ => destruct b; [injection Hget as <-; destruct Hin|]
    end. discriminate.
  - intros b [s2 h2] [s3 h3] _ Hs2 Hrun.
    eapply build_cache_range; [exact Hs2|exact Hrun].
Qed.

Lemma place_keeps_size (b : Brick) (pos : Coord) : keeps size (place b pos).
Proof. unfold place. frame. Qed.

Lemma remove_keeps_size (pid : Z) : keeps size (remove pid).
Proof. unfold remove. frame. Qed.

Lemma move_keeps_size (pid : Z) (new_pos : Coord) : keeps size (move pid new_pos).
Proof. unfold move. frame. Qed.

Lemma reachable_origins (s : CubeGrid) :
  reachable s -> origins_in_range (size s) s.
Proof.
  assert (Hc : forall s s' : CubeGrid,
            size s' = size s -> caches s' = caches s ->
            origins_in_range (size s) s -> origins_in_range (size s') s').
  { intros s0 s1 Hsz Hca H. unfold caches in Hca. injection Hca as Hvp _.
    unfold origins_in_range. rewrite Hsz, Hvp. exact H. }
  induction 1 as [n s Hinit|s s' b pos pid _ IH Hb Hrun|s s' pid _ IH Hrun
                 |s s' pid new_pos _ IH Hrun|s s' _ IH Hrun].
  - pose proof (CubeGrid_init_core _ _ Hinit) as (_ & -> & _).
    apply CubeGrid_init_range, Hinit.
  - apply (Hc s); [| |exact IH].
    + pose proof (place_keeps_size b pos s) as E. rewrite Hrun in E. exact E.
    + pose proof (place_keeps_caches b pos s) as E. rewrite Hrun in E. exact E.
  - apply (Hc s); [| |exact IH].
    + pose proof (remove_keeps_size pid s) as E. rewrite Hrun in E. exact E.
    + pose proof (remove_keeps_caches pid s) as E. rewrite Hrun in E. exact E.
  - apply (Hc s); [| |exact IH].
    + pose proof (move_keeps_size pid new_pos s) as E. rewrite Hrun in E. exact E.
    + pose proof (move_keeps_caches pid new_pos s) as E. rewrite Hrun in E. exact E.
  - rewrite clear_runs in Hrun. injection Hrun as <-. exact IH.
Qed.

(** ** Proofs: the infeasibility oracle *)

(** The first loop: the cached origins whose cell is empty. *)
Lemma empty_origins_loop (s : CubeGrid) (l acc : list Coord) :
  grid_ok s -> (forall c, In c l -> in_bounds (size s) c = true) ->
  exists empties,
    rfold l
      (fun place empties =>
         let? occ := grid_get (grid s) place in
         Ok (if occ =? 0 then coord_set_add place empties else empties)) acc
    = Ok empties
    /\ forall c, In c empties <->
         In c acc \/ (In c l /\ grid_get (grid s) c = Ok 0).
Proof.
  intros Hok. revert acc. induction l as [|p l IH]; intros acc Hin.
  - exists acc. split; [reflexivity|]. intros c. simpl. tauto.
  - simpl. destruct (cell_total s p Hok (Hin p (or_introl eq_refl))) as (v & Hv).
    rewrite Hv. simpl.
    destruct (IH (if v =? 0 then coord_set_add p acc else acc)) as (em & Hrun & Hiff).
    { intros c Hc. apply Hin. right. exact Hc. }
    exists em. split; [exact Hrun|]. intros c. rewrite Hiff.
    destruct (v =? 0) eqn:Ev.
    + apply Z.eqb_eq in Ev. subst v. rewrite In_coord_set_add. split.
      * intros [[->|H]|[H1 H2]]; auto.
      * intros [H|[[->|H1] H2]]; auto.
    + apply Z.eqb_neq in Ev. split.
      * intros [H|[H1 H2]]; auto.
      * intros [H|[[->|H1] H2]]; auto. rewrite Hv in H2. injection H2 as ->.
        contradiction.
Qed.

Lemma empty_origins_spec (s : CubeGrid) (brick : Brick) :
  grid_ok s -> origins_in_range (size s) s ->
  exists empties,
    empty_origins s brick = Ok empties
    /\ forall c, In c empties <->
         In c (dict_get_default String.eqb (name brick) [] (valid_placements s))
         /\ grid_get (grid s) c = Ok 0.
Proof.
  intros Hok Hrange. unfold empty_origins.
  destruct (empty_origins_loop s
              (dict_get_default String.eqb (name brick) [] (valid_placements s)) []
              Hok) as (em & Hrun & Hiff).
  - unfold dict_get_default.
    destruct (dict_get String.eqb (name brick) (valid_placements s)) as [cs|] eqn:E.
    + intros c Hc. apply (Hrange _ _ _ E Hc).
    + intros c [].
  - exists em. split; [exact Hrun|]. intros c. rewrite Hiff. simpl. tauto.
Qed.

Lemma some_rotation_fits_spec (s : CubeGrid) (e : Coord) (rots : list (Ref Brick)) :
  grid_ok s ->
  exists r, some_rotation_fits s e rots = Ok r
    /\ (r = false <-> forall b, In b rots -> can_place s (deref b) e = Ok false).
Proof.
  intros Hok. induction rots as [|b rots (r & Hr & Hiff)].
  - exists false. split; [reflexivity|]. split; [intros _ b []|reflexivity].
  - simpl. destruct (can_place_total s (deref b) e Hok) as [Hno|[Hyes _]].
    + rewrite Hno. simpl. exists r. split; [exact Hr|]. rewrite Hiff. split.
      * intros H b0 [<-|Hb0]; [exact Hno|apply H, Hb0].
      * intros H b0 Hb0. apply H. right. exact Hb0.
    + rewrite Hyes. simpl. exists true. split; [reflexivity|].
      split; [discriminate|]. intros H.
      rewrite (H b (or_introl eq_refl)) in Hyes. discriminate.
Qed.

Lemma some_origin_blocked_spec (s : CubeGrid) (rots : list (Ref Brick))
  (empties : list Coord) :
  grid_ok s ->
  exists r, some_origin_blocked s rots empties = Ok r
    /\ (r = true <->
        exists e, In e empties
          /\ forall b, In b rots -> can_place s (deref b) e = Ok false).
Proof.
  intros Hok. induction empties as [|e empties (r & Hr & Hiff)].
  - exists false. split; [reflexivity|]. split; [discriminate|intros (e & [] & _)].
  - simpl. destruct (some_rotation_fits_spec s e rots Hok) as (ok & Hok' & Hfit).
    rewrite Hok'. simpl. destruct ok; simpl.
    + exists r. split; [exact Hr|]. rewrite Hiff. split.
      * intros (e0 & H1 & H2). exists e0. split; [right; exact H1|exact H2].
      * intros (e0 & [<-|H1] & H2).
        -- apply Hfit in H2. discriminate.
        -- exists e0. auto.
    + exists true. split; [reflexivity|]. split; [|reflexivity].
      intros _. exists e. split; [left; reflexivity|]. apply Hfit. reflexivity.
Qed.

(** The oracle on a well-formed grid whose cached origins are in range: it
    returns, and it returns true exactly when some cached origin that is
    empty admits no cached orientation. *)
Lemma can_not_place_somewhere_spec (s : CubeGrid) (brick : Brick) :
  grid_ok s -> origins_in_range (size s) s ->
  exists r, can_not_place_somewhere s brick = Ok r
    /\ (r = true <->
        exists e,
          In e (dict_get_default String.eqb (name brick) [] (valid_placements s))
          /\ grid_get (grid s) e = Ok 0
          /\ forall b,
               In b (dict_get_default String.eqb (name brick) [] (valid_rotations s)) ->
               can_place s (deref b) e = Ok false).
Proof.
  intros Hok Hrange.
  destruct (empty_origins_spec s brick Hok Hrange) as (em & Hem & Hiff).
  unfold can_not_place_somewhere. rewrite Hem. cbn [rbind].
  destruct (some_origin_blocked_spec s
              (dict_get_default String.eqb (name brick) [] (valid_rotations s)) em Hok)
    as (r & Hr & Hblock).
  assert (Hgoal : r = true <->
            exists e,
              In e (dict_get_default String.eqb (name brick) [] (valid_placements s))
              /\ grid_get (grid s) e = Ok 0
              /\ forall b,
                   In b (dict_get_default String.eqb (name brick) [] (valid_rotations s)) ->
                   can_place s (deref b) e = Ok false).
  { rewrite Hblock. split.
    - intros (e & H1 & H2). apply Hiff in H1. exists e. tauto.
    - intros (e & H1 & H2 & H3). exists e. split; [apply Hiff; auto|exact H3]. }
  destruct em as [|e0 em'].
  - exists false. split; [reflexivity|]. rewrite <- Hgoal.
    simpl in Hr. injection Hr as <-. reflexivity.
  - exists r. split; [exact Hr|exact Hgoal].
Qed.

(** ** Proofs: the oracle on an empty and on a full grid *)

Lemma rfold_count {A : Type} (P : A -> Prop) (l : list A)
  (f : A -> Z -> result Z) (n n' : Z) :
  (forall a m m', In a l -> f a m = Ok m' -> m <= m' /\ (m' = m -> P a)) ->
  rfold l f n = Ok n' -> n <= n' /\ (n' = n -> forall a, In a l -> P a).
Proof.
  revert n. induction l as [|a l IH]; intros n Hf Hrun; simpl in Hrun.
  - injection Hrun as <-. split; [lia|]. intros _ a [].
  - destruct (f a n) as [m|e] eqn:E; simpl in Hrun; [|discriminate].
    destruct (Hf a n m (or_introl eq_refl) E) as [Hle Ha].
    destruct (IH m) as [Hle' Hrest]; [|exact Hrun|].
    { intros a0 k k' Ha0. apply Hf. right. exact Ha0. }
    split; [lia|]. intros Heq a0 [<-|Ha0].
    + apply Ha. lia.
    + apply Hrest; [lia|exact Ha0].
Qed.

(** [num_left] returning 0 means that no cell of the grid is empty. *)
Lemma num_left_zero (s : CubeGrid) (c : Coord) :
  num_left s = Ok 0 -> in_bounds (size s) c = true -> grid_get (grid s) c <> Ok 0.
Proof.
  intros Hnum Hc. destruct c as [[x y] z].
  apply in_bounds_spec in Hc. destruct Hc as (Hx & Hy & Hz).
  unfold num_left in Hnum.
  apply (rfold_count (fun x => forall y z, In y (py_range (size s)) ->
            In z (py_range (size s)) -> grid_get (grid s) (x, y, z) <> Ok 0)) in Hnum.
  - destruct Hnum as [_ H]. apply (H eq_refl x); apply In_py_range; assumption.
  - intros x0 m m' _ Hrun.
    apply (rfold_count (fun y => forall z, In z (py_range (size s)) ->
              grid_get (grid s) (x0, y, z) <> Ok 0)) in Hrun.
    + destruct Hrun as [Hle H]. split; [exact Hle|]. intros E y0 z0 Hy0. apply (H E y0 Hy0).
    + intros y0 k k' _ Hrun'.
      apply (rfold_count (fun z => grid_get (grid s) (x0, y0, z) <> Ok 0)) in Hrun'.
      * exact Hrun'.
      * intros z0 j j' _. destruct (grid_get (grid s) (x0, y0, z0)) as [v|e];
          simpl; [|discriminate].
        destruct (v =? 0) eqn:Ev; intros H; injection H as <-.
        -- split; [lia|]. lia.
        -- split; [lia|]. intros _ H. injection H as ->. discriminate.
Qed.

Lemma place_all_reachable (b : Brick) (l : list Coord) (s s' : CubeGrid) :
  Brick_ok b -> reachable s -> place_all b l s = Ok s' -> reachable s'.
Proof.
  intros Hb. revert s. induction l as [|pos l IH]; intros s Hr; simpl.
  - intros H. injection H as <-. exact Hr.
  - destruct (place b pos s) as [[pid|e] s1] eqn:E; [|discriminate].
    apply IH. eapply reach_place; eassumption.
Qed.

(** A 6x6x6 grid can be filled completely by 54 calls of [place]; the
    resulting state is reachable and has no empty cell, and the oracle
    answers false on it. *)
Lemma full_grid6_facts :
  exists s0 s,
    CubeGrid_init 6 = Ok s0 /\ place_all O_brick O_tiling s0 = Ok s
    /\ reachable s /\ num_left s = Ok 0
    /\ can_not_place_somewhere s T_brick = Ok false.
Proof.
  assert (H1 : (let? s0 := CubeGrid_init 6 in
                let? s := place_all O_brick O_tiling s0 in num_left s) = Ok 0)
    by (vm_compute; reflexivity).
  assert (H2 : (let? s0 := CubeGrid_init 6 in
                let? s := place_all O_brick O_tiling s0 in
                can_not_place_somewhere s T_brick) = Ok false)
    by (vm_compute; reflexivity).
  destruct (CubeGrid_init 6) as [s0|e] eqn:E0; [|discriminate H1].
  cbn [rbind] in H1, H2.
  destruct (place_all O_brick O_tiling s0) as [s|e] eqn:E1; [|discriminate H1].
  cbn [rbind] in H1, H2.
  exists s0, s. split; [reflexivity|]. split; [exact E1|].
  split; [|split; [exact H1|exact H2]].
  apply (place_all_reachable O_brick O_tiling s0 s).
  - split; [reflexivity|discriminate].
  - eapply reach_init, E0.
  - exact E1.
Qed.

(** C1 (as amended): on a freshly constructed, empty 6x6x6 grid the oracle
    answers false for the T template; on every reachable state whose cells
    are all occupied ([num_left] is 0) it answers false as well, for there
    is no empty cached origin; and on every reachable state it returns
    true exactly when some cached origin of the brick's name that is
    currently empty admits no cached orientation passing [can_place]. *)
Theorem can_not_place_somewhere_contract (s : CubeGrid) (brick : Brick) :
  reachable s ->
  (exists s0, CubeGrid_init 6 = Ok s0 /\ num_left s0 = Ok 216
     /\ can_not_place_somewhere s0 T_brick = Ok false)
  /\ (num_left s = Ok 0 -> can_not_place_somewhere s brick = Ok false)
  /\ (exists r, can_not_place_somewhere s brick = Ok r
      /\ (r = true <->
          exists e,
            In e (dict_get_default String.eqb (name brick) [] (valid_placements s))
            /\ grid_get (grid s) e = Ok 0
            /\ forall b,
                 In b (dict_get_default String.eqb (name brick) []
                         (valid_rotations s)) ->
                 can_place s (deref b) e = Ok false)).
Proof.
  intros Hr.
  pose proof (inv_grid _ (reachable_Inv _ Hr)) as Hok.
  pose proof (reachable_origins _ Hr) as Hrange.
  destruct (can_not_place_somewhere_spec s brick Hok Hrange) as (r & Hrun & Hiff).
  split; [|split].
  - assert (H1 : (let? s0 := CubeGrid_init 6 in num_left s0) = Ok 216)
      by (vm_compute; reflexivity).
    assert (H2 : (let? s0 := CubeGrid_init 6 in can_not_place_somewhere s0 T_brick)
                 = Ok false) by (vm_compute; reflexivity).
    destruct (CubeGrid_init 6) as [s0|e]; [|discriminate H1].
    cbn [rbind] in H1, H2. exists s0. auto.
  - intros Hfull. rewrite Hrun. destruct r; [|reflexivity].
    destruct Hiff as [Hiff _]. destruct (Hiff eq_refl) as (e & He & Hzero & _).
    exfalso. apply (num_left_zero s e Hfull); [|exact Hzero].
    unfold dict_get_default in He.
    destruct (dict_get String.eqb (name brick) (valid_placements s)) as [cs|] eqn:E.
    + apply (Hrange _ _ _ E He).
    + destruct He.
  - exists r. split; [exact Hrun|exact Hiff].
Qed.

Lemma can_not_place_somewhere_contract_witness :
  exists s, reachable s /\ num_left s = Ok 0
    /\ can_not_place_somewhere s T_brick = Ok false.
Proof.
  destruct full_grid6_facts as (s0 & s & _ & _ & Hr & Hfull & _).
  exists s. split; [exact Hr|]. split; [exact Hfull|].
  apply (can_not_place_somewhere_contract s T_brick Hr). exact Hfull.
Defined.

(** The claim as stated fails: a reachable 6x6x6 grid with no empty cell
    on which the oracle does not answer true for the T template. *)
Lemma full_grid_oracle_false :
  ~ (forall s, reachable s -> num_left s = Ok 0 ->
       can_not_place_somewhere s T_brick = Ok true).
Proof.
  intros H. destruct full_grid6_facts as (s0 & s & _ & _ & Hr & Hfull & Hfalse).
  rewrite (H s Hr Hfull) in Hfalse. discriminate.
Qed.

(** ** Proofs: the caches after a load *)

Lemma load_sets_size (data : Snapshot) (s : CubeGrid) :
  size (snd (load_from_file data s)) = default 6 (snap_size data).
Proof.
  unfold load_from_file.
  set (n := default 6 (snap_size data)).
  match goal with
  | |- size (snd (bind (modify (set_size n)) ?k s)) = _ =>
      change (size (snd (k tt (set_size n s))) = n);
      assert (Hk : keeps size (k tt)) by (cbn beta; frame)
  end.
  rewrite Hk. reflexivity.
Qed.

(** C4 (as amended): [load_from_file] sets the size to the one the
    document announces and leaves [valid_placements] and
    [valid_rotations] as they were, whatever the document, whether the new
    size equals the old one or not, and whether the load returns or
    raises; the caches are not recomputed for a new size. *)
Theorem load_never_touches_caches (data : Snapshot) (s : CubeGrid) :
  size (snd (load_from_file data s)) = default 6 (snap_size data)
  /\ valid_placements (snd (load_from_file data s)) = valid_placements s
  /\ valid_rotations (snd (load_from_file data s)) = valid_rotations s.
Proof.
  split; [apply load_sets_size|].
  pose proof (load_keeps_caches data s) as E. unfold caches in E.
  injection E as E1 E2. split; assumption.
Qed.

(** The claim as stated fails: a 6x6x6 grid that loads a document of size
    3 has size 3 afterwards, and its cache of origins is not the one a
    grid constructed with size 3 has. *)
Lemma load_smaller_grid_stale_caches :
  exists s s' fresh,
    CubeGrid_init 6 = Ok s
    /\ load_from_file empty_doc3 s = (Ok tt, s')
    /\ size s' = 3
    /\ CubeGrid_init 3 = Ok fresh
    /\ valid_placements s' <> valid_placements fresh.
Proof.
  assert (H : (let? s := CubeGrid_init 6 in
               let? f := CubeGrid_init 3 in
               Ok (length (dict_get_default String.eqb "T" [] (valid_placements s)),
                   length (dict_get_default String.eqb "T" [] (valid_placements f))))
              = Ok (196%nat, 16%nat)) by (vm_compute; reflexivity).
  destruct (CubeGrid_init 6) as [s|e]; [|discriminate H].
  destruct (CubeGrid_init 3) as [f|e]; [|discriminate H].
  cbn [rbind] in H. injection H as H6 H3.
  exists s, (snd (load_from_file empty_doc3 s)), f.
  split; [reflexivity|]. split; [reflexivity|]. split; [reflexivity|].
  split; [reflexivity|].
  intros Heq. change (valid_placements s = valid_placements f) in Heq.
  rewrite Heq, H3 in H6. discriminate.
Qed.

(** ** Proofs: the cache of orientations *)

(** C2 (what the code does): on a constructed 6x6x6 grid every
    template's cache of orientations has 64 elements, one per rotation
    triple; for the I template the elements added for (0,0,0) and for
    (1,0,0) are two elements with the same cubes, and the one added for
    (0,0,2) has the same cube set in another order. *)
Theorem valid_rotations_not_deduplicated :
  (let? s := CubeGrid_init 6 in
   let rots := dict_get_default String.eqb "I" [] (valid_rotations s) in
   Ok (map (fun kv : string * list (Ref Brick) => (fst kv, length (snd kv)))
         (valid_rotations s),
       seen <$> rots !! 0%nat, seen <$> rots !! 16%nat, seen <$> rots !! 2%nat))
  = Ok ([("T", 64%nat); ("I", 64%nat); ("L", 64%nat); ("O", 64%nat); ("S3D", 64%nat)],
        Some (129%nat, [(0, 0, 0); (1, 0, 0); (2, 0, 0); (3, 0, 0)]),
        Some (161%nat, [(0, 0, 0); (1, 0, 0); (2, 0, 0); (3, 0, 0)]),
        Some (133%nat, [(3, 0, 0); (2, 0, 0); (1, 0, 0); (0, 0, 0)])).
Proof.
  vm_compute. reflexivity.
Qed.

(** ** Proofs: the 'between' query *)

(** C3 (what the code does): [CubeGrid] has no attribute
    [can_place_somewhere]; the handler of the GUI, which defines a 'T'
    brick, raises AttributeError where it evaluates the call. *)
Theorem between_query_is_missing :
  CubeGrid_getattr "can_place_somewhere" = Raise AttributeError
  /\ on_check_T_between template_bricks = Raise AttributeError
  /\ (forall app_bricks : list (string * Brick),
        on_check_T_between app_bricks = Raise AttributeError
        \/ on_check_T_between app_bricks = Ok None).
Proof.
  split; [reflexivity|]. split; [reflexivity|].
  intros app_bricks. unfold on_check_T_between.
  destruct (dict_mem String.eqb "T" app_bricks); [left|right]; reflexivity.
Qed.

(** ** Instances on a concrete grid *)

(** A 6x6x6 grid with one 2x2 square placed at the origin. *)
Lemma one_square_facts :
  exists s,
    reachable s /\ engine_state s
    /\ dict_mem Z.eqb 1 (placed s) = true
    /\ can_move s 1 (1, 0, 0) = Ok true
    /\ can_place s O_brick (0, 0, 1) = Ok true.
Proof.
  assert (H : (let? s0 := CubeGrid_init 6 in
               let '(r, s) := place O_brick (0, 0, 0) s0 in
               let? _ := r in
               Ok (dict_mem Z.eqb 1 (placed s), can_move s 1 (1, 0, 0),
                   can_place s O_brick (0, 0, 1)))
              = Ok (true, Ok true, Ok true)) by (vm_compute; reflexivity).
  destruct (CubeGrid_init 6) as [s0|e] eqn:E0; [|discriminate H].
  cbn [rbind] in H.
  pose proof (es_place s0 O_brick (0, 0, 0) (es_init 6 s0 E0)) as Hes.
  destruct (place O_brick (0, 0, 0) s0) as [[pid|e] s] eqn:E1; [|discriminate H].
  cbn [rbind] in H. injection H as H1 H2 H3.
  exists s. split; [|split; [exact Hes|auto]].
  apply (reach_place s0 s O_brick (0, 0, 0) pid).
  - eapply reach_init, E0.
  - split; [reflexivity|discriminate].
  - exact E1.
Qed.

(** The same state: its counter and two places for a second square. *)
Lemma one_square_counter :
  exists s,
    reachable s /\ next_id s = 2
    /\ can_place s O_brick (0, 0, 1) = Ok true
    /\ can_place s O_brick (1, 0, 0) = Ok false.
Proof.
  assert (H : (let? s0 := CubeGrid_init 6 in
               let '(r, s) := place O_brick (0, 0, 0) s0 in
               let? _ := r in
               Ok (next_id s, can_place s O_brick (0, 0, 1),
                   can_place s O_brick (1, 0, 0)))
              = Ok (2, Ok true, Ok false)) by (vm_compute; reflexivity).
  destruct (CubeGrid_init 6) as [s0|e] eqn:E0; [|discriminate H].
  cbn [rbind] in H.
  destruct (place O_brick (0, 0, 0) s0) as [[pid|e] s] eqn:E1; [|discriminate H].
  cbn [rbind] in H. injection H as H1 H2 H3.
  exists s. split; [|auto].
  apply (reach_place s0 s O_brick (0, 0, 0) pid).
  - eapply reach_init, E0.
  - split; [reflexivity|discriminate].
  - exact E1.
Qed.

Lemma reachable_grid_invariant_witness :
  exists s, reachable s /\ grid_invariant s.
Proof.
  destruct one_square_facts as (s & Hr & _).
  exists s. split; [exact Hr|]. apply (reachable_grid_invariant s Hr).
Defined.

Lemma move_all_or_nothing_witness :
  exists s s', reachable s /\ move 1 (1, 0, 0) s = (Ok tt, s').
Proof.
  destruct one_square_facts as (s & Hr & _ & Hmem & Hmv & _).
  destruct (move_all_or_nothing s 1 (1, 0, 0) Hr) as (_ & _ & _ & _ & Hrun).
  destruct (Hrun Hmem Hmv) as (s' & Hs').
  exists s, s'. split; [exact Hr|exact Hs'].
Defined.

Lemma save_load_roundtrip_witness :
  exists s, reachable s /\ load_from_file (to_dict s) s = (Ok tt, s).
Proof.
  destruct one_square_facts as (s & Hr & _).
  exists s. split; [exact Hr|]. apply (save_load_roundtrip s s Hr).
Defined.


Lemma unknown_name_queries_witness :
  exists s,
    engine_state s
    /\ validate_placements s (mkBrick [(0, 0, 0); (1, 0, 0); (2, 0, 0); (2, 0, 1)] "brick")
       = Ok []
    /\ can_not_place_somewhere s
         (mkBrick [(0, 0, 0); (1, 0, 0); (2, 0, 0); (2, 0, 1)] "brick") = Ok false.
Proof.
  destruct one_square_facts as (s & _ & Hes & _).
  exists s. split; [exact Hes|].
  apply (unknown_name_queries s _ Hes). simpl.
  intros [H|[H|[H|[H|[H|[]]]]]]; discriminate H.
Defined.

(** ** Proofs: algebra of the rotation *)

Lemma rot_x_4 (p : Coord) : rot_x (rot_x (rot_x (rot_x p))) = p.
Proof. destruct p as [[x y] z]. simpl. rewrite !Z.opp_involutive. reflexivity. Qed.

Lemma rot_y_4 (p : Coord) : rot_y (rot_y (rot_y (rot_y p))) = p.
Proof. destruct p as [[x y] z]. simpl. rewrite !Z.opp_involutive. reflexivity. Qed.

Lemma rot_z_4 (p : Coord) : rot_z (rot_z (rot_z (rot_z p))) = p.
Proof. destruct p as [[x y] z]. simpl. rewrite !Z.opp_involutive. reflexivity. Qed.

Lemma mod4_cases (a : Z) : a mod 4 = 0 \/ a mod 4 = 1 \/ a mod 4 = 2 \/ a mod 4 = 3.
Proof. pose proof (step_count_range a). lia. Qed.

(** [r mod 4] applications of a step of order 4. *)
Lemma turn_add (step : Coord -> Coord) (a b : Z) (p : Coord) :
  (forall q, step (step (step (step q))) = q) ->
  for_range ((a + b) mod 4) (fun _ q => step q) p
  = for_range (b mod 4) (fun _ q => step q) (for_range (a mod 4) (fun _ q => step q) p).
Proof.
  intros H4. rewrite Z.add_mod by lia.
  destruct (mod4_cases a) as [Ha|[Ha|[Ha|Ha]]];
    destruct (mod4_cases b) as [Hb|[Hb|[Hb|Hb]]];
    rewrite Ha, Hb; unfold for_range, py_range; simpl; rewrite ?H4; reflexivity.
Qed.

Lemma turn_0 (step : Coord -> Coord) (p : Coord) :
  for_range (0 mod 4) (fun _ q => step q) p = p.
Proof. reflexivity. Qed.

Lemma rotate_point_unfold (p : Coord) (rx ry rz : Z) :
  rotate_point p rx ry rz
  = for_range (rz mod 4) (fun _ q => rot_z q)
      (for_range (ry mod 4) (fun _ q => rot_y q)
         (for_range (rx mod 4) (fun _ q => rot_x q) p)).
Proof. reflexivity. Qed.

(** X1: quarter turns about one axis add up, for all integer step counts:
    turning by [a] and then by [b] about the same axis is turning by
    [a + b]; a step count matters only modulo 4; and a call with three
    step counts is the X turn, then the Y turn, then the Z turn. *)
Theorem rotate_point_angles_add (p : Coord) (a b rx ry rz : Z) :
  rotate_point (rotate_point p a 0 0) b 0 0 = rotate_point p (a + b) 0 0
  /\ rotate_point (rotate_point p 0 a 0) 0 b 0 = rotate_point p 0 (a + b) 0
  /\ rotate_point (rotate_point p 0 0 a) 0 0 b = rotate_point p 0 0 (a + b)
  /\ rotate_point p (rx + 4 * a) (ry + 4 * b) rz = rotate_point p rx ry rz
  /\ rotate_point p rx ry (rz + 4 * a) = rotate_point p rx ry rz
  /\ rotate_point (rotate_point (rotate_point p rx 0 0) 0 ry 0) 0 0 rz
     = rotate_point p rx ry rz.
Proof.
  rewrite !rotate_point_unfold. rewrite !turn_0.
  rewrite (turn_add rot_x a b p rot_x_4).
  rewrite (turn_add rot_y a b p rot_y_4).
  rewrite (turn_add rot_z a b p rot_z_4).
  replace ((rx + 4 * a) mod 4) with (rx mod 4)
    by (rewrite (Z.mul_comm 4 a), Z.mod_add by lia; reflexivity).
  replace ((ry + 4 * b) mod 4) with (ry mod 4)
    by (rewrite (Z.mul_comm 4 b), Z.mod_add by lia; reflexivity).
  replace ((rz + 4 * a) mod 4) with (rz mod 4)
    by (rewrite (Z.mul_comm 4 a), Z.mod_add by lia; reflexivity).
  repeat split; reflexivity.
Qed.

Lemma turn_back (step : Coord -> Coord) (r : Z) (p : Coord) :
  (forall q, step (step (step (step q))) = q) ->
  for_range ((- r) mod 4) (fun _ q => step q)
    (for_range (r mod 4) (fun _ q => step q) p) = p.
Proof.
  intros H4. rewrite <- (turn_add step r (- r) p H4).
  replace (r + - r) with 0 by lia. reflexivity.
Qed.

(** X2: every rotation can be undone: turning back about Z, then about Y,
    then about X, by the negated step counts, gives the point back; so
    [rotate_point] with fixed step counts never maps two points to one. *)
Theorem rotate_point_undo (p q : Coord) (rx ry rz : Z) :
  rotate_point
    (rotate_point (rotate_point (rotate_point p rx ry rz) 0 0 (- rz)) 0 (- ry) 0)
    (- rx) 0 0 = p
  /\ (rotate_point p rx ry rz = rotate_point q rx ry rz <-> p = q).
Proof.
  assert (Hundo : forall p0,
    rotate_point
      (rotate_point (rotate_point (rotate_point p0 rx ry rz) 0 0 (- rz)) 0 (- ry) 0)
      (- rx) 0 0 = p0).
  { intros p0. rewrite !rotate_point_unfold. rewrite !turn_0.
    rewrite (turn_back rot_z rz _ rot_z_4).
    rewrite (turn_back rot_y ry _ rot_y_4).
    apply (turn_back rot_x rx _ rot_x_4). }
  split; [apply Hundo|]. split; [|intros ->; reflexivity].
  intros H. rewrite <- (Hundo p), <- (Hundo q), H. reflexivity.
Qed.

Lemma for_range_preserves {A : Type} (P : A -> Prop) (step : A -> A) (n : Z) (a : A) :
  (forall x, P x -> P (step x)) -> P a -> P (for_range n (fun _ x => step x) a).
Proof.
  intros Hs. unfold for_range. generalize (py_range n) as l. intros l. revert a.
  induction l as [|i l IH]; intros a Ha; simpl; [exact Ha|].
  apply IH, Hs, Ha.
Qed.

Lemma for_range_pair (step : Coord -> Coord) (n : Z) (p q : Coord) :
  (forall x y, step (coord_add x y) = coord_add (step x) (step y)) ->
  for_range n (fun _ x => step x) (coord_add p q)
  = coord_add (for_range n (fun _ x => step x) p) (for_range n (fun _ x => step x) q).
Proof.
  intros Hs. unfold for_range. generalize (py_range n) as l. intros l. revert p q.
  induction l as [|i l IH]; intros p q; simpl; [reflexivity|].
  rewrite Hs. apply IH.
Qed.

Lemma for_range_norm2 (step : Coord -> Coord) (n : Z) (p : Coord) :
  (forall x, norm2 (step x) = norm2 x) ->
  norm2 (for_range n (fun _ x => step x) p) = norm2 p.
Proof.
  intros Hs. apply (for_range_preserves (fun x => norm2 x = norm2 p)); [|reflexivity].
  intros x Hx. rewrite Hs. exact Hx.
Qed.

(** X3: a rotation is rigid about the origin: it distributes over the sum
    of two coordinates, fixes the origin and keeps the squared distance
    from the origin, hence the squared distance between any two points. *)
Theorem rotate_point_rigid (p q : Coord) (rx ry rz : Z) :
  rotate_point (coord_add p q) rx ry rz
    = coord_add (rotate_point p rx ry rz) (rotate_point q rx ry rz)
  /\ rotate_point (0, 0, 0) rx ry rz = (0, 0, 0)
  /\ norm2 (rotate_point p rx ry rz) = norm2 p.
Proof.
  assert (Lx : forall x y, rot_x (coord_add x y) = coord_add (rot_x x) (rot_x y))
    by (intros [[? ?] ?] [[? ?] ?]; simpl; repeat (f_equal; try lia)).
  assert (Ly : forall x y, rot_y (coord_add x y) = coord_add (rot_y x) (rot_y y))
    by (intros [[? ?] ?] [[? ?] ?]; simpl; repeat (f_equal; try lia)).
  assert (Lz : forall x y, rot_z (coord_add x y) = coord_add (rot_z x) (rot_z y))
    by (intros [[? ?] ?] [[? ?] ?]; simpl; repeat (f_equal; try lia)).
  rewrite !rotate_point_unfold. split; [|split].
  - rewrite (for_range_pair rot_x _ _ _ Lx), (for_range_pair rot_y _ _ _ Ly).
    apply (for_range_pair rot_z _ _ _ Lz).
  - apply (for_range_preserves (fun x => x = (0, 0, 0))); [intros x ->; reflexivity|].
    apply (for_range_preserves (fun x => x = (0, 0, 0))); [intros x ->; reflexivity|].
    apply (for_range_preserves (fun x => x = (0, 0, 0))); [intros x ->; reflexivity|].
    reflexivity.
  - rewrite (for_range_norm2 rot_z), (for_range_norm2 rot_y), (for_range_norm2 rot_x);
      try reflexivity; intros [[x y] z]; simpl; lia.
Qed.

(** ** Proofs: bricks *)

Lemma py_min_spec (x : Z) (xs : list Z) :
  In (py_min x xs) (x :: xs) /\ forall y, In y (x :: xs) -> py_min x xs <= y.
Proof.
  unfold py_min. revert x. induction xs as [|a xs IH]; intros x; simpl.
  - split; [left; reflexivity|]. intros y [<-|[]]. lia.
  - destruct (IH (Z.min x a)) as [Hin Hle]. split.
    + destruct Hin as [H|H]; [|right; right; exact H].
      rewrite <- H. destruct (Z.min_spec x a) as [[_ ->]|[_ ->]]; auto.
    + intros y [<-|[<-|Hy]].
      * etransitivity; [apply Hle; left; reflexivity|]. lia.
      * etransitivity; [apply Hle; left; reflexivity|]. lia.
      * apply Hle. right. exact Hy.
Qed.

Lemma py_min_unique (x m : Z) (xs : list Z) :
  In m (x :: xs) -> (forall y, In y (x :: xs) -> m <= y) -> py_min x xs = m.
Proof.
  intros Hin Hle. destruct (py_min_spec x xs) as [Hin' Hle'].
  specialize (Hle _ Hin'). specialize (Hle' _ Hin). lia.
Qed.

Lemma py_min_shift (x t : Z) (xs : list Z) :
  py_min (x + t) (map (fun y => y + t) xs) = py_min x xs + t.
Proof.
  unfold py_min. revert x. induction xs as [|a xs IH]; intros x; simpl; [reflexivity|].
  rewrite Z.add_min_distr_r. apply IH.
Qed.

(** The least coordinates of a non-empty list of cubes, as [normalized]
    computes them. *)
Lemma normalized_unfold (b : Brick) (c0 : Coord) (rest : list Coord) :
  cubes b = c0 :: rest ->
  normalized b
  = Brick_init
      (map (fun c => coord_sub c
                       (py_min (cx c0) (map cx rest), py_min (cy c0) (map cy rest),
                        py_min (cz c0) (map cz rest)))
         (cubes b))
      (name b).
Proof.
  intros H. unfold normalized. rewrite H. destruct c0 as [[x0 y0] z0].
  f_equal. apply map_ext. intros [[x y] z]. reflexivity.
Qed.

Lemma Brick_init_ok (cs : list Coord) (nm : string) :
  length cs = 4%nat ->
  exists b, Brick_init cs nm = Ok b /\ cubes b = cs /\ Brick_ok b
    /\ (nm <> "" -> name b = nm).
Proof.
  intros Hlen. unfold Brick_init. rewrite Hlen. simpl.
  eexists. split; [reflexivity|]. simpl. split; [reflexivity|].
  destruct (String.eqb nm "") eqn:E.
  - split; [split; [exact Hlen|discriminate]|].
    apply String.eqb_eq in E. contradiction.
  - apply String.eqb_neq in E. split; [split; assumption|reflexivity].
Qed.

Lemma normalized_run (b : Brick) :
  Brick_ok b ->
  exists b' t,
    normalized b = Ok b' /\ Brick_ok b' /\ name b' = name b
    /\ cubes b' = map (fun c => coord_sub c t) (cubes b)
    /\ at_origin b'.
Proof.
  intros [Hlen Hname].
  assert (Hne : exists c0 rest, cubes b = c0 :: rest)
    by (destruct (cubes b) as [|c0 rest]; [discriminate|eauto]).
  destruct Hne as (c0 & rest & Hc).
  rewrite (normalized_unfold b c0 rest Hc).
  set (t := (py_min (cx c0) (map cx rest), py_min (cy c0) (map cy rest),
             py_min (cz c0) (map cz rest))).
  destruct (Brick_init_ok (map (fun c => coord_sub c t) (cubes b)) (name b))
    as (b' & Hb' & Hcubes & Hok & Hnm).
  { rewrite length_map. exact Hlen. }
  exists b', t. split; [exact Hb'|]. split; [exact Hok|].
  split; [apply Hnm, Hname|]. split; [exact Hcubes|].
  destruct (py_min_spec (cx c0) (map cx rest)) as [Hxin Hxle].
  destruct (py_min_spec (cy c0) (map cy rest)) as [Hyin Hyle].
  destruct (py_min_spec (cz c0) (map cz rest)) as [Hzin Hzle].
  change (cx c0 :: map cx rest) with (map cx (c0 :: rest)) in Hxin, Hxle.
  change (cy c0 :: map cy rest) with (map cy (c0 :: rest)) in Hyin, Hyle.
  change (cz c0 :: map cz rest) with (map cz (c0 :: rest)) in Hzin, Hzle.
  unfold at_origin. rewrite Hcubes, Hc. split; [|split; [|split]].
  - intros c Hin. apply in_map_iff in Hin. destruct Hin as (c1 & <- & Hc1).
    pose proof (Hxle _ (in_map cx _ _ Hc1)). pose proof (Hyle _ (in_map cy _ _ Hc1)).
    pose proof (Hzle _ (in_map cz _ _ Hc1)). unfold coord_sub, t, cx, cy, cz in *.
    simpl in *. lia.
  - apply in_map_iff in Hxin. destruct Hxin as (c1 & Hm & Hc1).
    exists (coord_sub c1 t).
    split; [apply (in_map (fun c => coord_sub c t)), Hc1|].
    unfold coord_sub, t, cx in *. simpl in *. lia.
  - apply in_map_iff in Hyin. destruct Hyin as (c1 & Hm & Hc1).
    exists (coord_sub c1 t).
    split; [apply (in_map (fun c => coord_sub c t)), Hc1|].
    unfold coord_sub, t, cy in *. simpl in *. lia.
  - apply in_map_iff in Hzin. destruct Hzin as (c1 & Hm & Hc1).
    exists (coord_sub c1 t).
    split; [apply (in_map (fun c => coord_sub c t)), Hc1|].
    unfold coord_sub, t, cz in *. simpl in *. lia.
Qed.

(** X4: on a brick object (4 cubes, a name) [normalized] returns; the
    result has the same name and the same cubes shifted by one offset, no
    cube has a negative coordinate, and on each axis some cube has
    coordinate 0. *)
Theorem normalized_at_origin (b : Brick) :
  Brick_ok b ->
  exists b' t,
    normalized b = Ok b' /\ Brick_ok b' /\ name b' = name b
    /\ cubes b' = map (fun c => coord_sub c t) (cubes b)
    /\ at_origin b'.
Proof. intros Hb. destruct (normalized_run b Hb) as (b' & t & H). exists b', t. exact H. Qed.

Lemma normalized_fixed (b : Brick) : Brick_ok b -> at_origin b -> normalized b = Ok b.
Proof.
  intros [Hlen Hname] (Hnn & (c1 & Hc1 & Hx) & (c2 & Hc2 & Hy) & (c3 & Hc3 & Hz)).
  assert (Hne : exists c0 rest, cubes b = c0 :: rest)
    by (destruct (cubes b) as [|c0 rest]; [discriminate|eauto]).
  destruct Hne as (c0 & rest & Hc).
  rewrite (normalized_unfold b c0 rest Hc). rewrite Hc in Hc1, Hc2, Hc3.
  assert (Hnn' : forall c, In c (c0 :: rest) -> 0 <= cx c /\ 0 <= cy c /\ 0 <= cz c)
    by (intros c Hin; apply Hnn; rewrite Hc; exact Hin).
  assert (Ex : py_min (cx c0) (map cx rest) = 0).
  { apply py_min_unique.
    - rewrite <- Hx. apply (in_map cx (c0 :: rest)), Hc1.
    - intros y Hy'. change (In y (map cx (c0 :: rest))) in Hy'.
      apply in_map_iff in Hy'. destruct Hy' as (c & <- & Hin). apply (Hnn' c Hin). }
  assert (Ey : py_min (cy c0) (map cy rest) = 0).
  { apply py_min_unique.
    - rewrite <- Hy. apply (in_map cy (c0 :: rest)), Hc2.
    - intros y Hy'. change (In y (map cy (c0 :: rest))) in Hy'.
      apply in_map_iff in Hy'. destruct Hy' as (c & <- & Hin). apply (Hnn' c Hin). }
  assert (Ez : py_min (cz c0) (map cz rest) = 0).
  { apply py_min_unique.
    - rewrite <- Hz. apply (in_map cz (c0 :: rest)), Hc3.
    - intros y Hy'. change (In y (map cz (c0 :: rest))) in Hy'.
      apply in_map_iff in Hy'. destruct Hy' as (c & <- & Hin). apply (Hnn' c Hin). }
  rewrite Ex, Ey, Ez.
  replace (map (fun c => coord_sub c (0, 0, 0)) (cubes b)) with (cubes b).
  - apply Brick_init_same. split; [exact Hlen|exact Hname].
  - rewrite <- (map_id (cubes b)) at 1. apply map_ext.
    intros [[x y] z]. unfold coord_sub, cx, cy, cz. simpl. repeat (f_equal; try lia).
Qed.

Lemma normalized_shift (b : Brick) (t : Coord) :
  normalized (mkBrick (map (coord_add t) (cubes b)) (name b)) = normalized b.
Proof.
  assert (Hne : cubes b = [] \/ exists c0 rest, cubes b = c0 :: rest)
    by (destruct (cubes b) as [|c0 rest]; eauto).
  destruct Hne as [Hc|(c0 & rest & Hc)].
  - unfold normalized. simpl. rewrite Hc. reflexivity.
  - rewrite (normalized_unfold b c0 rest Hc).
    rewrite (normalized_unfold (mkBrick (map (coord_add t) (cubes b)) (name b))
               (coord_add t c0) (map (coord_add t) rest))
      by (simpl; rewrite Hc; reflexivity).
    simpl name. f_equal. simpl cubes. rewrite map_map.
    destruct t as [[tx ty] tz].
    assert (Hx : map cx (map (coord_add (tx, ty, tz)) rest)
                 = map (fun y => y + tx) (map cx rest)).
    { rewrite !map_map. apply map_ext. intros [[x y] z]. unfold cx. simpl. lia. }
    assert (Hy : map cy (map (coord_add (tx, ty, tz)) rest)
                 = map (fun y => y + ty) (map cy rest)).
    { rewrite !map_map. apply map_ext. intros [[x y] z]. unfold cy. simpl. lia. }
    assert (Hz : map cz (map (coord_add (tx, ty, tz)) rest)
                 = map (fun y => y + tz) (map cz rest)).
    { rewrite !map_map. apply map_ext. intros [[x y] z]. unfold cz. simpl. lia. }
    rewrite Hx, Hy, Hz.
    replace (cx (coord_add (tx, ty, tz) c0)) with (cx c0 + tx)
      by (destruct c0 as [[? ?] ?]; unfold cx; simpl; lia).
    replace (cy (coord_add (tx, ty, tz) c0)) with (cy c0 + ty)
      by (destruct c0 as [[? ?] ?]; unfold cy; simpl; lia).
    replace (cz (coord_add (tx, ty, tz) c0)) with (cz c0 + tz)
      by (destruct c0 as [[? ?] ?]; unfold cz; simpl; lia).
    rewrite !py_min_shift. apply map_ext. intros [[x y] z].
    unfold coord_sub, cx, cy, cz. simpl. repeat (f_equal; try lia).
Qed.

(** X5: [normalized] is canonical up to translation: normalizing a
    normalized brick changes nothing, and a brick moved by any offset
    normalizes to the same brick as the original. *)
Theorem normalized_canonical (b : Brick) (t : Coord) :
  Brick_ok b ->
  (exists b', normalized b = Ok b' /\ normalized b' = Ok b')
  /\ normalized (mkBrick (map (coord_add t) (cubes b)) (name b)) = normalized b.
Proof.
  intros Hb. split; [|apply normalized_shift].
  destruct (normalized_run b Hb) as (b' & t' & Hrun & Hok & _ & _ & Horig).
  exists b'. split; [exact Hrun|]. apply normalized_fixed; assumption.
Qed.

(** X6: the orientation pipeline [brick.rotated(rx, ry, rz).normalized()]
    never raises on a brick object: both calls return bricks of 4 cubes
    with the brick's name, the first holds the rotated cubes in the same
    order, the second sits at the origin; and [rotated(0, 0, 0)] returns
    the brick's own value. *)
Theorem orientation_pipeline (b : Brick) (rx ry rz : Z) :
  Brick_ok b ->
  (exists r o,
     rotated b rx ry rz = Ok r /\ normalized r = Ok o
     /\ cubes r = map (fun c => rotate_point c rx ry rz) (cubes b)
     /\ name r = name b /\ name o = name b
     /\ Brick_ok o /\ at_origin o)
  /\ rotated b 0 0 0 = Ok b.
Proof.
  intros Hb. pose proof Hb as [Hlen Hname]. split.
  - destruct (Brick_init_ok (map (fun c => rotate_point c rx ry rz) (cubes b)) (name b))
      as (r & Hr & Hcr & Hokr & Hnr).
    { rewrite length_map. exact Hlen. }
    destruct (normalized_run r Hokr) as (o & t & Ho & Hoko & Hno & _ & Horig).
    exists r, o. unfold rotated. rewrite Hr. rewrite Hno, (Hnr Hname). auto 10.
  - unfold rotated.
    replace (map (fun c => rotate_point c 0 0 0) (cubes b)) with (cubes b).
    + apply Brick_init_same, Hb.
    + rewrite <- (map_id (cubes b)) at 1. apply map_ext. intros c. reflexivity.
Qed.

Lemma normalized_at_origin_witness :
  exists b', normalized (mkBrick [(2, 5, -1); (3, 5, -1); (4, 5, -1); (3, 6, -1)] "T")
             = Ok b' /\ at_origin b'.
Proof.
  destruct (normalized_at_origin
              (mkBrick [(2, 5, -1); (3, 5, -1); (4, 5, -1); (3, 6, -1)] "T"))
    as (b' & t & H & _ & _ & _ & Ho).
  - split; [reflexivity|discriminate].
  - exists b'. split; assumption.
Defined.

Lemma normalized_canonical_witness :
  normalized (mkBrick (map (coord_add (4, -2, 7)) (cubes T_brick)) (name T_brick))
  = normalized T_brick.
Proof.
  apply (normalized_canonical T_brick (4, -2, 7)).
  split; [reflexivity|discriminate].
Defined.

Lemma orientation_pipeline_witness : rotated T_brick 0 0 0 = Ok T_brick.
Proof.
  apply (orientation_pipeline T_brick 1 2 3). split; [reflexivity|discriminate].
Defined.

(** ** Proofs: contracts of the placement methods *)

Lemma one_square_entry :
  exists s,
    reachable s
    /\ dict_get Z.eqb 1 (placed s) = Some (1, O_brick, (0, 0, 0))
    /\ dict_get Z.eqb 2 (placed s) = None
    /\ can_place s O_brick (0, 0, 1) = Ok true
    /\ can_place s O_brick (1, 0, 0) = Ok false
    /\ move 1 (4, 0, 0) s = (Ok tt, snd (move 1 (4, 0, 0) s)).
Proof.
  assert (H : (let? s0 := CubeGrid_init 6 in
               let '(r, s) := place O_brick (0, 0, 0) s0 in
               let? _ := r in
               Ok (dict_get Z.eqb 1 (placed s), dict_get Z.eqb 2 (placed s),
                   can_place s O_brick (0, 0, 1), can_place s O_brick (1, 0, 0),
                   fst (move 1 (4, 0, 0) s)))
              = Ok (Some (1, O_brick, (0, 0, 0)), None, Ok true, Ok false, Ok tt))
    by (vm_compute; reflexivity).
  destruct (CubeGrid_init 6) as [s0|e] eqn:E0; [|discriminate H].
  cbn [rbind] in H.
  destruct (place O_brick (0, 0, 0) s0) as [[pid|e] s] eqn:E1; [|discriminate H].
  cbn [rbind] in H. injection H as H1 H2 H3 H4 H5.
  exists s. split; [|split; [exact H1|split; [exact H2|split; [exact H3|split; [exact H4|]]]]].
  - apply (reach_place s0 s O_brick (0, 0, 0) pid).
    + eapply reach_init, E0.
    + split; [reflexivity|discriminate].
    + exact E1.
  - destruct (move 1 (4, 0, 0) s) as [r s']. simpl in *. rewrite H5. reflexivity.
Qed.

(** X7: on a grid of the announced shape neither predicate raises.
    [can_place] is true exactly when every cube lands within the grid on
    an empty cell; [can_move] is false for an unregistered id and otherwise
    true exactly when every cube of the registered brick lands within the
    grid on a cell that is empty or owned by that id. *)
Theorem placement_predicates_decide (s : CubeGrid) (b : Brick) (pid : Z) (pos : Coord) :
  grid_ok s ->
  (exists r, can_place s b pos = Ok r
     /\ (r = true <->
         forall c, In c (cubes b) ->
           in_bounds (size s) (coord_add pos c) = true
           /\ grid_get (grid s) (coord_add pos c) = Ok 0))
  /\ (dict_get Z.eqb pid (placed s) = None -> can_move s pid pos = Ok false)
  /\ (forall pid' b' old_pos,
        dict_get Z.eqb pid (placed s) = Some (pid', b', old_pos) ->
        exists r, can_move s pid pos = Ok r
          /\ (r = true <->
              forall c, In c (cubes b') ->
                in_bounds (size s) (coord_add pos c) = true
                /\ (grid_get (grid s) (coord_add pos c) = Ok 0
                    \/ grid_get (grid s) (coord_add pos c) = Ok pid))).
Proof.
  intros Hok. split; [|split].
  - apply can_place_cubes_spec, Hok.
  - intros H. unfold can_move. rewrite H. reflexivity.
  - intros pid' b' old_pos H. unfold can_move. rewrite H.
    apply can_move_cubes_spec, Hok.
Qed.

Lemma placement_predicates_decide_witness :
  exists s, grid_ok s /\ exists r, can_place s O_brick (0, 0, 1) = Ok r.
Proof.
  destruct one_square_entry as (s & Hr & _).
  pose proof (inv_grid _ (reachable_Inv _ Hr)) as Hok.
  exists s. split; [exact Hok|].
  destruct (placement_predicates_decide s O_brick 1 (0, 0, 1) Hok) as [(r & Hrun & _) _].
  exists r. exact Hrun.
Defined.

(** X8: [place] on a grid of the announced shape whose counter [next_id]
    is an integer a cell can hold has two outcomes only.  When [can_place]
    is false it raises ValueError and the state is untouched; when it is
    true it returns [next_id], writes that id into exactly the brick's
    cells, registers the brick under it at the end of the registry,
    advances [next_id] by one and leaves size and caches alone. *)
Theorem place_contract (s : CubeGrid) (b : Brick) (pos : Coord) :
  grid_ok s -> in_int64 (next_id s) ->
  (can_place s b pos = Ok false /\ place b pos s = (Raise ValueError, s))
  \/ (can_place s b pos = Ok true
      /\ exists s',
           place b pos s = (Ok (next_id s), s')
           /\ grid_ok s'
           /\ (forall c, in_bounds (size s) c = true ->
                 grid_get (grid s') c =
                   if coord_mem c (cells b pos) then Ok (next_id s)
                   else grid_get (grid s) c)
           /\ placed s' = dict_set Z.eqb (next_id s) (next_id s, b, pos) (placed s)
           /\ (dict_get Z.eqb (next_id s) (placed s) = None ->
               placed s' = placed s ++ [(next_id s, (next_id s, b, pos))])
           /\ next_id s' = next_id s + 1
           /\ size s' = size s /\ caches s' = caches s).
Proof.
  intros Hok _. destruct (can_place_total s b pos Hok) as [Hno|[Hyes _]].
  - left. split; [exact Hno|apply place_rejects, Hno].
  - right. split; [exact Hyes|].
    destruct (place_accepts s b pos Hok Hyes) as (g' & Hp & Hs' & Hg').
    exists (placed_state s g' b pos). split; [exact Hp|].
    split; [split; [apply Hok|exact Hs']|]. split; [exact Hg'|].
    split; [reflexivity|]. split; [|auto].
    intros Hfresh. simpl. apply (dict_set_fresh Z.eqb), Hfresh.
Qed.

Lemma place_contract_witness :
  exists s,
    grid_ok s /\ in_int64 (next_id s)
    /\ place O_brick (1, 0, 0) s = (Raise ValueError, s).
Proof.
  destruct one_square_counter as (s & Hr & Hid & _ & Hno).
  pose proof (inv_grid _ (reachable_Inv _ Hr)) as Hok.
  assert (H64 : in_int64 (next_id s)) by (rewrite Hid; unfold in_int64; lia).
  exists s. split; [exact Hok|]. split; [exact H64|].
  destruct (place_contract s O_brick (1, 0, 0) Hok H64) as [[_ H]|[H _]].
  - exact H.
  - rewrite Hno in H. discriminate H.
Defined.

Lemma dict_pop_app_fresh {V : Type} (k : Z) (v : V) (d : list (Z * V)) :
  dict_get Z.eqb k d = None -> dict_pop Z.eqb k (d ++ [(k, v)]) = d.
Proof.
  induction d as [|[k0 v0] d IH]; simpl.
  - rewrite Z.eqb_refl. reflexivity.
  - destruct (k =? k0); [discriminate|]. intros H. rewrite IH by exact H. reflexivity.
Qed.

Lemma dict_set_same {V : Type} (k : Z) (v : V) (d : list (Z * V)) :
  dict_get Z.eqb k d = Some v -> dict_set Z.eqb k v d = d.
Proof.
  induction d as [|[k0 v0] d IH]; simpl; [discriminate|].
  destruct (k =? k0) eqn:E.
  - intros H. injection H as ->. reflexivity.
  - intros H. rewrite IH by exact H. reflexivity.
Qed.

Lemma dict_set_twice {V : Type} (k : Z) (v v' : V) (d : list (Z * V)) :
  dict_set Z.eqb k v (dict_set Z.eqb k v' d)
  = if dict_mem Z.eqb k d then dict_set Z.eqb k v d else d ++ [(k, v)].
Proof.
  unfold dict_mem. induction d as [|[k0 v0] d IH]; simpl.
  - rewrite Z.eqb_refl. reflexivity.
  - destruct (k =? k0) eqn:E; simpl; rewrite E; [reflexivity|].
    rewrite IH. destruct (dict_get Z.eqb k d); reflexivity.
Qed.

(** X9: [remove] on a reachable state.  An unregistered id raises KeyError
    and the state is untouched.  A registered id is removed: its cells
    become empty, no other cell changes, the registry loses that id only,
    [next_id] stays; afterwards the same brick fits again at the same
    position, and removing the id once more raises KeyError. *)
Theorem remove_contract (s : CubeGrid) (pid : Z) :
  reachable s ->
  (dict_get Z.eqb pid (placed s) = None -> remove pid s = (Raise KeyError, s))
  /\ (forall pid' b pos,
        dict_get Z.eqb pid (placed s) = Some (pid', b, pos) ->
        exists s',
          remove pid s = (Ok tt, s')
          /\ (forall c, in_bounds (size s) c = true ->
                grid_get (grid s') c =
                  if coord_mem c (cells b pos) then Ok 0 else grid_get (grid s) c)
          /\ dict_get Z.eqb pid (placed s') = None
          /\ (forall k, k <> pid ->
                dict_get Z.eqb k (placed s') = dict_get Z.eqb k (placed s))
          /\ next_id s' = next_id s /\ size s' = size s
          /\ can_place s' b pos = Ok true
          /\ remove pid s' = (Raise KeyError, s')).
Proof.
  intros Hr. pose proof (reachable_Inv _ Hr) as HI. split.
  - apply remove_unknown.
  - intros pid' b pos Hget.
    destruct (remove_known s pid pid' b pos (inv_grid _ HI) Hget) as (g' & Hrm & Hs' & Hg').
    { intros c Hc. apply (inv_cells _ HI _ _ _ _ _ Hget Hc). }
    set (s' := removed_state s g' pid).
    assert (Hgone : dict_get Z.eqb pid (placed s') = None)
      by (apply dict_get_pop_same, (inv_keys _ HI)).
    assert (Hok' : grid_ok s') by (split; [apply (inv_grid _ HI)|exact Hs']).
    exists s'. split; [exact Hrm|]. split; [exact Hg'|]. split; [exact Hgone|].
    split; [intros k Hk; apply dict_get_pop_other, Hk|].
    split; [reflexivity|]. split; [reflexivity|].
    split; [|apply remove_unknown, Hgone].
    destruct (can_place_cubes_spec s' pos (cubes b) Hok') as (r & Hrun & Hiff).
    unfold can_place. rewrite Hrun. f_equal. apply Hiff.
    intros c Hc. destruct (inv_cells _ HI _ _ _ _ _ Hget Hc) as [Hin _].
    split; [exact Hin|]. simpl. rewrite (Hg' _ Hin).
    replace (coord_mem (coord_add pos c) (cells b pos)) with true; [reflexivity|].
    symmetry. apply coord_mem_In, In_cells. exists c. auto.
Qed.

Lemma remove_contract_witness :
  exists s s', reachable s /\ remove 1 s = (Ok tt, s')
    /\ remove 1 s' = (Raise KeyError, s').
Proof.
  destruct one_square_entry as (s & Hr & Hget & _).
  destruct (remove_contract s 1 Hr) as [_ H].
  destruct (H _ _ _ Hget) as (s' & H1 & _ & _ & _ & _ & _ & _ & H2).
  exists s, s'. auto.
Defined.

(** X10: on a reachable state, [place] followed by [remove] of the
    returned id gives back the whole state (grid, registry, size, caches)
    except that [next_id] has advanced by one. *)
Theorem place_remove_whole_state (s : CubeGrid) (b : Brick) (pos : Coord) :
  reachable s -> can_place s b pos = Ok true ->
  exists s1,
    place b pos s = (Ok (next_id s), s1)
    /\ remove (next_id s) s1 = (Ok tt, set_next_id (next_id s + 1) s).
Proof.
  intros Hr Hfit. pose proof (reachable_Inv _ Hr) as HI.
  pose proof (inv_grid _ HI) as Hok.
  destruct (can_place_total s b pos Hok) as [Hno|[_ Hfree]]; [congruence|].
  destruct (place_accepts s b pos Hok Hfit) as (g1 & Hp & Hs1 & Hg1).
  set (s1 := placed_state s g1 b pos) in *.
  assert (Hok1 : grid_ok s1) by (split; [apply Hok|exact Hs1]).
  assert (Hfresh : dict_get Z.eqb (next_id s) (placed s) = None).
  { destruct (dict_get Z.eqb (next_id s) (placed s)) as [[[p0 b0] pos0]|] eqn:E;
      [|reflexivity].
    destruct (inv_entry _ HI _ _ _ _ E) as (_ & Hlt & _). lia. }
  assert (Hget : dict_get Z.eqb (next_id s) (placed s1) = Some (next_id s, b, pos)).
  { simpl. rewrite (dict_get_set Z.eqb Z_eqb_iff), Z.eqb_refl. reflexivity. }
  destruct (remove_known s1 (next_id s) (next_id s) b pos Hok1 Hget)
    as (g2 & Hrm & Hs2 & Hg2).
  { intros c Hc. apply (Hfree c Hc). }
  exists s1. split; [exact Hp|]. rewrite Hrm. f_equal.
  unfold removed_state, set_next_id. simpl.
  rewrite (dict_set_fresh Z.eqb) by exact Hfresh.
  rewrite dict_pop_app_fresh by exact Hfresh.
  f_equal. apply (grid_ext (Z.to_nat (size s))); [exact Hs2|apply Hok|].
  intros c Hc. rewrite in_bounds_size in Hc by exact Hok.
  rewrite (Hg2 c Hc). simpl. rewrite (Hg1 c Hc).
  destruct (coord_mem c (cells b pos)) eqn:Em; [|reflexivity].
  apply coord_mem_In, In_cells in Em. destruct Em as (off & Hoff & ->).
  symmetry. apply (Hfree off Hoff).
Qed.

Lemma place_remove_whole_state_witness :
  exists s s1, reachable s
    /\ place O_brick (0, 0, 1) s = (Ok (next_id s), s1)
    /\ remove (next_id s) s1 = (Ok tt, set_next_id (next_id s + 1) s).
Proof.
  destruct one_square_entry as (s & Hr & _ & _ & Hfit & _).
  destruct (place_remove_whole_state s O_brick (0, 0, 1) Hr Hfit) as (s1 & H1 & H2).
  exists s, s1. auto.
Defined.

(** ** Proofs: moving a brick *)

Lemma coord_add_neg (p d : Coord) : coord_add (coord_add p d) (coord_neg d) = p.
Proof.
  destruct p as [[px py] pz], d as [[dx dy] dz]. simpl. repeat (f_equal; try lia).
Qed.

(** A move of a registered brick to the position it already has. *)
Lemma move_same_position (s : CubeGrid) (pid : Z) (b : Brick) (pos : Coord) :
  Inv s -> dict_get Z.eqb pid (placed s) = Some (pid, b, pos) ->
  can_move s pid pos = Ok true /\ move pid pos s = (Ok tt, s).
Proof.
  intros HI Hget. pose proof (inv_grid _ HI) as Hok.
  destruct (can_move_total s pid pid b pos pos Hok Hget) as [Hno|[Hyes _]].
  - exfalso. unfold can_move in Hno. rewrite Hget in Hno.
    destruct (can_move_cubes_spec s pid pos (cubes b) Hok) as (r & Hr & Hiff).
    rewrite Hno in Hr. injection Hr as <-.
    assert (false = true); [|discriminate]. apply Hiff. intros c Hc.
    destruct (inv_cells _ HI _ _ _ _ _ Hget Hc) as [H1 H2]. auto.
  - split; [exact Hyes|].
    destruct (move_accepts s pid pid b pos pos Hok Hget) as (g' & Hm & Hs' & Hg').
    { intros c Hc. apply (inv_cells _ HI _ _ _ _ _ Hget Hc). }
    { exact Hyes. }
    rewrite Hm. f_equal. unfold moved_state.
    rewrite (dict_set_same _ _ _ Hget).
    replace g' with (grid s); [destruct s; reflexivity|].
    apply (grid_ext (Z.to_nat (size s))); [apply Hok|exact Hs'|].
    intros c Hc. rewrite in_bounds_size in Hc by exact Hok. rewrite (Hg' c Hc).
    destruct (coord_mem c (cells b pos)) eqn:Em; [|reflexivity].
    apply coord_mem_In, In_cells in Em. destruct Em as (off & Hoff & ->).
    apply (inv_cells _ HI _ _ _ _ _ Hget Hoff).
Qed.

(** X11: on a reachable state, moving a registered brick to the position
    it already has is always allowed and changes nothing. *)
Theorem move_to_own_position (s : CubeGrid) (pid pid' : Z) (b : Brick) (pos : Coord) :
  reachable s -> dict_get Z.eqb pid (placed s) = Some (pid', b, pos) ->
  can_move s pid pos = Ok true /\ move pid pos s = (Ok tt, s).
Proof.
  intros Hr Hget. pose proof (reachable_Inv _ Hr) as HI.
  destruct (inv_entry _ HI _ _ _ _ Hget) as (-> & _).
  apply (move_same_position s pid b pos HI Hget).
Qed.

Lemma move_to_own_position_witness :
  exists s, reachable s /\ move 1 (0, 0, 0) s = (Ok tt, s).
Proof.
  destruct one_square_entry as (s & Hr & Hget & _).
  exists s. split; [exact Hr|]. apply (move_to_own_position s 1 1 O_brick (0, 0, 0) Hr Hget).
Defined.

(** A successful move, then the move back. *)
Lemma move_back (s s1 : CubeGrid) (pid : Z) (b : Brick) (old_pos new_pos : Coord) :
  Inv s -> dict_get Z.eqb pid (placed s) = Some (pid, b, old_pos) ->
  move pid new_pos s = (Ok tt, s1) ->
  dict_get Z.eqb pid (placed s1) = Some (pid, b, new_pos)
  /\ move pid old_pos s1 = (Ok tt, s).
Proof.
  intros HI Hget Hrun. pose proof (inv_grid _ HI) as Hok.
  destruct (can_move_total s pid pid b old_pos new_pos Hok Hget) as [Hno|[Hyes Hfree]].
  { rewrite move_rejects in Hrun; [discriminate| |exact Hno].
    unfold dict_mem. rewrite Hget. reflexivity. }
  destruct (move_accepts s pid pid b old_pos new_pos Hok Hget) as (g1 & Hm & Hs1 & Hg1).
  { intros c Hc. apply (inv_cells _ HI _ _ _ _ _ Hget Hc). }
  { exact Hyes. }
  rewrite Hm in Hrun. injection Hrun as <-.
  set (s1 := moved_state s g1 pid pid b new_pos).
  assert (HI1 : Inv s1) by (eapply Inv_moved_state; eassumption).
  assert (Hget1 : dict_get Z.eqb pid (placed s1) = Some (pid, b, new_pos)).
  { simpl. rewrite (dict_get_set Z.eqb Z_eqb_iff), Z.eqb_refl. reflexivity. }
  split; [exact Hget1|].
  pose proof (inv_grid _ HI1) as Hok1.
  assert (Hold : forall c, In c (cubes b) ->
            in_bounds (size s) (coord_add old_pos c) = true
            /\ grid_get (grid s) (coord_add old_pos c) = Ok pid)
    by (intros c Hc; apply (inv_cells _ HI _ _ _ _ _ Hget Hc)).
  assert (Hyes1 : can_move s1 pid old_pos = Ok true).
  { destruct (can_move_total s1 pid pid b new_pos old_pos Hok1 Hget1) as [Hno|[H _]];
      [|exact H].
    exfalso. unfold can_move in Hno. rewrite Hget1 in Hno.
    destruct (can_move_cubes_spec s1 pid old_pos (cubes b) Hok1) as (r & Hr & Hiff).
    rewrite Hno in Hr. injection Hr as <-.
    assert (false = true); [|discriminate]. apply Hiff. intros c Hc.
    destruct (Hold c Hc) as [Hin _]. split; [exact Hin|].
    simpl. rewrite (Hg1 _ Hin).
    destruct (coord_mem (coord_add old_pos c) (cells b new_pos)); [right; reflexivity|].
    replace (coord_mem (coord_add old_pos c) (cells b old_pos)) with true;
      [left; reflexivity|].
    symmetry. apply coord_mem_In, In_cells. exists c. auto. }
  destruct (move_accepts s1 pid pid b new_pos old_pos Hok1 Hget1) as (g2 & Hm2 & Hs2 & Hg2).
  { intros c Hc. apply (inv_cells _ HI1 _ _ _ _ _ Hget1 Hc). }
  { exact Hyes1. }
  rewrite Hm2. f_equal. unfold moved_state. simpl.
  rewrite dict_set_twice. unfold dict_mem. rewrite Hget.
  rewrite (dict_set_same _ _ _ Hget).
  replace g2 with (grid s); [destruct s; reflexivity|].
  apply (grid_ext (Z.to_nat (size s))); [apply Hok|exact Hs2|].
  intros c Hc. rewrite in_bounds_size in Hc by exact Hok.
  rewrite (Hg2 c Hc). simpl.
  destruct (coord_mem c (cells b old_pos)) eqn:Eold.
  - apply coord_mem_In, In_cells in Eold. destruct Eold as (off & Hoff & ->).
    apply (Hold off Hoff).
  - destruct (coord_mem c (cells b new_pos)) eqn:Enew.
    + apply coord_mem_In, In_cells in Enew. destruct Enew as (off & Hoff & ->).
      destruct (Hfree off Hoff) as [_ [H0|Hp]]; [exact H0|].
      exfalso. apply coord_mem_false in Eold. apply Eold.
      destruct (inv_owner _ HI _ pid (proj1 (Hfree off Hoff)) Hp)
        as (p0 & b0 & pos0 & off0 & Hg0 & Hoff0 & Heq).
      { destruct (inv_entry _ HI _ _ _ _ Hget) as (_ & ? & _). lia. }
      rewrite Hget in Hg0. injection Hg0 as <- <- <-.
      apply In_cells. exists off0. auto.
    + rewrite (Hg1 c Hc), Enew, Eold. reflexivity.
Qed.

(** X12: the GUI's move buttons undo each other: on a reachable state, when
    moving the selected brick by [delta] succeeds, moving it by [-delta]
    succeeds as well and gives back the state exactly; for an id that is
    not registered the handler's lookup raises KeyError and nothing
    changes. *)
Theorem move_selected_there_and_back (s s1 : CubeGrid) (pid : Z) (delta : Coord) :
  reachable s ->
  (move_selected pid delta s = (Ok tt, s1) ->
   move_selected pid (coord_neg delta) s1 = (Ok tt, s))
  /\ (dict_get Z.eqb pid (placed s) = None ->
      move_selected pid delta s = (Raise KeyError, s)).
Proof.
  intros Hr. pose proof (reachable_Inv _ Hr) as HI. split.
  - unfold move_selected, bind, lift, dict_getitem.
    destruct (dict_get Z.eqb pid (placed s)) as [[[pid' b] pos]|] eqn:Hget;
      [|discriminate].
    destruct (inv_entry _ HI _ _ _ _ Hget) as (-> & _).
    intros Hrun.
    destruct (move_back s s1 pid b pos (coord_add pos delta) HI Hget Hrun) as [Hget1 Hback].
    rewrite Hget1, coord_add_neg. exact Hback.
  - intros Hnone. unfold move_selected, bind, lift, dict_getitem. rewrite Hnone.
    reflexivity.
Qed.

Lemma move_selected_there_and_back_witness :
  exists s s1, reachable s /\ move_selected 1 (4, 0, 0) s = (Ok tt, s1)
    /\ move_selected 1 (-4, 0, 0) s1 = (Ok tt, s).
Proof.
  destruct one_square_entry as (s & Hr & Hget & _ & _ & _ & Hmv).
  assert (Hsel : move_selected 1 (4, 0, 0) s = (Ok tt, snd (move 1 (4, 0, 0) s))).
  { unfold move_selected, bind, lift, dict_getitem. rewrite Hget. exact Hmv. }
  exists s, (snd (move 1 (4, 0, 0) s)). split; [exact Hr|]. split; [exact Hsel|].
  apply (move_selected_there_and_back s _ 1 (4, 0, 0) Hr). exact Hsel.
Defined.

(** ** Proofs: counting the empty cells *)

Lemma count_of_app {A : Type} (p : A -> bool) (l1 l2 : list A) :
  count_of p (l1 ++ l2) = count_of p l1 + count_of p l2.
Proof. unfold count_of. rewrite List.filter_app, length_app. lia. Qed.

Lemma count_of_bounds {A : Type} (p : A -> bool) (l : list A) :
  0 <= count_of p l <= Z.of_nat (length l).
Proof.
  unfold count_of. induction l as [|a l IH]; simpl; [lia|].
  destruct (p a); simpl; lia.
Qed.

Lemma count_of_zero {A : Type} (p : A -> bool) (l : list A) :
  count_of p l = 0 <-> forall a, In a l -> p a = false.
Proof.
  unfold count_of. induction l as [|a l IH]; simpl.
  - split; [intros _ a []|reflexivity].
  - destruct (p a) eqn:E; simpl.
    + split; [lia|]. intros H. rewrite (H a (or_introl eq_refl)) in E. discriminate.
    + rewrite IH. split.
      * intros H a0 [<-|H0]; [exact E|apply H, H0].
      * intros H a0 H0. apply H. right. exact H0.
Qed.

Lemma count_of_all {A : Type} (p : A -> bool) (l : list A) :
  (forall a, In a l -> p a = true) -> count_of p l = Z.of_nat (length l).
Proof.
  unfold count_of. induction l as [|a l IH]; intros H; simpl; [reflexivity|].
  rewrite (H a (or_introl eq_refl)). simpl.
  specialize (IH (fun a0 H0 => H a0 (or_intror H0))). lia.
Qed.

(** A counting loop: each round adds the count of its own part. *)
Lemma rfold_counts {A B : Type} (p : B -> bool) (part : A -> list B) (l : list A)
  (f : A -> Z -> result Z) (m : Z) :
  (forall a k, In a l -> f a k = Ok (k + count_of p (part a))) ->
  rfold l f m = Ok (m + count_of p (flat_map part l)).
Proof.
  revert m. induction l as [|a l IH]; intros m Hf; simpl.
  - unfold count_of. simpl. f_equal. lia.
  - rewrite (Hf a m (or_introl eq_refl)). simpl.
    rewrite IH by (intros a0 k H0; apply Hf; right; exact H0).
    rewrite count_of_app. f_equal. lia.
Qed.

Lemma map_as_flat_map {A B : Type} (f : A -> B) (l : list A) :
  map f l = flat_map (fun a => [f a]) l.
Proof. induction l as [|a l IH]; simpl; [|rewrite IH]; reflexivity. Qed.

Lemma num_left_counts_cells (s : CubeGrid) :
  grid_ok s -> num_left s = Ok (count_of (cell_is_empty s) (all_cells (size s))).
Proof.
  intros Hok. unfold num_left, all_cells.
  rewrite (rfold_counts (cell_is_empty s)
             (fun x => flat_map (fun y => map (fun z => (x, y, z)) (py_range (size s)))
                         (py_range (size s)))); [f_equal; lia|].
  intros x k Hx.
  apply (rfold_counts (cell_is_empty s)
           (fun y => map (fun z => (x, y, z)) (py_range (size s)))).
  intros y k' Hy.
  rewrite (map_as_flat_map (fun z => (x, y, z))).
  apply (rfold_counts (cell_is_empty s) (fun z => [(x, y, z)])).
  intros z k'' Hz.
  apply In_py_range in Hx, Hy, Hz.
  destruct (cell_total s (x, y, z) Hok) as (v & Hv); [apply in_bounds_spec; lia|].
  assert (He : cell_is_empty s (x, y, z) = (v =? 0))
    by (unfold cell_is_empty; rewrite Hv; reflexivity).
  rewrite Hv. unfold count_of. cbn [rbind List.filter]. rewrite He.
  destruct (v =? 0); simpl; f_equal; lia.
Qed.

Lemma In_all_cells (n : Z) (c : Coord) : In c (all_cells n) <-> in_bounds n c = true.
Proof.
  destruct c as [[x y] z]. unfold all_cells. rewrite in_bounds_spec, in_flat_map. split.
  - intros (x0 & Hx & H). apply in_flat_map in H. destruct H as (y0 & Hy & H).
    apply in_map_iff in H. destruct H as (z0 & E & Hz). injection E as -> -> ->.
    apply In_py_range in Hx, Hy, Hz. auto.
  - intros (Hx & Hy & Hz). exists x. split; [apply In_py_range, Hx|].
    apply in_flat_map. exists y. split; [apply In_py_range, Hy|].
    apply in_map_iff. exists z. split; [reflexivity|apply In_py_range, Hz].
Qed.

Lemma length_py_range (n : Z) : length (py_range n) = Z.to_nat n.
Proof. unfold py_range. rewrite length_map, length_seq. reflexivity. Qed.

Lemma length_flat_map_const {A B : Type} (g : A -> list B) (l : list A) (k : nat) :
  (forall a, length (g a) = k) -> length (flat_map g l) = (length l * k)%nat.
Proof.
  intros Hk. induction l as [|a l IH]; simpl; [reflexivity|].
  rewrite length_app, Hk, IH. reflexivity.
Qed.

Lemma length_all_cells (n : Z) : 0 <= n -> Z.of_nat (length (all_cells n)) = n ^ 3.
Proof.
  intros Hn. unfold all_cells.
  rewrite (length_flat_map_const _ _ (Z.to_nat n * Z.to_nat n)%nat).
  - rewrite length_py_range. replace (n ^ 3) with (n * n * n) by ring. lia.
  - intros x. rewrite (length_flat_map_const _ _ (Z.to_nat n)).
    + rewrite length_py_range. reflexivity.
    + intros y. rewrite length_map. apply length_py_range.
Qed.

(** X13: on a grid of the announced shape [num_left] never raises and
    returns the number of coordinates of the grid whose cell is 0; the
    number lies between 0 and size cubed, and it is 0 exactly when no cell
    is empty. *)
Theorem num_left_counts (s : CubeGrid) :
  grid_ok s ->
  num_left s = Ok (count_of (cell_is_empty s) (all_cells (size s)))
  /\ 0 <= count_of (cell_is_empty s) (all_cells (size s)) <= size s ^ 3
  /\ (num_left s = Ok 0 <->
      forall c, in_bounds (size s) c = true -> grid_get (grid s) c <> Ok 0).
Proof.
  intros Hok. pose proof (num_left_counts_cells s Hok) as Hnum.
  split; [exact Hnum|]. split.
  - rewrite <- (length_all_cells (size s)) by apply Hok. apply count_of_bounds.
  - rewrite Hnum. split.
    + intros H. injection H as H. intros c Hc Hz.
      apply (proj1 (count_of_zero _ _)) with (a := c) in H; [|apply In_all_cells, Hc].
      unfold cell_is_empty in H. rewrite Hz in H. discriminate.
    + intros H. f_equal. apply count_of_zero. intros c Hc.
      apply In_all_cells in Hc. unfold cell_is_empty.
      destruct (cell_total s c Hok Hc) as (v & Hv). rewrite Hv.
      apply Z.eqb_neq. intros ->. apply (H c Hc Hv).
Qed.

Lemma num_left_counts_witness :
  exists s, grid_ok s /\ num_left s = Ok (count_of (cell_is_empty s) (all_cells (size s))).
Proof.
  destruct one_square_entry as (s & Hr & _).
  pose proof (inv_grid _ (reachable_Inv _ Hr)) as Hok.
  exists s. split; [exact Hok|]. apply (num_left_counts s Hok).
Defined.

(** X14: [clear] never raises; on a grid of the announced shape it leaves
    every cell empty, the registry empty and [next_id] at 1, keeps size
    and caches, so that [num_left] is size cubed, the next successful
    [place] returns id 1 again, and a second [clear] changes nothing. *)
Theorem clear_resets (s : CubeGrid) :
  grid_ok s ->
  exists s',
    clear s = (Ok tt, s')
    /\ Inv s'
    /\ (forall c, in_bounds (size s) c = true -> grid_get (grid s') c = Ok 0)
    /\ placed s' = [] /\ next_id s' = 1
    /\ size s' = size s /\ caches s' = caches s
    /\ num_left s' = Ok (size s ^ 3)
    /\ (forall b pos pid s'', place b pos s' = (Ok pid, s'') -> pid = 1)
    /\ clear s' = (Ok tt, s').
Proof.
  intros Hok. pose proof Hok as [Hn Hs].
  set (s' := mkCubeGrid (size s) (np_fill0 (grid s)) 1 []
               (bricks s) (valid_placements s) (valid_rotations s)).
  assert (HI : Inv s') by (apply Inv_cleared, Hok).
  assert (Hz : forall c, in_bounds (size s) c = true -> grid_get (grid s') c = Ok 0).
  { intros c Hc. simpl. rewrite (np_fill0_zeros _ _ Hs). apply grid_get_zeros.
    rewrite Z2Nat.id by exact Hn. exact Hc. }
  exists s'. split; [apply clear_runs|]. split; [exact HI|]. split; [exact Hz|].
  split; [reflexivity|]. split; [reflexivity|]. split; [reflexivity|].
  split; [reflexivity|]. split; [|split].
  - rewrite (num_left_counts_cells s' (inv_grid _ HI)). f_equal.
    rewrite count_of_all.
    + apply (length_all_cells (size s) Hn).
    + intros c Hc. apply In_all_cells in Hc. unfold cell_is_empty.
      rewrite (Hz c Hc). reflexivity.
  - intros b pos pid s'' Hrun. pose proof (place_next_id b pos s') as H.
    rewrite Hrun in H. destruct H as [-> _]. reflexivity.
  - rewrite clear_runs. f_equal. unfold s'. simpl. f_equal.
    rewrite (np_fill0_zeros _ _ Hs). apply np_fill0_zeros, shape3_zeros.
Qed.

Lemma clear_resets_witness :
  exists s s', grid_ok s /\ clear s = (Ok tt, s') /\ num_left s' = Ok (size s ^ 3).
Proof.
  destruct one_square_entry as (s & Hr & _).
  pose proof (inv_grid _ (reachable_Inv _ Hr)) as Hok.
  destruct (clear_resets s Hok) as (s' & H1 & _ & _ & _ & _ & _ & _ & H2 & _).
  exists s, s'. auto.
Defined.

(** ** Proofs: the list of valid placements *)

Lemma fits_at_spec (s : CubeGrid) (e : Coord) (rots : list (Ref Brick))
  (acc : list (Ref Brick * Coord)) :
  grid_ok s ->
  exists acc',
    fits_at s e rots acc = Ok acc'
    /\ forall x, In x acc' <->
         In x acc
         \/ (snd x = e /\ In (fst x) rots /\ can_place s (deref (fst x)) e = Ok true).
Proof.
  intros Hok. unfold fits_at. revert acc.
  induction rots as [|b rots IH]; intros acc; simpl.
  - exists acc. split; [reflexivity|]. intros x. split; [auto|].
    intros [H|(_ & [] & _)]. exact H.
  - destruct (can_place_total s (deref b) e Hok) as [Hno|[Hyes _]].
    + rewrite Hno. simpl. destruct (IH acc) as (acc' & Hrun & Hiff).
      exists acc'. split; [exact Hrun|]. intros x. rewrite Hiff. split.
      * intros [H|(H1 & H2 & H3)]; [left; exact H|right; auto].
      * intros [H|(H1 & [H2|H2] & H3)]; [left; exact H| |right; auto].
        subst b. rewrite Hno in H3. discriminate.
    + rewrite Hyes. simpl. destruct (IH (acc ++ [(b, e)])) as (acc' & Hrun & Hiff).
      exists acc'. split; [exact Hrun|]. intros x. rewrite Hiff, in_app_iff. simpl.
      split.
      * intros [[H|[<-|[]]]|(H1 & H2 & H3)]; [left; exact H|right; auto|right; auto].
      * intros [H|(H1 & [H2|H2] & H3)]; [left; left; exact H| |right; auto].
        left. right. left. destruct x as [xb xe]. simpl in *. congruence.
Qed.

Lemma validate_loop_spec (s : CubeGrid) (rots : list (Ref Brick)) (empties : list Coord)
  (acc : list (Ref Brick * Coord)) :
  grid_ok s ->
  exists l,
    rfold empties (fun e a => fits_at s e rots a) acc = Ok l
    /\ forall x, In x l <->
         In x acc
         \/ (In (snd x) empties /\ In (fst x) rots
             /\ can_place s (deref (fst x)) (snd x) = Ok true).
Proof.
  intros Hok. revert acc. induction empties as [|e empties IH]; intros acc; simpl.
  - exists acc. split; [reflexivity|]. intros x. split; [auto|].
    intros [H|([] & _)]. exact H.
  - destruct (fits_at_spec s e rots acc Hok) as (acc1 & Hrun1 & Hiff1).
    rewrite Hrun1. simpl. destruct (IH acc1) as (l & Hrun & Hiff).
    exists l. split; [exact Hrun|]. intros x. rewrite Hiff, Hiff1. split.
    + intros [[H|(H1 & H2 & H3)]|(H1 & H2 & H3)]; auto.
      right. rewrite H1. auto.
    + intros [H|([H1|H1] & H2 & H3)]; auto.
      left. right. rewrite <- H1 in H3. auto.
Qed.

Lemma some_rotation_fits_true (s : CubeGrid) (e : Coord) (rots : list (Ref Brick)) :
  some_rotation_fits s e rots = Ok true ->
  exists b, In b rots /\ can_place s (deref b) e = Ok true.
Proof.
  induction rots as [|b rots IH]; simpl; [discriminate|].
  destruct (can_place s (deref b) e) as [[|]|err] eqn:E; simpl.
  - intros _. exists b. auto.
  - intros H. destruct (IH H) as (b0 & H1 & H2). exists b0. auto.
  - discriminate.
Qed.

Lemma validate_placements_spec (s : CubeGrid) (brick : Brick) :
  grid_ok s -> origins_in_range (size s) s ->
  exists l,
    validate_placements s brick = Ok l
    /\ forall b e, In (b, e) l <->
         In e (cached_origins s (name brick))
         /\ grid_get (grid s) e = Ok 0
         /\ In b (cached_rotations s (name brick))
         /\ can_place s (deref b) e = Ok true.
Proof.
  intros Hok Hrange.
  destruct (empty_origins_spec s brick Hok Hrange) as (em & Hem & Hiff).
  destruct (validate_loop_spec s (cached_rotations s (name brick)) em [] Hok)
    as (l & Hrun & Hl).
  assert (Hgoal : forall b e, In (b, e) l <->
            In e (cached_origins s (name brick))
            /\ grid_get (grid s) e = Ok 0
            /\ In b (cached_rotations s (name brick))
            /\ can_place s (deref b) e = Ok true).
  { intros b e. rewrite Hl. simpl. rewrite Hiff. unfold cached_origins. tauto. }
  unfold validate_placements. rewrite Hem. cbn [rbind].
  destruct em as [|e0 em'].
  - exists []. split; [reflexivity|]. simpl in Hrun. injection Hrun as <-. exact Hgoal.
  - exists l. split; [exact Hrun|exact Hgoal].
Qed.

(** X15: on a reachable state [validate_placements] never raises and
    returns exactly the pairs of a cached orientation and a cached origin,
    both under the brick's name, such that the origin's cell is empty and
    the orientation passes [can_place] there; and
    [can_not_place_somewhere] is false exactly when every empty cached
    origin occurs in one of these pairs. *)
Theorem validate_placements_exact (s : CubeGrid) (brick : Brick) :
  reachable s ->
  exists l,
    validate_placements s brick = Ok l
    /\ (forall b e, In (b, e) l <->
          In e (cached_origins s (name brick))
          /\ grid_get (grid s) e = Ok 0
          /\ In b (cached_rotations s (name brick))
          /\ can_place s (deref b) e = Ok true)
    /\ (can_not_place_somewhere s brick = Ok false <->
        forall e, In e (cached_origins s (name brick)) ->
          grid_get (grid s) e = Ok 0 -> exists b, In (b, e) l).
Proof.
  intros Hr. pose proof (inv_grid _ (reachable_Inv _ Hr)) as Hok.
  pose proof (reachable_origins _ Hr) as Hrange.
  destruct (validate_placements_spec s brick Hok Hrange) as (l & Hrun & Hl).
  exists l. split; [exact Hrun|]. split; [exact Hl|].
  destruct (can_not_place_somewhere_spec s brick Hok Hrange) as (r & Hcn & Hiff).
  rewrite Hcn. split.
  - intros H. injection H as ->. intros e He Hz.
    destruct (some_rotation_fits_spec s e (cached_rotations s (name brick)) Hok)
      as ([|] & Hfit & Hall).
    + apply some_rotation_fits_true in Hfit. destruct Hfit as (b & Hb & Hcp).
      exists b. apply Hl. auto.
    + exfalso. assert (false = true); [|discriminate]. apply Hiff.
      exists e. split; [exact He|]. split; [exact Hz|]. apply Hall. reflexivity.
  - intros H. destruct r; [|reflexivity]. exfalso.
    destruct (proj1 Hiff eq_refl) as (e & He & Hz & Hnone).
    destruct (H e He Hz) as (b & Hb). apply Hl in Hb.
    destruct Hb as (_ & _ & Hb & Hcp). rewrite (Hnone b Hb) in Hcp. discriminate.
Qed.

Lemma validate_placements_exact_witness :
  exists s l, reachable s /\ validate_placements s T_brick = Ok l.
Proof.
  destruct one_square_entry as (s & Hr & _).
  destruct (validate_placements_exact s T_brick Hr) as (l & H & _).
  exists s, l. auto.
Defined.

(** ** Proofs: the caches built by the constructor *)

Lemma rfold_app {A B : Type} (l1 l2 : list A) (body : A -> B -> result B) (b : B) :
  rfold (l1 ++ l2) body b = let? b' := rfold l1 body b in rfold l2 body b'.
Proof.
  revert b. induction l1 as [|a l1 IH]; intros b; simpl; [reflexivity|].
  destruct (body a b) as [b1|e]; simpl; [apply IH|reflexivity].
Qed.

Lemma rfold_ext {A B : Type} (l : list A) (f g : A -> B -> result B) (b : B) :
  (forall a x, f a x = g a x) -> rfold l f b = rfold l g b.
Proof.
  intros H. revert b. induction l as [|a l IH]; intros b; simpl; [reflexivity|].
  rewrite H. destruct (g a b) as [b1|e]; simpl; [apply IH|reflexivity].
Qed.

Lemma rfold_flat_map {A B C : Type} (f : A -> list B) (body : B -> C -> result C)
  (l : list A) (c : C) :
  rfold (flat_map f l) body c = rfold l (fun a acc => rfold (f a) body acc) c.
Proof.
  revert c. induction l as [|a l IH]; intros c; simpl; [reflexivity|].
  rewrite rfold_app. destruct (rfold (f a) body c) as [c1|e]; simpl;
    [apply IH|reflexivity].
Qed.

Lemma rfold_map {A B C : Type} (h : A -> B) (body : B -> C -> result C)
  (l : list A) (c : C) :
  rfold (map h l) body c = rfold l (fun a acc => body (h a) acc) c.
Proof.
  revert c. induction l as [|a l IH]; intros c; simpl; [reflexivity|].
  destruct (body (h a) c) as [c1|e]; simpl; [apply IH|reflexivity].
Qed.

(** Three nested loops over [range(n)] visit the coordinates of
    [all_cells n] in order. *)
Lemma rfold_all_cells {C : Type} (n : Z) (body : Coord -> C -> result C) (c : C) :
  rfold (py_range n) (fun x acc =>
    rfold (py_range n) (fun y acc =>
      rfold (py_range n) (fun z acc => body (x, y, z) acc) acc) acc) c
  = rfold (all_cells n) body c.
Proof.
  unfold all_cells. rewrite rfold_flat_map. apply rfold_ext. intros x acc.
  rewrite rfold_flat_map. apply rfold_ext. intros y acc'.
  rewrite rfold_map. reflexivity.
Qed.

Lemma oriented_run (b : Brick) (rx ry rz : Z) :
  Brick_ok b -> exists o, oriented b rx ry rz = Ok o /\ Brick_ok o /\ name o = name b.
Proof.
  intros [Hlen Hname]. unfold oriented.
  destruct (Brick_init_ok (map (fun c => rotate_point c rx ry rz) (cubes b)) (name b))
    as (r & Hr & Hcr & Hokr & Hnr).
  { rewrite length_map. exact Hlen. }
  unfold rotated. rewrite Hr. cbn [rbind].
  destruct (normalized_run r Hokr) as (o & t & Ho & Hoko & Hno & _).
  exists o. split; [exact Ho|]. split; [exact Hoko|].
  rewrite Hno. apply Hnr, Hname.
Qed.

(** The rotation loop: every triple adds one new object. *)
Lemma rotation_loop (b : Brick) (l : list Coord) (rots : list (Ref Brick)) (h : nat) :
  Brick_ok b ->
  (forall r, In r rots -> (ref_id r <= h)%nat) ->
  exists rots' h',
    rfold l (fun (c : Coord) (acc : list (Ref Brick) * nat) =>
               let '(rx, ry, rz) := c in
               let '(all_rotations, h) := acc in
               let? r := rotated b rx ry rz in
               let? o := normalized r in
               Ok (id_set_add (mkRef (S h) o) all_rotations, (h + 2)%nat))
      (rots, h) = Ok (rots', h')
    /\ (forall r, In r rots' -> (ref_id r <= h')%nat)
    /\ length rots' = (length rots + length l)%nat
    /\ forall o, In o (map deref rots') <->
         In o (map deref rots)
         \/ exists rx ry rz, In (rx, ry, rz) l /\ oriented b rx ry rz = Ok o.
Proof.
  intros Hb. revert rots h. induction l as [|[[rx ry] rz] l IH]; intros rots h Hids.
  - exists rots, h. simpl. split; [reflexivity|]. split; [exact Hids|].
    split; [lia|]. intros o. split; [auto|]. intros [H|(x & y & z & [] & _)]. exact H.
  - destruct (oriented_run b rx ry rz Hb) as (o1 & Ho1 & _).
    pose proof Ho1 as Hrun1. unfold oriented in Hrun1.
    destruct (rotated b rx ry rz) as [r1|e] eqn:Er; [|discriminate].
    cbn [rbind] in Hrun1.
    assert (Hadd : id_set_add (mkRef (S h) o1) rots = rots ++ [mkRef (S h) o1]).
    { unfold id_set_add.
      destruct (existsb (fun r' => (ref_id r' =? ref_id (mkRef (S h) o1))%nat) rots)
        eqn:E; [|reflexivity].
      apply existsb_exists in E. destruct E as (r' & Hr' & E).
      apply Nat.eqb_eq in E. simpl in E. apply Hids in Hr'. lia. }
    destruct (IH (rots ++ [mkRef (S h) o1]) (h + 2)%nat) as (rots' & h' & Hrun & Hle & Hlen & Hiff).
    { intros r Hr. apply in_app_iff in Hr. destruct Hr as [Hr|[<-|[]]].
      - apply Hids in Hr. lia.
      - simpl. lia. }
    exists rots', h'. split.
    { simpl. rewrite Er. cbn [rbind]. rewrite Hrun1. cbn [rbind]. rewrite Hadd.
      exact Hrun. }
    split; [exact Hle|]. split.
    { rewrite Hlen, length_app. simpl. lia. }
    intros o. rewrite Hiff, map_app, in_app_iff. simpl. split.
    + intros [[H|[<-|[]]]|(x & y & z & Hin & Ho)].
      * left. exact H.
      * right. exists rx, ry, rz. auto.
      * right. exists x, y, z. auto.
    + intros [H|(x & y & z & [E|Hin] & Ho)].
      * left. left. exact H.
      * injection E as <- <- <-. left. right. left. congruence.
      * right. exists x, y, z. auto.
Qed.

Lemma all_rotations_of_run (b : Brick) (h : nat) :
  Brick_ok b ->
  exists rots h',
    all_rotations_of b h = Ok (rots, h')
    /\ length rots = 64%nat
    /\ forall o, In o (map deref rots) <->
         exists rx ry rz,
           (0 <= rx < 4 /\ 0 <= ry < 4 /\ 0 <= rz < 4) /\ oriented b rx ry rz = Ok o.
Proof.
  intros Hb.
  destruct (rotation_loop b (all_cells 4) [] h Hb) as (rots & h' & Hrun & _ & Hlen & Hiff).
  { intros r []. }
  exists rots, h'. split.
  { rewrite <- Hrun. unfold all_rotations_of.
    apply (rfold_all_cells 4
             (fun (c : Coord) (acc : list (Ref Brick) * nat) =>
                let '(rx, ry, rz) := c in
                let '(all_rotations, h) := acc in
                let? r := rotated b rx ry rz in
                let? o := normalized r in
                Ok (id_set_add (mkRef (S h) o) all_rotations, (h + 2)%nat))). }
  split; [rewrite Hlen; reflexivity|].
  intros o. rewrite Hiff. split.
  - intros [H|(rx & ry & rz & Hin & Ho)]; [destruct H|].
    exists rx, ry, rz. split; [|exact Ho].
    apply In_all_cells, in_bounds_spec in Hin. exact Hin.
  - intros (rx & ry & rz & Hin & Ho). right. exists rx, ry, rz. split; [|exact Ho].
    apply In_all_cells, in_bounds_spec. exact Hin.
Qed.

Lemma can_place_ext (s s' : CubeGrid) (b : Brick) (pos : Coord) :
  size s' = size s -> grid s' = grid s -> can_place s' b pos = can_place s b pos.
Proof.
  intros Hsz Hg. unfold can_place.
  induction (cubes b) as [|c cs IH]; simpl; [reflexivity|].
  rewrite Hsz, Hg, IH. reflexivity.
Qed.

Lemma some_rotation_fits_ext (s s' : CubeGrid) (e : Coord) (rots : list (Ref Brick)) :
  size s' = size s -> grid s' = grid s ->
  some_rotation_fits s' e rots = some_rotation_fits s e rots.
Proof.
  intros Hsz Hg. induction rots as [|b rots IH]; simpl; [reflexivity|].
  rewrite (can_place_ext s s' _ _ Hsz Hg), IH. reflexivity.
Qed.

Lemma engine_part_size (s s' : CubeGrid) :
  engine_part s' = engine_part s -> size s' = size s /\ grid s' = grid s.
Proof. unfold engine_part. intros H. injection H as H1 H2 _ _ _. auto. Qed.

(** The origin loop, from a state [s1] that differs from [s] in the
    origins cached under [nm] only. *)
Lemma origin_loop (nm : string) (rots : list (Ref Brick)) (s : CubeGrid)
  (l : list Coord) (s1 : CubeGrid) (cs1 : list Coord) :
  grid_ok s ->
  engine_part s1 = engine_part s -> valid_rotations s1 = valid_rotations s ->
  dict_keys (valid_placements s1) = dict_keys (valid_placements s) ->
  (forall nm', nm' <> nm ->
     dict_get String.eqb nm' (valid_placements s1)
     = dict_get String.eqb nm' (valid_placements s)) ->
  dict_get String.eqb nm (valid_placements s1) = Some cs1 ->
  exists s2 cs2,
    rfold l (fun (c : Coord) (self : CubeGrid) =>
               let? ok_place := some_rotation_fits self c rots in
               if ok_place then add_valid_placement nm c self else Ok self) s1
    = Ok s2
    /\ engine_part s2 = engine_part s /\ valid_rotations s2 = valid_rotations s
    /\ dict_keys (valid_placements s2) = dict_keys (valid_placements s)
    /\ (forall nm', nm' <> nm ->
          dict_get String.eqb nm' (valid_placements s2)
          = dict_get String.eqb nm' (valid_placements s))
    /\ dict_get String.eqb nm (valid_placements s2) = Some cs2
    /\ forall c, In c cs2 <->
         In c cs1
         \/ (In c l /\ exists r, In r rots /\ can_place s (deref r) c = Ok true).
Proof.
  intros Hok. revert s1 cs1.
  induction l as [|c l IH]; intros s1 cs1 He Hvr Hk Hother Hget.
  - exists s1, cs1. simpl. split; [reflexivity|]. repeat (split; [assumption|]).
    intros c. split; [auto|]. intros [H|([] & _)]. exact H.
  - destruct (engine_part_size _ _ He) as [Hsz Hg].
    cbn [rfold]. rewrite (some_rotation_fits_ext s s1 c rots Hsz Hg).
    destruct (some_rotation_fits_spec s c rots Hok) as ([|] & Hfit & Hall).
    + rewrite Hfit. cbn [rbind].
      unfold add_valid_placement at 1, dict_getitem. rewrite Hget. cbn [rbind].
      destruct (IH (set_valid_placements
                      (dict_set String.eqb nm (coord_set_add c cs1) (valid_placements s1))
                      s1) (coord_set_add c cs1)) as (s2 & cs2 & Hrun & H1 & H2 & H3 & H4 & H5 & H6).
      * exact He.
      * exact Hvr.
      * simpl. rewrite (dict_keys_set String.eqb); [exact Hk|].
        unfold dict_mem. rewrite Hget. reflexivity.
      * intros nm' Hne. simpl. rewrite (dict_get_set String.eqb string_eqb_iff).
        destruct (String.eqb nm' nm) eqn:E; [apply String.eqb_eq in E; contradiction|].
        apply Hother, Hne.
      * simpl. rewrite (dict_get_set String.eqb string_eqb_iff), String.eqb_refl.
        reflexivity.
      * exists s2, cs2. split; [exact Hrun|]. repeat (split; [assumption|]).
        intros c'. rewrite H6, In_coord_set_add.
        apply some_rotation_fits_true in Hfit. simpl. split.
        -- intros [[->|H]|(Hin & Hr)]; auto.
        -- intros [H|([<-|Hin] & Hr)]; auto.
    + rewrite Hfit. cbn [rbind].
      destruct (IH s1 cs1 He Hvr Hk Hother Hget)
        as (s2 & cs2 & Hrun & H1 & H2 & H3 & H4 & H5 & H6).
      exists s2, cs2. split; [exact Hrun|]. repeat (split; [assumption|]).
      intros c'. rewrite H6. simpl. split.
      * intros [H|(Hin & Hr)]; auto.
      * intros [H|([<-|Hin] & Hr)]; auto.
        destruct Hr as (r & Hr & Hcp). rewrite (proj1 Hall eq_refl r Hr) in Hcp.
        discriminate.
Qed.

(** One round of [for brick in self.bricks.values()] on a grid whose
    cache of origins for the brick is still empty. *)
Lemma build_cache_run (b : Brick) (s : CubeGrid) (h : nat) :
  Brick_ok b -> grid_ok s ->
  dict_get String.eqb (name b) (valid_placements s) = Some [] ->
  dict_mem String.eqb (name b) (valid_rotations s) = true ->
  exists s' h',
    build_cache b (s, h) = Ok (s', h')
    /\ engine_part s' = engine_part s
    /\ dict_keys (valid_placements s') = dict_keys (valid_placements s)
    /\ dict_keys (valid_rotations s') = dict_keys (valid_rotations s)
    /\ (forall nm, nm <> name b ->
          dict_get String.eqb nm (valid_placements s')
          = dict_get String.eqb nm (valid_placements s)
          /\ dict_get String.eqb nm (valid_rotations s')
             = dict_get String.eqb nm (valid_rotations s))
    /\ cache_exact s' b.
Proof.
  intros Hb Hok Hget Hmem.
  destruct (all_rotations_of_run b h Hb) as (rots & h' & Hrots & Hlen & Hvals).
  set (s0 := set_valid_rotations
               (dict_set String.eqb (name b) rots (valid_rotations s)) s).
  destruct (origin_loop (name b) rots s0 (all_cells (size s0)) s0 [])
    as (s' & cs & Hrun & He & Hvr & Hk & Hother & Hcs & Hiff); try reflexivity.
  { exact Hok. }
  { exact Hget. }
  exists s', h'. split.
  { unfold build_cache. rewrite Hrots. cbn [rbind]. fold s0.
    unfold valid_origins_of.
    rewrite (rfold_all_cells (size s0)
               (fun (c : Coord) (self : CubeGrid) =>
                  let? ok_place := some_rotation_fits self c rots in
                  if ok_place then add_valid_placement (name b) c self else Ok self)).
    rewrite Hrun. reflexivity. }
  split; [exact He|]. split; [exact Hk|]. split.
  { rewrite Hvr. simpl. apply (dict_keys_set String.eqb), Hmem. }
  split.
  { intros nm Hne. split; [apply Hother, Hne|].
    rewrite Hvr. simpl. rewrite (dict_get_set String.eqb string_eqb_iff).
    destruct (String.eqb nm (name b)) eqn:E; [|reflexivity].
    apply String.eqb_eq in E. contradiction. }
  assert (Hr' : cached_rotations s' (name b) = rots).
  { unfold cached_rotations, dict_get_default. rewrite Hvr. simpl.
    rewrite (dict_get_set String.eqb string_eqb_iff), String.eqb_refl. reflexivity. }
  assert (Hc' : cached_origins s' (name b) = cs).
  { unfold cached_origins, dict_get_default. rewrite Hcs. reflexivity. }
  destruct (engine_part_size _ _ He) as [Hsz Hg].
  unfold cache_exact. rewrite Hr', Hc'. split; [exact Hlen|]. split; [exact Hvals|].
  intros c. rewrite Hiff, In_all_cells, Hsz. simpl. split.
  - intros [[]|(Hin & r & Hr & Hcp)]. split; [exact Hin|].
    exists r. split; [exact Hr|]. rewrite (can_place_ext s0 s' _ _ Hsz Hg). exact Hcp.
  - intros (Hin & r & Hr & Hcp). right. split; [exact Hin|].
    exists r. split; [exact Hr|]. rewrite <- (can_place_ext s0 s' _ _ Hsz Hg). exact Hcp.
Qed.

Lemma cache_exact_ext (s s' : CubeGrid) (b : Brick) :
  engine_part s' = engine_part s ->
  dict_get String.eqb (name b) (valid_placements s')
  = dict_get String.eqb (name b) (valid_placements s) ->
  dict_get String.eqb (name b) (valid_rotations s')
  = dict_get String.eqb (name b) (valid_rotations s) ->
  cache_exact s b -> cache_exact s' b.
Proof.
  intros He Hvp Hvr (H1 & H2 & H3).
  destruct (engine_part_size _ _ He) as [Hsz Hg].
  assert (Hr : cached_rotations s' (name b) = cached_rotations s (name b))
    by (unfold cached_rotations, dict_get_default; rewrite Hvr; reflexivity).
  assert (Hc : cached_origins s' (name b) = cached_origins s (name b))
    by (unfold cached_origins, dict_get_default; rewrite Hvp; reflexivity).
  unfold cache_exact. rewrite Hr, Hc, Hsz. split; [exact H1|]. split; [exact H2|].
  intros c. rewrite H3. split; intros (Hin & r & Hin' & Hcp); (split; [exact Hin|]);
    exists r; (split; [exact Hin'|]).
  - rewrite (can_place_ext s s' _ _ Hsz Hg). exact Hcp.
  - rewrite <- (can_place_ext s s' _ _ Hsz Hg). exact Hcp.
Qed.

Lemma template_bricks_ok (b : Brick) :
  In b (map snd template_bricks) -> Brick_ok b /\ In (name b) template_names.
Proof.
  intros Hb. split; [|apply template_brick_names, Hb].
  simpl in Hb. destruct Hb as [<-|[<-|[<-|[<-|[<-|[]]]]]]; split;
    solve [reflexivity | discriminate].
Qed.

Lemma template_name_inj (b b' : Brick) :
  In b (map snd template_bricks) -> In b' (map snd template_bricks) ->
  name b = name b' -> b = b'.
Proof.
  simpl. intros Hb Hb' Hn.
  destruct Hb as [<-|[<-|[<-|[<-|[<-|[]]]]]];
    destruct Hb' as [<-|[<-|[<-|[<-|[<-|[]]]]]];
    solve [reflexivity | discriminate Hn].
Qed.

Lemma template_of_name (nm : string) :
  In nm template_names -> exists b, In b (map snd template_bricks) /\ name b = nm.
Proof.
  simpl. intros [<-|[<-|[<-|[<-|[<-|[]]]]]]; eexists.
  - split; [left; reflexivity|reflexivity].
  - split; [right; left; reflexivity|reflexivity].
  - split; [do 2 right; left; reflexivity|reflexivity].
  - split; [do 3 right; left; reflexivity|reflexivity].
  - split; [do 4 right; left; reflexivity|reflexivity].
Qed.

Lemma build_caches_run (n : Z) (pending : list Brick) :
  0 <= n ->
  List.NoDup (map name pending) ->
  (forall b, In b pending -> In b (map snd template_bricks)) ->
  forall s h, caches_built n pending s ->
  exists s' h',
    rfold pending build_cache (s, h) = Ok (s', h') /\ caches_built n [] s'.
Proof.
  intros Hn. induction pending as [|b rest IH]; intros Hnd Htpl s h Hs.
  - exists s, h. split; [reflexivity|exact Hs].
  - destruct Hs as (He & Hkp & Hkr & Hpend & Hdone).
    inversion Hnd as [|x xs Hnotin Hnd']; subst.
    destruct (template_bricks_ok b (Htpl b (or_introl eq_refl))) as [Hb Hname].
    assert (Hok : grid_ok s).
    { unfold engine_part in He. injection He as H1 H2 _ _ _.
      split; [lia|]. rewrite H1, H2. apply shape3_zeros. }
    destruct (build_cache_run b s h Hb Hok) as (s1 & h1 & Hrun & He1 & Hkp1 & Hkr1 & Hoth & Hex).
    { apply Hpend. left. reflexivity. }
    { apply (dict_mem_keys String.eqb string_eqb_iff). rewrite Hkr. exact Hname. }
    destruct (IH Hnd' (fun b' H' => Htpl b' (or_intror H')) s1 h1) as (s' & h' & Hrun' & Hs').
    { split; [rewrite He1; exact He|]. split; [rewrite Hkp1; exact Hkp|].
      split; [rewrite Hkr1; exact Hkr|]. split.
      - intros b' Hb'. destruct (Hoth (name b')) as [-> _].
        + intros E. apply Hnotin. rewrite <- E. apply in_map, Hb'.
        + apply Hpend. right. exact Hb'.
      - intros t Ht Hnot. destruct (String.eqb (name t) (name b)) eqn:E.
        + apply String.eqb_eq in E.
          rewrite (template_name_inj t b Ht (Htpl b (or_introl eq_refl)) E). exact Hex.
        + apply String.eqb_neq in E. destruct (Hoth (name t) E) as [Hvp Hvr].
          apply (cache_exact_ext s s1 t He1 Hvp Hvr). apply Hdone; [exact Ht|].
          simpl. intros [H|H]; [apply E; symmetry; exact H|apply Hnot, H]. }
    exists s', h'. split; [|exact Hs']. cbn [rfold]. rewrite Hrun. exact Hrun'.
Qed.

(** X16: the constructor.  A negative size, and a size from 2^20 on, for
    which [np.zeros] refuses the array, raises ValueError.  For every size
    in between the constructor returns (running out of memory apart), and
    the grid it returns has, for each of the five templates, exact caches:
    64 orientation objects whose values are the normalized rotations of
    the template by the triples of range(4), and as origins the
    coordinates in range at which one of these orientations passes
    [can_place]; on this grid [can_not_place_somewhere] is false for every
    brick. *)
Theorem constructor_builds_exact_caches (n : Z) :
  ((n < 0 \/ 1048576 <= n) /\ CubeGrid_init n = Raise ValueError)
  \/ (0 <= n < 1048576
      /\ exists s,
           CubeGrid_init n = Ok s
           /\ size s = n /\ bricks s = template_bricks
           /\ (forall b, In b (map snd template_bricks) -> cache_exact s b)
           /\ forall brick, can_not_place_somewhere s brick = Ok false).
Proof.
  destruct (Z.ltb_spec n 0) as [Hneg|Hn0];
    [|destruct (Z.leb_spec 1048576 n) as [Hbig|Hsmall]].
  - left. split; [left; exact Hneg|]. unfold CubeGrid_init.
    rewrite np_zeros_raises by (left; exact Hneg). reflexivity.
  - left. split; [right; exact Hbig|]. unfold CubeGrid_init.
    rewrite np_zeros_raises by (right; exact Hbig). reflexivity.
  - assert (Hn : 0 <= n) by exact Hn0.
    right. split; [lia|].
    set (s0 := {| size := n;
                  grid := replicate (Z.to_nat n)
                            (replicate (Z.to_nat n) (replicate (Z.to_nat n) 0));
                  next_id := 1; placed := []; bricks := template_bricks;
                  valid_placements := map (fun k => (k, [])) template_names;
                  valid_rotations := map (fun k => (k, [])) template_names |}).
    destruct (build_caches_run n (map snd template_bricks) Hn) with (s := s0) (h := 0%nat)
      as (s & h' & Hrun & He & Hkp & Hkr & _ & Hdone).
    { simpl. repeat constructor; simpl; intuition discriminate. }
    { auto. }
    { split; [reflexivity|]. split; [reflexivity|]. split; [reflexivity|]. split.
      - intros b Hb. simpl in Hb.
        destruct Hb as [<-|[<-|[<-|[<-|[<-|[]]]]]]; reflexivity.
      - intros b Hb Hnot. exfalso. apply Hnot, in_map, Hb. }
    assert (Hinit : CubeGrid_init n = Ok s).
    { unfold CubeGrid_init. rewrite (np_zeros_ok n (conj Hn Hsmall)), default_bricks_eq.
      cbn [rbind]. fold s0. rewrite Hrun. reflexivity. }
    exists s. split; [exact Hinit|].
    unfold engine_part in He. injection He as Hsz Hg _ _ Hbr.
    split; [exact Hsz|]. split; [exact Hbr|].
    assert (Hall : forall b, In b (map snd template_bricks) -> cache_exact s b).
    { intros b Hb. apply Hdone; [exact Hb|]. intros []. }
    split; [exact Hall|]. intros brick.
    pose proof (inv_grid _ (Inv_init _ _ Hinit)) as Hok.
    pose proof (CubeGrid_init_range _ _ Hinit) as Hrange. rewrite <- Hsz in Hrange.
    destruct (can_not_place_somewhere_spec s brick Hok Hrange) as ([|] & Hcn & Hiff);
      [|exact Hcn].
    exfalso. destruct (proj1 Hiff eq_refl) as (e & He & _ & Hnone).
    destruct (dict_get String.eqb (name brick) (valid_placements s)) as [cs|] eqn:E.
    + assert (Hin : In (name brick) template_names).
      { rewrite <- Hkp. apply (dict_mem_keys String.eqb string_eqb_iff).
        unfold dict_mem. rewrite E. reflexivity. }
      destruct (template_of_name _ Hin) as (t & Ht & Hname).
      destruct (Hall t Ht) as (_ & _ & Hor). rewrite Hname in Hor.
      apply Hor in He. destruct He as (_ & r & Hr & Hcp).
      rewrite (Hnone r Hr) in Hcp. discriminate.
    + unfold dict_get_default in He. rewrite E in He. destruct He.
Qed.

(** ** Proofs: sorted tuples of cells *)

Lemma coord_leb_spec (a b : Coord) :
  coord_leb a b = true <->
  (cx a < cx b \/ (cx a = cx b /\ (cy a < cy b \/ (cy a = cy b /\ cz a <= cz b)))).
Proof.
  unfold coord_leb.
  rewrite !orb_true_iff, !andb_true_iff, !orb_true_iff, !andb_true_iff.
  rewrite !Z.ltb_lt, !Z.eqb_eq, Z.leb_le. reflexivity.
Qed.

Lemma coord_ext (a b : Coord) : cx a = cx b -> cy a = cy b -> cz a = cz b -> a = b.
Proof.
  destruct a as [[a0 a1] a2], b as [[b0 b1] b2]. unfold cx, cy, cz. simpl.
  intros -> -> ->. reflexivity.
Qed.

Ltac order_facts :=
  repeat match goal with
  | H : coord_leb _ _ = true |- _ => apply coord_leb_spec in H
  | H : coord_leb _ _ = false |- _ =>
      apply not_true_iff_false in H; rewrite coord_leb_spec in H
  end.

Lemma insert_sorted_comm (a b : Coord) (l : list Coord) :
  insert_sorted a (insert_sorted b l) = insert_sorted b (insert_sorted a l).
Proof.
  induction l as [|d l IH]; cbn [insert_sorted].
  - destruct (coord_leb a b) eqn:Eab, (coord_leb b a) eqn:Eba; try reflexivity.
    + assert (a = b) by (order_facts; apply coord_ext; lia). subst. reflexivity.
    + exfalso. order_facts. lia.
  - destruct (coord_leb b d) eqn:Ebd, (coord_leb a d) eqn:Ead;
      cbn [insert_sorted]; rewrite ?Ebd, ?Ead;
      destruct (coord_leb a b) eqn:Eab, (coord_leb b a) eqn:Eba;
      try reflexivity;
      try (rewrite IH; reflexivity);
      try (exfalso; order_facts; lia);
      try (assert (a = b) by (order_facts; apply coord_ext; lia); subst; reflexivity).
Qed.

Lemma insert_sorted_perm (a : Coord) (l : list Coord) :
  Permutation (insert_sorted a l) (a :: l).
Proof.
  induction l as [|d l IH]; simpl; [reflexivity|].
  destruct (coord_leb a d); [reflexivity|].
  rewrite IH. apply perm_swap.
Qed.

Lemma py_sorted_perm (l : list Coord) : Permutation (py_sorted l) l.
Proof.
  induction l as [|a l IH]; simpl; [reflexivity|].
  rewrite insert_sorted_perm, IH. reflexivity.
Qed.

(** Two sequences have the same sorted tuple exactly when they hold the
    same cells, each as many times. *)
Lemma py_sorted_same (l1 l2 : list Coord) :
  py_sorted l1 = py_sorted l2 <-> Permutation l1 l2.
Proof.
  split.
  - intros H. rewrite <- (py_sorted_perm l1), <- (py_sorted_perm l2), H. reflexivity.
  - induction 1 as [|a l l' _ IH|a b l|l l' l'' _ IH1 _ IH2]; simpl.
    + reflexivity.
    + rewrite IH. reflexivity.
    + apply insert_sorted_comm.
    + rewrite IH1. exact IH2.
Qed.

Lemma In_py_sorted (c : Coord) (l : list Coord) : In c (py_sorted l) <-> In c l.
Proof.
  split; apply Permutation_in; [|symmetry]; apply py_sorted_perm.
Qed.

Lemma tuple_eqb_spec (a b : list Coord) : tuple_eqb a b = true <-> a = b.
Proof.
  revert b. induction a as [|c a IH]; intros [|d b]; simpl;
    try (split; [discriminate|discriminate]); [split; reflexivity|].
  rewrite andb_true_iff, coord_eqb_spec, IH. split.
  - intros [-> ->]. reflexivity.
  - intros H. injection H as -> ->. auto.
Qed.

Lemma seen_spec (occ : list Coord) (seen : list (list Coord)) :
  existsb (tuple_eqb occ) seen = true <-> In occ seen.
Proof.
  rewrite existsb_exists. split.
  - intros (o & Ho & E). apply tuple_eqb_spec in E. subst o. exact Ho.
  - intros H. exists occ. split; [exact H|]. apply tuple_eqb_spec. reflexivity.
Qed.

(** ** Proofs: the enumeration of placements of the GUI *)

Lemma touches_cell_spec (s : CubeGrid) (n : Coord) (ds : list Coord) :
  grid_ok s ->
  exists t, touches_cell s n ds = Ok t
    /\ (t = true <->
        exists d, In d ds /\ in_bounds (size s) (coord_add n d) = true
                  /\ grid_get (grid s) (coord_add n d) <> Ok 0).
Proof.
  intros Hok. induction ds as [|d ds (t & Ht & Hiff)]; simpl.
  - exists false. split; [reflexivity|]. split; [discriminate|].
    intros (d & [] & _).
  - destruct (in_bounds (size s) (coord_add n d)) eqn:Eb.
    + destruct (cell_total s _ Hok Eb) as (v & Hv). rewrite Hv. cbn [rbind].
      destruct (v =? 0) eqn:Ev; simpl.
      * apply Z.eqb_eq in Ev. subst v. exists t. split; [exact Ht|].
        rewrite Hiff. split.
        -- intros (d0 & H0 & H1). exists d0. auto.
        -- intros (d0 & [<-|H0] & H1 & H2); [contradiction|]. exists d0. auto.
      * exists true. split; [reflexivity|]. split; [|reflexivity]. intros _.
        exists d. split; [left; reflexivity|]. split; [exact Eb|].
        rewrite Hv. intros H. injection H as ->. discriminate.
    + exists t. split; [exact Ht|]. rewrite Hiff. split.
      * intros (d0 & H0 & H1). exists d0. auto.
      * intros (d0 & [<-|H0] & H1 & H2); [congruence|]. exists d0. auto.
Qed.

Lemma touches_spec (s : CubeGrid) (pos : Coord) (cs : list Coord) :
  grid_ok s ->
  exists t, touches s pos cs = Ok t
    /\ (t = true <-> touching s (map (coord_add pos) cs)).
Proof.
  intros Hok. unfold touching. induction cs as [|c cs (t & Ht & Hiff)]; cbn [touches map].
  - exists false. split; [reflexivity|]. split; [discriminate|].
    intros (c & d & [] & _).
  - destruct (touches_cell_spec s (coord_add pos c) neighbour_offsets Hok)
      as ([|] & Hc & Hciff); rewrite Hc; cbn [rbind].
    + exists true. split; [reflexivity|]. split; [|reflexivity]. intros _.
      destruct (proj1 Hciff eq_refl) as (d & Hd & H1 & H2).
      exists (coord_add pos c), d. split; [left; reflexivity|auto].
    + exists t. split; [exact Ht|]. rewrite Hiff. split.
      * intros (c0 & d & H0 & H1). exists c0, d. split; [right; exact H0|exact H1].
      * intros (c0 & d & [<-|H0] & Hd & H1 & H2).
        -- assert (false = true); [|discriminate]. apply Hciff. exists d. auto.
        -- exists c0, d. auto.
Qed.

Lemma touching_sorted (s : CubeGrid) (cs : list Coord) :
  touching s (py_sorted cs) <-> touching s cs.
Proof.
  unfold touching. split; intros (c & d & Hc & H); exists c, d;
    (split; [|exact H]); apply In_py_sorted; exact Hc.
Qed.

Lemma NoDup_snoc {A : Type} (l : list A) (x : A) :
  List.NoDup l -> ~ In x l -> List.NoDup (l ++ [x]).
Proof.
  induction 1 as [|a l Ha Hl IH]; simpl; intros Hx.
  - constructor; [intros []|constructor].
  - constructor.
    + rewrite in_app_iff. simpl. intros [H|[H|[]]]; [contradiction|].
      apply Hx. left. symmetry. exact H.
    + apply IH. intros H. apply Hx. right. exact H.
Qed.

Lemma placement_cells_at (b0 b : Brick) (pos rot : Coord) :
  oriented_at b0 rot = Ok b -> placement_cells b0 (pos, rot) = cells b pos.
Proof. intros H. unfold placement_cells. simpl. rewrite H. reflexivity. Qed.

Lemma find_step_run (s : CubeGrid) (b0 : Brick) (oa : bool) (rot : Coord) (b : Brick)
  (pos : Coord) (acc : list (Coord * Coord) * list (list Coord)) :
  grid_ok s -> in_bounds 4 rot = true -> oriented_at b0 rot = Ok b ->
  in_bounds (size s) pos = true ->
  find_inv s b0 oa acc ->
  exists acc',
    find_step s oa b rot pos acc = Ok acc'
    /\ find_inv s b0 oa acc'
    /\ (forall o, In o (snd acc) -> In o (snd acc'))
    /\ (can_place s b pos = Ok true -> In (py_sorted (cells b pos)) (snd acc')).
Proof.
  intros Hok Hrot Hor Hpos Hinv. destruct acc as [found seen].
  unfold find_step. fold (cells b pos).
  destruct (can_place_total s b pos Hok) as [Hno|[Hyes _]].
  { rewrite Hno. cbn [rbind]. exists (found, seen). split; [reflexivity|].
    split; [exact Hinv|]. split; [auto|]. discriminate. }
  rewrite Hyes. cbn [rbind].
  destruct (existsb (tuple_eqb (py_sorted (cells b pos))) seen) eqn:Eseen.
  { apply seen_spec in Eseen. exists (found, seen). split; [reflexivity|].
    split; [exact Hinv|]. split; [auto|]. intros _. exact Eseen. }
  assert (Hnew : ~ In (py_sorted (cells b pos)) seen).
  { intros H. apply seen_spec in H. rewrite H in Eseen. discriminate. }
  destruct Hinv as (H1 & H2 & H3 & H4). simpl in H1, H2, H3, H4.
  assert (Hwith : (oa = true -> touching s (cells b pos)) ->
            find_inv s b0 oa (found ++ [(pos, rot)], seen ++ [py_sorted (cells b pos)])).
  { intros Htouch. unfold find_inv. simpl. split; [|split; [|split]].
    - intros p Hp. apply in_app_iff in Hp. destruct Hp as [Hp|[<-|[]]]; [apply H1, Hp|].
      simpl. split; [exact Hrot|]. split; [exact Hpos|]. exists b. auto.
    - intros p Hp. apply in_app_iff. apply in_app_iff in Hp.
      destruct Hp as [Hp|[<-|[]]]; [left; apply H2, Hp|].
      right. left. rewrite (placement_cells_at b0 b pos rot Hor). reflexivity.
    - rewrite map_app. simpl. rewrite (placement_cells_at b0 b pos rot Hor).
      apply NoDup_snoc; [exact H3|]. intros Hin. apply in_map_iff in Hin.
      destruct Hin as (p & Hp & Hin). apply Hnew. rewrite <- Hp. apply H2, Hin.
    - intros o Ho Ht. apply in_app_iff in Ho. destruct Ho as [Ho|[<-|[]]].
      + destruct (H4 o Ho Ht) as (p & Hp & E). exists p. split; [|exact E].
        apply in_app_iff. left. exact Hp.
      + exists (pos, rot). split; [apply in_app_iff; right; left; reflexivity|].
        rewrite (placement_cells_at b0 b pos rot Hor). reflexivity. }
  assert (Hwithout : ~ touching s (cells b pos) -> oa = true ->
            find_inv s b0 oa (found, seen ++ [py_sorted (cells b pos)])).
  { intros Hnt Hoa. unfold find_inv. simpl. split; [|split; [|split]].
    - exact H1.
    - intros p Hp. apply in_app_iff. left. apply H2, Hp.
    - exact H3.
    - intros o Ho Ht. apply in_app_iff in Ho. destruct Ho as [Ho|[<-|[]]].
      + apply (H4 o Ho Ht).
      + exfalso. apply Hnt, touching_sorted, Ht, Hoa. }
  assert (Hmono : forall o, In o seen -> In o (seen ++ [py_sorted (cells b pos)])).
  { intros o Ho. apply in_app_iff. left. exact Ho. }
  assert (Hin : In (py_sorted (cells b pos)) (seen ++ [py_sorted (cells b pos)])).
  { apply in_app_iff. right. left. reflexivity. }
  destruct oa.
  - destruct (touches_spec s pos (cubes b) Hok) as ([|] & Ht & Htiff);
      rewrite Ht; cbn [rbind negb].
    + eexists. split; [reflexivity|]. split; [|split; [exact Hmono|intros _; exact Hin]].
      apply Hwith. intros _. apply Htiff. reflexivity.
    + eexists. split; [reflexivity|]. split; [|split; [exact Hmono|intros _; exact Hin]].
      apply Hwithout; [|reflexivity]. intros H. apply Htiff in H. discriminate.
  - eexists. split; [reflexivity|]. split; [|split; [exact Hmono|intros _; exact Hin]].
    apply Hwith. discriminate.
Qed.
Lemma find_positions_run (s : CubeGrid) (b0 : Brick) (oa : bool) (rot : Coord)
  (b : Brick) (l : list Coord) (acc : list (Coord * Coord) * list (list Coord)) :
  grid_ok s -> in_bounds 4 rot = true -> oriented_at b0 rot = Ok b ->
  (forall pos, In pos l -> in_bounds (size s) pos = true) ->
  find_inv s b0 oa acc ->
  exists acc',
    rfold l (fun pos acc => find_step s oa b rot pos acc) acc = Ok acc'
    /\ find_inv s b0 oa acc'
    /\ (forall o, In o (snd acc) -> In o (snd acc'))
    /\ (forall pos, In pos l -> can_place s b pos = Ok true ->
          In (py_sorted (cells b pos)) (snd acc')).
Proof.
  intros Hok Hrot Hor. revert acc. induction l as [|pos l IH]; intros acc Hl Hinv.
  - exists acc. split; [reflexivity|]. split; [exact Hinv|]. split; [auto|].
    intros pos [].
  - destruct (find_step_run s b0 oa rot b pos acc Hok Hrot Hor
                (Hl pos (or_introl eq_refl)) Hinv) as (acc1 & Hrun1 & Hinv1 & Hm1 & Hc1).
    destruct (IH acc1 (fun p Hp => Hl p (or_intror Hp)) Hinv1)
      as (acc' & Hrun & Hinv' & Hm & Hc).
    exists acc'. split; [cbn [rfold]; rewrite Hrun1; exact Hrun|].
    split; [exact Hinv'|]. split; [auto|].
    intros p [<-|Hp] Hfit; [apply Hm, Hc1, Hfit|apply Hc; assumption].
Qed.

Lemma oriented_at_origin (b0 : Brick) (rx ry rz : Z) (o : Brick) :
  Brick_ok b0 -> oriented b0 rx ry rz = Ok o -> Brick_ok o /\ at_origin o.
Proof.
  intros [Hlen Hname]. unfold oriented, rotated.
  destruct (Brick_init_ok (map (fun c => rotate_point c rx ry rz) (cubes b0)) (name b0))
    as (r & Hr & _ & Hokr & _).
  { rewrite length_map. exact Hlen. }
  rewrite Hr. cbn [rbind].
  destruct (normalized_run r Hokr) as (o' & t & Ho & Hoko & _ & _ & Hat).
  rewrite Ho. intros H. injection H as <-. auto.
Qed.

Lemma fits_in_bounds (s : CubeGrid) (b : Brick) (pos : Coord) :
  grid_ok s -> at_origin b -> can_place s b pos = Ok true ->
  in_bounds (size s) pos = true.
Proof.
  intros Hok (_ & (c1 & Hc1 & Hx) & (c2 & Hc2 & Hy) & (c3 & Hc3 & Hz)) Hfit.
  destruct (can_place_total s b pos Hok) as [Hno|[_ Hall]]; [congruence|].
  destruct (Hall c1 Hc1) as [H1 _], (Hall c2 Hc2) as [H2 _], (Hall c3 Hc3) as [H3 _].
  destruct pos as [[x y] z], c1 as [[x1 y1] z1], c2 as [[x2 y2] z2], c3 as [[x3 y3] z3].
  unfold cx, cy, cz in *. simpl in *.
  apply in_bounds_spec in H1, H2, H3. apply in_bounds_spec. lia.
Qed.

Lemma find_rotations_run (s : CubeGrid) (b0 : Brick) (oa : bool) (L : list Coord)
  (acc : list (Coord * Coord) * list (list Coord)) :
  grid_ok s -> Brick_ok b0 ->
  (forall rot, In rot L -> in_bounds 4 rot = true) ->
  find_inv s b0 oa acc ->
  exists acc',
    rfold L (fun rot acc =>
               let? r := rotated b0 (cx rot) (cy rot) (cz rot) in
               let? b := normalized r in
               rfold (all_cells (size s))
                 (fun pos acc => find_step s oa b rot pos acc) acc) acc = Ok acc'
    /\ find_inv s b0 oa acc'
    /\ (forall o, In o (snd acc) -> In o (snd acc'))
    /\ (forall rot b pos, In rot L -> oriented_at b0 rot = Ok b ->
          in_bounds (size s) pos = true -> can_place s b pos = Ok true ->
          In (py_sorted (cells b pos)) (snd acc')).
Proof.
  intros Hok Hb0. revert acc. induction L as [|rot L IH]; intros acc HL Hinv.
  - exists acc. split; [reflexivity|]. split; [exact Hinv|]. split; [auto|].
    intros rot b pos [].
  - destruct (oriented_run b0 (cx rot) (cy rot) (cz rot) Hb0) as (b & Hor & _).
    destruct (find_positions_run s b0 oa rot b (all_cells (size s)) acc Hok
                (HL rot (or_introl eq_refl)) Hor) as (acc1 & Hrun1 & Hinv1 & Hm1 & Hc1).
    { intros pos Hpos. apply In_all_cells, Hpos. }
    { exact Hinv. }
    destruct (IH acc1 (fun r Hr => HL r (or_intror Hr)) Hinv1)
      as (acc' & Hrun & Hinv' & Hm & Hc).
    exists acc'. split.
    { cbn [rfold]. pose proof Hor as Hor'. unfold oriented in Hor'.
      destruct (rotated b0 (cx rot) (cy rot) (cz rot)) as [r|e]; [|discriminate].
      cbn [rbind] in Hor'. cbn [rbind]. rewrite Hor'. cbn [rbind].
      rewrite Hrun1. exact Hrun. }
    split; [exact Hinv'|]. split; [auto|].
    intros rot' b' pos [<-|Hin] Hor' Hpos Hfit.
    + unfold oriented_at in Hor'. rewrite Hor in Hor'. injection Hor' as <-.
      apply Hm, Hc1; [apply In_all_cells, Hpos|exact Hfit].
    + apply (Hc rot' b' pos Hin Hor' Hpos Hfit).
Qed.

(** The loops of [_find_placements] visit the rotations of [range(4)]
    cubed and, for each, the origins of the grid, in order. *)
Lemma find_placements_flat (app_bricks : list (string * Brick)) (bid : string)
  (oa : bool) (s : CubeGrid) (b0 : Brick) :
  dict_get String.eqb bid app_bricks = Some b0 ->
  find_placements app_bricks bid oa s
  = let? (found, _) :=
      rfold (all_cells 4) (fun rot acc =>
               let? r := rotated b0 (cx rot) (cy rot) (cz rot) in
               let? b := normalized r in
               rfold (all_cells (size s))
                 (fun pos acc => find_step s oa b rot pos acc) acc) ([], []) in
    Ok found.
Proof.
  intros Hget. unfold find_placements. rewrite Hget.
  rewrite <- (rfold_all_cells 4
                (fun rot acc =>
                   let? r := rotated b0 (cx rot) (cy rot) (cz rot) in
                   let? b := normalized r in
                   rfold (all_cells (size s))
                     (fun pos acc => find_step s oa b rot pos acc) acc)).
  f_equal. apply rfold_ext. intros rx acc. apply rfold_ext. intros ry acc'.
  apply rfold_ext. intros rz acc''. unfold cx, cy, cz. simpl.
  destruct (rotated b0 rx ry rz) as [r|e]; [|reflexivity]. cbn [rbind].
  destruct (normalized r) as [b|e]; [|reflexivity]. cbn [rbind].
  apply (rfold_all_cells (size s) (fun pos acc => find_step s oa b (rx, ry, rz) pos acc)).
Qed.

Lemma lookup_In {A : Type} (l : list A) (i : nat) (x : A) : l !! i = Some x -> In x l.
Proof.
  revert i. induction l as [|a l IH]; intros [|i]; simpl; try discriminate.
  - intros H. injection H as ->. left. reflexivity.
  - intros H. right. apply (IH i H).
Qed.

Lemma NoDup_map_lookup {A B : Type} (f : A -> B) (l : list A) (i j : nat) (p q : A) :
  List.NoDup (map f l) -> l !! i = Some p -> l !! j = Some q -> f p = f q -> i = j.
Proof.
  revert i j. induction l as [|a l IH]; intros i j Hnd Hi Hj E; [destruct i; discriminate|].
  simpl in Hnd. inversion Hnd as [|x xs Hnotin Hnd']; subst.
  destruct i as [|i], j as [|j]; simpl in Hi, Hj.
  - reflexivity.
  - injection Hi as ->. exfalso. apply Hnotin. rewrite E. apply in_map.
    apply (lookup_In _ _ _ Hj).
  - injection Hj as ->. exfalso. apply Hnotin. rewrite <- E. apply in_map.
    apply (lookup_In _ _ _ Hi).
  - f_equal. apply (IH i j Hnd' Hi Hj E).
Qed.

(** X17: the enumeration of placements of the GUI, for a brick id of the
    brick table whose brick has four cubes, on a grid of the announced
    shape.  The call never raises.  Every entry it returns is a rotation of
    range(4) cubed and an origin of the grid at which the normalized
    rotation of the brick passes [can_place] (so that [place] accepts it
    and returns the next id, when that id is an integer a cell can hold),
    and with [only_adjacent] one of its cells has an occupied face
    neighbour.  No two entries occupy the same cells.
    Every fitting placement of a rotation of range(4) cubed (touching an
    occupied cell, with [only_adjacent]) occupies the cells of some entry.
    With [only_adjacent] nothing is returned on a grid without occupied
    cell.  An id outside the brick table gives the empty list. *)
Theorem find_placements_exact (app_bricks : list (string * Brick)) (bid : string)
  (only_adjacent : bool) (s : CubeGrid) (b0 : Brick) :
  grid_ok s -> dict_get String.eqb bid app_bricks = Some b0 -> Brick_ok b0 ->
  exists found,
    find_placements app_bricks bid only_adjacent s = Ok found
    /\ (forall pos rot, In (pos, rot) found ->
          in_bounds 4 rot = true /\ in_bounds (size s) pos = true
          /\ exists b,
               oriented_at b0 rot = Ok b
               /\ can_place s b pos = Ok true
               /\ (only_adjacent = true -> touching s (cells b pos))
               /\ (in_int64 (next_id s) ->
                   exists s', place b pos s = (Ok (next_id s), s')))
    /\ (forall i j p q, found !! i = Some p -> found !! j = Some q ->
          Permutation (placement_cells b0 p) (placement_cells b0 q) -> i = j)
    /\ (forall rot b pos,
          in_bounds 4 rot = true -> oriented_at b0 rot = Ok b ->
          can_place s b pos = Ok true ->
          (only_adjacent = true -> touching s (cells b pos)) ->
          exists p, In p found /\ Permutation (placement_cells b0 p) (cells b pos))
    /\ (only_adjacent = true ->
        (forall c, in_bounds (size s) c = true -> grid_get (grid s) c = Ok 0) ->
        found = [])
    /\ (forall bid', dict_get String.eqb bid' app_bricks = None ->
          find_placements app_bricks bid' only_adjacent s = Ok []).
Proof.
  intros Hok Hget Hb0.
  destruct (find_rotations_run s b0 only_adjacent (all_cells 4) ([], []) Hok Hb0)
    as ([found seen] & Hrun & (H1 & H2 & H3 & H4) & _ & Hcomp).
  { intros rot Hrot. apply In_all_cells, Hrot. }
  { unfold find_inv. simpl. split; [intros p []|]. split; [intros p []|].
    split; [constructor|]. intros o []. }
  cbn [fst snd] in H1, H2, H3, H4, Hcomp.
  assert (Hsound : forall pos rot, In (pos, rot) found ->
            in_bounds 4 rot = true /\ in_bounds (size s) pos = true
            /\ exists b,
                 oriented_at b0 rot = Ok b
                 /\ can_place s b pos = Ok true
                 /\ (only_adjacent = true -> touching s (cells b pos))
                 /\ (in_int64 (next_id s) ->
                     exists s', place b pos s = (Ok (next_id s), s'))).
  { intros pos rot Hin. destruct (H1 _ Hin) as (Hrot & Hpos & b & Hor & Hfit & Ht).
    simpl in Hrot, Hpos, Hor, Hfit, Ht.
    split; [exact Hrot|]. split; [exact Hpos|].
    destruct (place_accepts s b pos Hok Hfit) as (g' & Hplace & _).
    exists b. split; [exact Hor|]. split; [exact Hfit|]. split; [exact Ht|].
    intros _. exists (placed_state s g' b pos). exact Hplace. }
  exists found. split.
  { rewrite (find_placements_flat app_bricks bid only_adjacent s b0 Hget), Hrun.
    reflexivity. }
  split; [exact Hsound|]. split.
  { intros i j p q Hi Hj Hperm.
    apply (NoDup_map_lookup (fun p => py_sorted (placement_cells b0 p)) found i j p q H3 Hi Hj).
    apply py_sorted_same, Hperm. }
  split.
  { intros rot b pos Hrot Hor Hfit Ht.
    destruct (oriented_at_origin b0 _ _ _ b Hb0 Hor) as [_ Hat].
    pose proof (fits_in_bounds s b pos Hok Hat Hfit) as Hpos.
    assert (Hseen : In (py_sorted (cells b pos)) seen).
    { apply (Hcomp rot b pos); [apply In_all_cells, Hrot|assumption..]. }
    destruct (H4 _ Hseen) as (p & Hp & E).
    { intros Hoa. apply touching_sorted, Ht, Hoa. }
    exists p. split; [exact Hp|]. apply py_sorted_same, E. }
  split.
  { intros Hoa Hzero. destruct found as [|[pos rot] rest]; [reflexivity|]. exfalso.
    destruct (Hsound pos rot (or_introl eq_refl)) as (_ & _ & b & _ & _ & Ht & _).
    destruct (Ht Hoa) as (c & d & _ & _ & Hin & Hnz). apply Hnz, Hzero, Hin. }
  intros bid' Hnone. unfold find_placements. rewrite Hnone. reflexivity.
Qed.

Lemma find_placements_exact_witness :
  exists s found,
    grid_ok s /\ find_placements template_bricks "T" true s = Ok found.
Proof.
  destruct one_square_entry as (s & Hr & _).
  pose proof (inv_grid _ (reachable_Inv _ Hr)) as Hok.
  destruct (find_placements_exact template_bricks "T" true s T_brick Hok eq_refl)
    as (found & Hrun & _).
  { split; [reflexivity|discriminate]. }
  exists s, found. auto.
Defined.

(** ** Proofs: the indicator and the place button of the GUI *)

Lemma cell_is_empty_false (s : CubeGrid) (c : Coord) :
  cell_is_empty s c = false <-> grid_get (grid s) c <> Ok 0.
Proof.
  unfold cell_is_empty. destruct (grid_get (grid s) c) as [v|e].
  - split.
    + intros H E. injection E as ->. discriminate.
    + intros H. apply Z.eqb_neq. intros ->. apply H. reflexivity.
  - split; [discriminate|reflexivity].
Qed.

Lemma no_empty_cell (s : CubeGrid) :
  count_of (cell_is_empty s) (all_cells (size s)) = 0 <->
  forall c, in_bounds (size s) c = true -> grid_get (grid s) c <> Ok 0.
Proof.
  rewrite count_of_zero. split.
  - intros H c Hc. apply cell_is_empty_false, H, In_all_cells, Hc.
  - intros H c Hc. apply cell_is_empty_false, H, In_all_cells, Hc.
Qed.

(** When the oracle answers false, every empty cached origin admits a
    cached orientation that fits. *)
Lemma oracle_false_fits (s : CubeGrid) (brick : Brick) :
  grid_ok s -> origins_in_range (size s) s ->
  can_not_place_somewhere s brick = Ok false ->
  forall e, In e (cached_origins s (name brick)) -> grid_get (grid s) e = Ok 0 ->
  exists b, In b (cached_rotations s (name brick)) /\ can_place s (deref b) e = Ok true.
Proof.
  intros Hok Hrange Hcn e He Hz.
  destruct (can_not_place_somewhere_spec s brick Hok Hrange) as (r & Hr & Hiff).
  rewrite Hcn in Hr. injection Hr as <-.
  destruct (some_rotation_fits_spec s e (cached_rotations s (name brick)) Hok)
    as ([|] & Hfit & Hall).
  - apply some_rotation_fits_true, Hfit.
  - exfalso. assert (false = true); [|discriminate]. apply Hiff.
    exists e. split; [exact He|]. split; [exact Hz|]. apply Hall. reflexivity.
Qed.

(** X18: the indicator of the GUI on a reachable state, when a 'T' brick
    is defined.  The update never raises.  It shows 'Complete' exactly when
    no cell is empty; otherwise it shows the positive number of empty cells
    and the number of valid placements.  NO means that some empty cached
    origin admits no cached orientation; YES with 0 valid placements is
    shown exactly when none of the cached origins is empty. *)
Theorem update_indicator_meaning (app_bricks : list (string * Brick)) (s : CubeGrid)
  (t : Brick) :
  reachable s -> dict_get String.eqb "T" app_bricks = Some t ->
  exists ind,
    update_indicator app_bricks s = Ok ind
    /\ ind <> NoTDefined
    /\ (ind = Complete <->
        forall c, in_bounds (size s) c = true -> grid_get (grid s) c <> Ok 0)
    /\ (forall num k, ind = TYes num k \/ ind = TNo num k ->
          num_left s = Ok num /\ 0 < num
          /\ exists l, validate_placements s t = Ok l /\ length l = k)
    /\ (forall num k, ind = TNo num k ->
          exists e,
            In e (cached_origins s (name t)) /\ grid_get (grid s) e = Ok 0
            /\ forall b, In b (cached_rotations s (name t)) ->
                 can_place s (deref b) e = Ok false)
    /\ (forall num k, ind = TYes num k ->
          (k = 0%nat <->
           forall e, In e (cached_origins s (name t)) -> grid_get (grid s) e <> Ok 0)).
Proof.
  intros Hr Hget. pose proof (inv_grid _ (reachable_Inv _ Hr)) as Hok.
  pose proof (reachable_origins _ Hr) as Hrange.
  pose proof (num_left_counts_cells s Hok) as Hnum.
  pose proof (count_of_bounds (cell_is_empty s) (all_cells (size s))) as [Hge _].
  unfold update_indicator. rewrite Hget, Hnum. cbn [rbind].
  destruct (count_of (cell_is_empty s) (all_cells (size s)) =? 0) eqn:Ez.
  - apply Z.eqb_eq in Ez. exists Complete. split; [reflexivity|].
    split; [discriminate|]. split.
    { split; [intros _; apply no_empty_cell, Ez|reflexivity]. }
    split; [intros num k [H|H]; discriminate|].
    split; intros num k H; discriminate.
  - apply Z.eqb_neq in Ez.
    assert (Hsome : ~ forall c, in_bounds (size s) c = true ->
                        grid_get (grid s) c <> Ok 0).
    { intros H. apply Ez, no_empty_cell, H. }
    destruct (validate_placements_spec s t Hok Hrange) as (l & Hl & Hliff).
    destruct (can_not_place_somewhere_spec s t Hok Hrange) as ([|] & Hcn & Hiff);
      rewrite Hl, Hcn; cbn [rbind negb].
    + exists (TNo (count_of (cell_is_empty s) (all_cells (size s))) (length l)).
      split; [reflexivity|]. split; [discriminate|]. split.
      { split; [discriminate|]. intros H. contradiction. }
      split.
      { intros num k [H|H]; [discriminate|]. injection H as <- <-.
        split; [reflexivity|]. split; [lia|]. exists l. auto. }
      split.
      { intros num k _. apply Hiff. reflexivity. }
      intros num k H. discriminate.
    + exists (TYes (count_of (cell_is_empty s) (all_cells (size s))) (length l)).
      split; [reflexivity|]. split; [discriminate|]. split.
      { split; [discriminate|]. intros H. contradiction. }
      split.
      { intros num k [H|H]; [|discriminate]. injection H as <- <-.
        split; [reflexivity|]. split; [lia|]. exists l. auto. }
      split; [intros num k H; discriminate|].
      intros num k H. injection H as _ <-. split.
      * intros Hlen e He Hz. destruct l as [|x l']; [|discriminate].
        destruct (oracle_false_fits s t Hok Hrange Hcn e He Hz) as (b & Hb & Hfit).
        apply (proj2 (Hliff b e)). auto.
      * intros Hnone. destruct l as [|[b e] l']; [reflexivity|]. exfalso.
        destruct (proj1 (Hliff b e) (or_introl eq_refl)) as (He & Hz & _).
        apply (Hnone e He Hz).
Qed.

Lemma update_indicator_meaning_witness :
  exists s ind, reachable s /\ update_indicator template_bricks s = Ok ind.
Proof.
  destruct one_square_entry as (s & Hr & _).
  destruct (update_indicator_meaning template_bricks s T_brick Hr eq_refl)
    as (ind & H & _).
  exists s, ind. auto.
Defined.

Lemma draw_loop (s : CubeGrid) (l : list Coord) (acc : list (Coord * Z)) :
  grid_ok s -> (forall c, In c l -> in_bounds (size s) c = true) ->
  exists v,
    rfold l (fun (c : Coord) (acc : list (Coord * Z)) =>
               let? pid := grid_get (grid s) c in
               Ok (if negb (pid =? 0) then acc ++ [(c, pid)] else acc)) acc = Ok v.
Proof.
  intros Hok. revert acc. induction l as [|c l IH]; intros acc Hl.
  - exists acc. reflexivity.
  - destruct (cell_total s c Hok (Hl c (or_introl eq_refl))) as (v & Hv).
    cbn [rfold]. rewrite Hv. cbn [rbind].
    apply IH. intros c' Hc'. apply Hl. right. exact Hc'.
Qed.

(** On a grid of the announced shape [_draw] reads cells in range only. *)
Lemma draw_runs (s : CubeGrid) : grid_ok s -> exists v, draw s = Ok v.
Proof.
  intros Hok. unfold draw. destruct (np_any_nonzero (grid s)); [|eauto].
  rewrite (rfold_all_cells (size s)
             (fun (c : Coord) (acc : list (Coord * Z)) =>
                let? pid := grid_get (grid s) c in
                Ok (if negb (pid =? 0) then acc ++ [(c, pid)] else acc))).
  apply draw_loop; [exact Hok|]. intros c Hc. apply In_all_cells, Hc.
Qed.

(** On a reachable state the indicator is computed without an exception,
    whatever the brick table. *)
Lemma update_indicator_runs (app_bricks : list (string * Brick)) (s : CubeGrid) :
  reachable s -> exists ind, update_indicator app_bricks s = Ok ind.
Proof.
  intros Hr. pose proof (inv_grid _ (reachable_Inv _ Hr)) as Hok.
  pose proof (reachable_origins _ Hr) as Hrange.
  unfold update_indicator.
  destruct (dict_get String.eqb "T" app_bricks) as [t|]; [|eauto].
  rewrite (num_left_counts_cells s Hok). cbn [rbind].
  destruct (count_of (cell_is_empty s) (all_cells (size s)) =? 0); [eauto|].
  destruct (validate_placements_spec s t Hok Hrange) as (l & Hl & _).
  destruct (can_not_place_somewhere_spec s t Hok Hrange) as (r & Hcn & _).
  rewrite Hl, Hcn. cbn [rbind]. destruct (negb r); eauto.
Qed.

(** X19: the place button of the GUI, for a brick id of the brick table
    whose brick has four cubes, on a reachable state whose counter
    [next_id] is an integer a cell can hold.  The handler never raises and
    never shows the error box: either the rotated and normalized brick
    does not fit, the warning is shown and the state is untouched, or it
    fits, [place] returns [next_id], the three updates of the window after
    it run without an exception, and the handler leaves the state that
    [place] leaves, with the brick registered under the former
    [next_id]. *)
Theorem on_place_outcome (app_bricks : list (string * Brick)) (bid : string)
  (pos rot : Coord) (s : CubeGrid) (b0 : Brick) :
  reachable s -> in_int64 (next_id s) ->
  dict_get String.eqb bid app_bricks = Some b0 -> Brick_ok b0 ->
  exists b,
    oriented b0 (cx rot) (cy rot) (cz rot) = Ok b
    /\ ((can_place s b pos = Ok false
         /\ on_place app_bricks bid pos rot s = (Ok CannotPlace, s))
        \/ (can_place s b pos = Ok true
            /\ exists s' cells ind,
                 place b pos s = (Ok (next_id s), s')
                 /\ draw s' = Ok cells
                 /\ update_indicator app_bricks s' = Ok ind
                 /\ on_place app_bricks bid pos rot s = (Ok (Placed (next_id s)), s')
                 /\ dict_get Z.eqb (next_id s) (placed s') = Some (next_id s, b, pos))).
Proof.
  intros Hr _ Hget Hb0. pose proof (inv_grid _ (reachable_Inv _ Hr)) as Hok.
  destruct (oriented_run b0 (cx rot) (cy rot) (cz rot) Hb0) as (b & Hor & Hb & _).
  exists b. split; [exact Hor|].
  unfold on_place, bind, lift, dict_getitem. rewrite Hget, Hor.
  destruct (can_place_total s b pos Hok) as [Hno|[Hyes _]].
  - left. split; [exact Hno|]. rewrite Hno. reflexivity.
  - right. split; [exact Hyes|]. rewrite Hyes. cbn [negb].
    destruct (place_accepts s b pos Hok Hyes) as (g' & Hplace & _).
    set (s' := placed_state s g' b pos) in *.
    assert (Hr' : reachable s') by (apply (reach_place s s' b pos (next_id s) Hr Hb Hplace)).
    destruct (draw_runs s' (inv_grid _ (reachable_Inv _ Hr'))) as (v & Hdraw).
    destruct (update_indicator_runs app_bricks s' Hr') as (ind & Hind).
    exists s', v, ind. split; [exact Hplace|]. split; [exact Hdraw|].
    split; [exact Hind|]. split.
    + unfold gets, ret. rewrite Hplace. cbn beta iota.
      rewrite Hdraw. cbn beta iota. rewrite Hind. reflexivity.
    + unfold s', placed_state. simpl.
      rewrite (dict_get_set Z.eqb Z_eqb_iff), Z.eqb_refl. reflexivity.
Qed.

Lemma on_place_outcome_witness :
  exists s b, reachable s /\ in_int64 (next_id s) /\ oriented T_brick 1 2 3 = Ok b.
Proof.
  destruct one_square_counter as (s & Hr & Hid & _).
  assert (H64 : in_int64 (next_id s)) by (rewrite Hid; unfold in_int64; lia).
  destruct (on_place_outcome template_bricks "T" (0, 0, 0) (1, 2, 3) s T_brick Hr H64 eq_refl)
    as (b & H & _).
  { split; [reflexivity|discriminate]. }
  exists s, b. auto.
Defined.

(** ** Proofs: a load that fails *)

Lemma load_item_keeps_next_id (item : Item) (m : Z) : keeps next_id (load_item item m).
Proof. unfold load_item. frame. Qed.

Lemma load_keeps_bricks (data : Snapshot) : keeps bricks (load_from_file data).
Proof. unfold load_from_file. frame. Qed.

(** X20: a load that fails is not undone.  The document is one whose
    size, ids, cubes and positions are integers, as [Snapshot] has them.
    When the announced size is negative or from 2^20 on, [np.zeros] raises
    ValueError with the size already overwritten and nothing else changed.
    When [np.zeros] returns and the first record has not four cubes, the
    load raises ValueError and leaves an empty grid of the new size and an
    empty registry.  Whenever the load of a document whose ids are
    integers a cell can hold raises, the size is the announced one and
    [next_id], the brick table and the caches are the old ones. *)
Theorem load_failure_is_partial (data : Snapshot) (s : CubeGrid) :
  (default 6 (snap_size data) < 0 \/ 1048576 <= default 6 (snap_size data) ->
   load_from_file data s = (Raise ValueError, set_size (default 6 (snap_size data)) s))
  /\ (forall item rest g,
        np_zeros (default 6 (snap_size data)) = Ok g ->
        default [] (snap_placed data) = item :: rest ->
        length (item_cubes item) <> 4%nat ->
        load_from_file data s
        = (Raise ValueError,
           set_placed [] (set_grid g (set_size (default 6 (snap_size data)) s))))
  /\ (forall e s',
        (forall it, In it (default [] (snap_placed data)) -> in_int64 (item_pid it)) ->
        load_from_file data s = (Raise e, s') ->
        size s' = default 6 (snap_size data)
        /\ next_id s' = next_id s /\ bricks s' = bricks s /\ caches s' = caches s).
Proof.
  split; [|split].
  - intros Hbad. unfold load_from_file, bind, modify, lift. cbn beta iota.
    rewrite (np_zeros_raises _ Hbad). reflexivity.
  - intros item rest g Hg Hitems Hlen.
    unfold load_from_file. rewrite Hitems.
    unfold bind, modify, lift. cbn beta iota. rewrite Hg.
    cbn [for_fold]. unfold bind, load_item, lift, Brick_init. cbn beta iota.
    destruct (length (item_cubes item) =? 4)%nat eqn:E;
      [apply Nat.eqb_eq in E; contradiction|].
    reflexivity.
  - intros e s' _ Hrun.
    pose proof (load_sets_size data s) as Hsz.
    pose proof (load_keeps_bricks data s) as Hbr.
    pose proof (load_keeps_caches data s) as Hca.
    rewrite Hrun in Hsz, Hbr, Hca. simpl in Hsz, Hbr, Hca.
    split; [exact Hsz|]. split; [|split; [exact Hbr|exact Hca]].
    revert Hrun. unfold load_from_file, bind, modify, lift. cbn beta iota.
    destruct (np_zeros (default 6 (snap_size data))) as [g|e0].
    + match goal with
      | |- context [for_fold ?l load_item 0 ?st] =>
          pose proof (keeps_for_fold next_id l load_item 0
                        (fun a x => load_item_keeps_next_id a x) st) as Hk;
          destruct (for_fold l load_item 0 st) as [[m|e1] st']
      end.
      * discriminate.
      * intros H. injection H as _ <-. simpl in Hk. exact Hk.
    + intros H. injection H as _ <-. reflexivity.
Qed.

Lemma load_failure_is_partial_witness :
  exists s,
    load_from_file
      {| snap_size := Some (-1); snap_next_id := None; snap_placed := None |} s
    = (Raise ValueError, set_size (-1) s).
Proof.
  destruct one_square_entry as (s & _). exists s.
  apply (proj1 (load_failure_is_partial
                  {| snap_size := Some (-1); snap_next_id := None; snap_placed := None |}
                  s)).
  left. simpl. lia.
Defined.

Lemma constructor_builds_exact_caches_witness :
  exists s, CubeGrid_init 2 = Ok s /\ can_not_place_somewhere s T_brick = Ok false.
Proof.
  destruct (constructor_builds_exact_caches 2) as [[H _]|(_ & s & H1 & _ & _ & _ & H5)];
    [lia|].
  exists s. auto.
Defined.

(** ** Proofs: loading any document *)

Lemma load_items_run (items : list Item) :
  forall (t : CubeGrid) (m : Z),
  grid_ok t ->
  (forall it, In it items ->
     length (item_cubes it) = 4%nat
     /\ forall c, In c (item_cells it) -> in_bounds (size t) c = true) ->
  exists g',
    for_fold items load_item m t
      = (Ok (running_max m (map item_pid items)),
         set_placed (loaded_registry items (placed t)) (set_grid g' t))
    /\ shape3 (Z.to_nat (size t)) g'
    /\ forall c, in_bounds (size t) c = true ->
         grid_get g' c = painted_items items (grid_get (grid t) c) c.
Proof.
  induction items as [|it items IH]; intros t m Hok Hall.
  - exists (grid t). simpl. unfold ret. rewrite set_grid_same.
    split; [|split; [apply Hok|reflexivity]].
    destruct t. reflexivity.
  - destruct (Hall it (or_introl eq_refl)) as [Hlen Hin].
    assert (Hinit : Brick_init (item_cubes it) (default "" (item_name it))
                    = Ok (item_brick it)).
    { unfold Brick_init. rewrite Hlen. reflexivity. }
    destruct (write_cubes_ok (item_brick it) (item_pos it) (item_pid it) t Hok)
      as (g1 & Hw & Hs1 & Hg1).
    { intros c Hc. apply Hin. unfold item_cells, cells. apply in_map, Hc. }
    set (t1 := set_placed
                 (dict_set Z.eqb (item_pid it)
                    (item_pid it, item_brick it, item_pos it) (placed t))
                 (set_grid g1 t)).
    assert (Hok1 : grid_ok t1) by (split; [apply Hok|exact Hs1]).
    destruct (IH t1 (if item_pid it >? m then item_pid it else m) Hok1)
      as (g' & Hrun & Hs' & Hg').
    { intros it' Hit'. apply (Hall it' (or_intror Hit')). }
    exists g'. split; [|split; [exact Hs'|]].
    + cbn [for_fold]. unfold bind at 1. unfold load_item at 1.
      unfold bind, lift, modify, ret. cbn beta iota.
      rewrite Hinit. cbn beta iota. rewrite Hw. cbn beta iota. cbn [snd fst].
      change (placed (set_grid g1 t)) with (placed t). fold t1. rewrite Hrun. reflexivity.
    + intros c Hc. rewrite (Hg' c Hc). simpl. rewrite (Hg1 c Hc). reflexivity.
Qed.

(** X21: the loader accepts every document whose size [np.zeros] accepts
    (from 0 up to 2^20 - 1, running out of memory apart), whose records
    have four cubes and lie within the grid, and whose ids are integers a
    cell can hold; it checks neither overlaps nor repeated ids.  The load
    returns; it sets the size; each cell holds
    the id of the last record covering it, or 0; the registry is built by
    assigning the records in order under their ids, a later record of the
    same id replacing the earlier one; [next_id] is the document's value
    if present, whatever it is, and otherwise the largest id (or 0) plus 1;
    the brick table and the caches are left alone. *)
Theorem load_accepts_without_validation (data : Snapshot) (s : CubeGrid) :
  0 <= default 6 (snap_size data) < 1048576 ->
  (forall it, In it (default [] (snap_placed data)) ->
     length (item_cubes it) = 4%nat
     /\ in_int64 (item_pid it)
     /\ forall c, In c (item_cells it) ->
          in_bounds (default 6 (snap_size data)) c = true) ->
  exists s',
    load_from_file data s = (Ok tt, s')
    /\ size s' = default 6 (snap_size data)
    /\ grid_ok s'
    /\ (forall c, in_bounds (size s') c = true ->
          grid_get (grid s') c
          = painted_items (default [] (snap_placed data)) (Ok 0) c)
    /\ placed s' = loaded_registry (default [] (snap_placed data)) []
    /\ next_id s'
       = default (max_id (map item_pid (default [] (snap_placed data))) + 1)
           (snap_next_id data)
    /\ bricks s' = bricks s /\ caches s' = caches s.
Proof.
  intros Hbound Hall. pose proof (proj1 Hbound) as Hn.
  set (n := default 6 (snap_size data)) in *.
  set (items := default [] (snap_placed data)) in *.
  set (z := replicate (Z.to_nat n) (replicate (Z.to_nat n) (replicate (Z.to_nat n) 0))).
  set (t0 := set_placed [] (set_grid z (set_size n s))).
  assert (Hok0 : grid_ok t0) by (split; [exact Hn|apply shape3_zeros]).
  destruct (load_items_run items t0 0 Hok0) as (g' & Hrun & Hs' & Hg').
  { intros it Hit. destruct (Hall it Hit) as (H1 & _ & H3). split; assumption. }
  eexists. split.
  { unfold load_from_file. fold n items.
    unfold bind, modify, lift. cbn beta iota. rewrite (np_zeros_ok n Hbound).
    fold z. fold t0. rewrite Hrun. reflexivity. }
  simpl. split; [reflexivity|]. split; [split; [exact Hn|exact Hs']|].
  split.
  { intros c Hc. rewrite (Hg' c Hc). simpl. unfold z.
    rewrite grid_get_zeros by (rewrite Z2Nat.id by exact Hn; exact Hc). reflexivity. }
  split; [reflexivity|]. split; [|split; reflexivity].
  rewrite running_max_0. reflexivity.
Qed.

Lemma load_accepts_without_validation_witness :
  exists s s',
    load_from_file
      {| snap_size := Some 2; snap_next_id := Some 1;
         snap_placed :=
           Some [ mkItem 7 None [(0, 0, 0); (1, 0, 0); (0, 1, 0); (1, 1, 0)] (0, 0, 0);
                  mkItem 7 (Some "O") [(0, 0, 0); (1, 0, 0); (0, 1, 0); (1, 1, 0)]
                    (0, 0, 1) ] |} s
    = (Ok tt, s')
    /\ next_id s' = 1.
Proof.
  destruct one_square_entry as (s & _).
  destruct (load_accepts_without_validation
              {| snap_size := Some 2; snap_next_id := Some 1;
                 snap_placed :=
                   Some [ mkItem 7 None [(0, 0, 0); (1, 0, 0); (0, 1, 0); (1, 1, 0)]
                            (0, 0, 0);
                          mkItem 7 (Some "O") [(0, 0, 0); (1, 0, 0); (0, 1, 0); (1, 1, 0)]
                            (0, 0, 1) ] |} s)
    as (s' & Hrun & _ & _ & _ & _ & Hnext & _).
  - simpl. lia.
  - intros it [<-|[<-|[]]]; (split; [reflexivity|]);
      (split; [unfold in_int64; simpl; lia|]);
      intros c [<-|[<-|[<-|[<-|[]]]]]; reflexivity.
  - exists s, s'. split; [exact Hrun|exact Hnext].
Defined.
